(** * Y-LineageTracker, [LineageTracker/EstimateTime.py]

    A shallow embedding of the calibration, tree-preparation, control-file
    and summary code of [EstimateTime], with the properties of its
    specification stated and proved over it.

    Python values are modelled as follows.
    - [str] is [string].  The classes [\w] and [\d] of a pattern are
      embedded on ASCII text, where they are [[A-Za-z0-9_]] and [[0-9]];
      a result that depends on the class of a character takes the text
      to be ASCII ([Py.is_ascii]), or follows from a match of the
      pattern, which only ASCII text gives.
    - [int] is [Z], [None]-or-value is [option].
    - An exception is a value of [exn]; a function that may raise returns
      [result].
    - An [ete3] tree is a store of [TreeNode] objects addressed by their
      identity (a [nat]); every method of [ete3] that the module calls is
      embedded from [ete3/coretype/tree.py] and [ete3/parser/newick.py]
      (release 3.1). *)

From Stdlib Require Import String Ascii ZArith Lia List DecimalString Decimal.
From stdpp Require Import base list gmap strings sets.

Open Scope string_scope.
Open Scope list_scope.

Set Warnings "-register-all,-implicit-create-rewrite-hint-db".

(** ** Python strings *)

Module Py.

Definition nl : ascii := "010"%char.
Definition tab : ascii := "009"%char.
Definition cr : ascii := "013"%char.

Definition str1 (c : ascii) : string := String c EmptyString.

Definition is_empty (s : string) : bool :=
  match s with EmptyString => true | _ => false end.

Definition between (lo hi : nat) (c : ascii) : bool :=
  ((lo <=? nat_of_ascii c)%nat && (nat_of_ascii c <=? hi)%nat)%bool.

(** A character of ASCII, and a text of such characters. *)
Definition is_ascii_char (c : ascii) : bool := (nat_of_ascii c <? 128)%nat.

(** [\d] on a character of ASCII *)
Definition is_digit (c : ascii) : bool := between 48 57 c.

(** [\w] on a character of ASCII *)
Definition is_word (c : ascii) : bool :=
  is_digit c || between 65 90 c || between 97 122 c || Ascii.eqb c "_".

(** [str.isspace] on one ASCII character: tab, LF, VT, FF, CR, FS, GS, RS, US
    and the space. *)
Definition is_space (c : ascii) : bool :=
  between 9 13 c || between 28 32 c.

Fixpoint all_chars (p : ascii -> bool) (s : string) : bool :=
  match s with
  | EmptyString => true
  | String c s' => p c && all_chars p s'
  end.

Definition is_ascii (s : string) : bool := all_chars is_ascii_char s.

(** The longest prefix of [s] whose characters satisfy [p], and the rest. *)
Fixpoint span (p : ascii -> bool) (s : string) : string * string :=
  match s with
  | EmptyString => (EmptyString, EmptyString)
  | String c s' =>
      if p c then let '(a, b) := span p s' in (String c a, b)
      else (EmptyString, s)
  end.

(** [s.startswith(p)] *)
Definition startswith (p s : string) : bool := String.prefix p s.

(** [sub in s] *)
Fixpoint contains (sub s : string) : bool :=
  String.prefix sub s ||
  match s with
  | EmptyString => false
  | String _ s' => contains sub s'
  end.

(** [s.split(sep)] for a non-empty [sep]: cut at every occurrence of [sep],
    scanning from the left; [skip] counts the characters of a separator
    that was just recognised and is still to be passed over. *)
Fixpoint split_go (sep : string) (skip : nat) (cur : string) (s : string)
  : list string :=
  match s with
  | EmptyString => [cur]
  | String c s' =>
      match skip with
      | S k => split_go sep k cur s'
      | O =>
          if String.prefix sep s
          then cur :: split_go sep (String.length sep - 1) EmptyString s'
          else split_go sep 0 (cur +:+ str1 c) s'
      end
  end.

Definition split (sep s : string) : list string := split_go sep 0 EmptyString s.

(** [s.replace(old, new)] for a non-empty [old]: every non-overlapping
    occurrence, from the left. *)
Fixpoint replace_go (old new : string) (skip : nat) (s : string) : string :=
  match s with
  | EmptyString => EmptyString
  | String c s' =>
      match skip with
      | S k => replace_go old new k s'
      | O =>
          if String.prefix old s
          then new +:+ replace_go old new (String.length old - 1) s'
          else String c (replace_go old new 0 s')
      end
  end.

Definition replace (old new s : string) : string := replace_go old new 0 s.

(** [s.lstrip(chars)], [s.rstrip(chars)], [s.strip(chars)] with the set of
    characters given as a predicate. *)
Fixpoint lstrip (p : ascii -> bool) (s : string) : string :=
  match s with
  | EmptyString => EmptyString
  | String c s' => if p c then lstrip p s' else s
  end.

Fixpoint rstrip (p : ascii -> bool) (s : string) : string :=
  match s with
  | EmptyString => EmptyString
  | String c s' =>
      let r := rstrip p s' in
      if is_empty r && p c then EmptyString else String c r
  end.

Definition strip (p : ascii -> bool) (s : string) : string :=
  rstrip p (lstrip p s).

(** [s.strip(c)] for a one-character argument, and [s.strip()]. *)
Definition strip_char (c : ascii) : string -> string := strip (Ascii.eqb c).
Definition strip_ws : string -> string := strip is_space.

(** [str(n)] for an [int]. *)
Definition str_of_nat (n : nat) : string := NilEmpty.string_of_uint (Nat.to_uint n).
Definition str_of_Z (z : Z) : string := NilZero.string_of_int (Z.to_int z).

(** [sep.join(l)] *)
Fixpoint join (sep : string) (l : list string) : string :=
  match l with
  | [] => EmptyString
  | [x] => x
  | x :: l' => x +:+ sep +:+ join sep l'
  end.

(** The text that [open(path)] gives to its reader: in text mode every
    line end of the file, CR LF or CR or LF, is read as LF.
    [after_cr] holds when the character before was a CR. *)
Fixpoint universal_newlines_go (after_cr : bool) (s : string) : string :=
  match s with
  | EmptyString => EmptyString
  | String c s' =>
      if Ascii.eqb c cr then String nl (universal_newlines_go true s')
      else if Ascii.eqb c nl && after_cr then universal_newlines_go false s'
      else String c (universal_newlines_go false s')
  end.

Definition universal_newlines (s : string) : string :=
  universal_newlines_go false s.

(** [f.readlines()] on the text read: the lines, each one with its line
    feed, the last one without when the text does not end in one. *)
Fixpoint readlines_go (cur : string) (s : string) : list string :=
  match s with
  | EmptyString => if is_empty cur then [] else [cur]
  | String c s' =>
      if Ascii.eqb c nl then (cur +:+ str1 c) :: readlines_go EmptyString s'
      else readlines_go (cur +:+ str1 c) s'
  end.

Definition readlines (s : string) : list string := readlines_go EmptyString s.

(** [open(path).readlines()] on a file with the given content *)
Definition open_readlines (content : string) : list string :=
  readlines (universal_newlines content).

(** [l[start:stop]] with a non-negative [start] and the negative stop [-k]. *)
Definition slice_neg {A} (start k : nat) (l : list A) : list A :=
  drop start (take (length l - k) l).

End Py.

(** ** Exceptions *)

Inductive exn : Type :=
  | TypeError (msg : string)
  | ValueError
  | IndexError
  | NameError
  | AttributeError
  | SystemExit
  | ZeroDivisionError
  | TreeError (msg : string).

(** The outcome of a call: a value, an exception, or [Timeout] when the
    step budget of a loop of the model is used up ([Timeout] is not a
    behaviour of the program: the results below show it never occurs). *)
Inductive result (A : Type) : Type :=
  | Ok (a : A)
  | Raise (e : exn)
  | Timeout.
Arguments Ok {A} a.
Arguments Raise {A} e.
Arguments Timeout {A}.

#[global] Instance result_ret : MRet result := fun A a => Ok a.
#[global] Instance result_bind : MBind result := fun A B f r =>
  match r with
  | Ok a => f a
  | Raise e => Raise e
  | Timeout => Timeout
  end.

#[global] Instance result_fmap : FMap result := fun A B f r =>
  match r with
  | Ok a => Ok (f a)
  | Raise e => Raise e
  | Timeout => Timeout
  end.

(** ** Regular expressions of [_haplogroup_calibration]

    The four patterns are sequences of a character class repeated with [+]
    and of literal characters.  In each of them the character that follows
    a class is outside the class, so the greedy match of the class is the
    only one that can succeed and no backtracking is needed. *)

Module Re.

(** [cls+] followed by [k] *)
Definition plus (cls : ascii -> bool) (k : string -> bool) (s : string) : bool :=
  let '(a, r) := Py.span cls s in negb (Py.is_empty a) && k r.

(** a literal character followed by [k] *)
Definition lit (c : ascii) (k : string -> bool) (s : string) : bool :=
  match s with
  | String c' r => Ascii.eqb c' c && k r
  | EmptyString => false
  end.

(** [$]: the end of the string, or the line feed that ends it *)
Definition eol (s : string) : bool :=
  match s with
  | EmptyString => true
  | String c EmptyString => Ascii.eqb c Py.nl
  | _ => false
  end.

(** [^\w+:\d+$] *)
Definition exact : string -> bool :=
  plus Py.is_word (lit ":" (plus Py.is_digit eol)).

(** [^\w+:<\d+$] *)
Definition upper : string -> bool :=
  plus Py.is_word (lit ":" (lit "<" (plus Py.is_digit eol))).

(** [^\w+:>\d+$] *)
Definition lower : string -> bool :=
  plus Py.is_word (lit ":" (lit ">" (plus Py.is_digit eol))).

(** [^\w+:\d+-\d+$] *)
Definition interval : string -> bool :=
  plus Py.is_word (lit ":" (plus Py.is_digit (lit "-" (plus Py.is_digit eol)))).

End Re.

(** ** Calibration lines *)

Definition format_error : exn := TypeError "format of calibration is incorrect".
Definition lookup_error : exn := TypeError "cannot find the haplogroup node in tree".

(** [a, b = l] *)
Definition unpack2 (l : list string) : result (string * string) :=
  match l with
  | [a; b] => Ok (a, b)
  | _ => Raise ValueError
  end.

(** [l[n]] *)
Definition index {A} (l : list A) (n : nat) : result A :=
  match l !! n with
  | Some a => Ok a
  | None => Raise IndexError
  end.

Record constraint : Type := mkConstraint {
  used_node : string;
  cal_node : string;
  cal_time : string
}.

(** The part of the body of the first loop of [_haplogroup_calibration]
    that reads one line [i]: lines 236 to 251. *)
Definition parse_calibration (i : string) : result constraint :=
  used ← index (Py.split ":" i) 0;
  if Re.exact i then
    '(node, time) ← unpack2 (Py.split ":" i);
    Ok (mkConstraint used node ("U(" +:+ time +:+ ")"))
  else if Re.upper i then
    '(node, time) ← unpack2 (Py.split ":<" i);
    Ok (mkConstraint used node ("U(" +:+ time +:+ ")"))
  else if Re.lower i then
    '(node, time) ← unpack2 (Py.split ":>" i);
    Ok (mkConstraint used node ("L(" +:+ time +:+ ")"))
  else if Re.interval i then
    '(node, time) ← unpack2 (Py.split ":" i);
    t0 ← index (Py.split "-" time) 0;
    t1 ← index (Py.split "-" time) 1;
    Ok (mkConstraint used node ("B(" +:+ (t0 +:+ ", " +:+ t1) +:+ ")"))
  else Raise format_error.

(** [_get_calibration]: the file system is the partial map [isfile] from a
    path that names a regular file to the content of the file. *)
Definition _get_calibration (isfile : string -> option string)
    (calibration : string) : list string :=
  match isfile calibration with
  | Some content => Py.open_readlines content
  | None => [calibration]
  end.

(** ** [ete3] trees

    A [TreeNode] object has a name, the list of its children and a link to
    its parent; the store maps the identity of an object to its state.  A
    node that was detached from the tree stays in the store, as the object
    stays alive in Python while a traversal still refers to it. *)

Record TreeNode : Type := mkNode {
  name : string;
  children : list nat;
  up : option nat
}.

#[global] Instance TreeNode_inhabited : Inhabited TreeNode :=
  populate (mkNode EmptyString [] None).

Abbreviation heap := (gmap nat TreeNode).

Module Ete.

Definition set_name (h : heap) (n : nat) (s : string) : heap :=
  <[n := mkNode s (children (h !!! n)) (up (h !!! n))]> h.

Definition set_children (h : heap) (n : nat) (cs : list nat) : heap :=
  <[n := mkNode (name (h !!! n)) cs (up (h !!! n))]> h.

Definition set_up (h : heap) (n : nat) (u : option nat) : heap :=
  <[n := mkNode (name (h !!! n)) (children (h !!! n)) u]> h.

(** [node.is_leaf()] *)
Definition is_leaf (h : heap) (n : nat) : bool :=
  Nat.eqb (length (children (h !!! n))) 0.

(** [parent.add_child(child)]: the child goes to the end of the list. *)
Definition add_child (h : heap) (parent child : nat) : heap :=
  set_up (set_children h parent (children (h !!! parent) ++ [child]))
         child (Some parent).

(** [l.remove(x)]: the first occurrence. *)
Fixpoint list_remove (x : nat) (l : list nat) : option (list nat) :=
  match l with
  | [] => None
  | y :: l' =>
      if Nat.eqb y x then Some l'
      else match list_remove x l' with
           | Some r => Some (y :: r)
           | None => None
           end
  end.

(** [parent.remove_child(child)] *)
Definition remove_child (h : heap) (parent child : nat) : result heap :=
  match list_remove child (children (h !!! parent)) with
  | Some cs => Ok (set_up (set_children h parent cs) child None)
  | None => Raise (TreeError "child not found")
  end.

(** The first part of [node.delete()]: with a parent, the children of the
    node are added to the parent and the node is removed from it.  The
    result carries the parent. *)
Definition detach (h : heap) (n : nat) : result (heap * option nat) :=
  match up (h !!! n) with
  | None => Ok (h, None)
  | Some parent =>
      let h1 := foldl (fun h ch => add_child h parent ch) h (children (h !!! n)) in
      h2 ← remove_child h1 parent n;
      Ok (h2, Some parent)
  end.

(** [node.delete(prevent_nondicotomic)]: when the flag is set and the parent
    is left with fewer than two children, the parent is deleted as well,
    with the flag cleared. *)
Definition delete (h : heap) (n : nat) (prevent_nondicotomic : bool)
  : result heap :=
  '(h1, parent) ← detach h n;
  match parent with
  | Some p =>
      if prevent_nondicotomic && (length (children (h1 !!! p)) <? 2)%nat
      then '(h2, _) ← detach h1 p; Ok h2
      else Ok h1
  | None => Ok h1
  end.

(** [for node in root.traverse(strategy)]: the generator keeps the nodes
    still to visit in a deque.  It takes the first one, yields it, and when
    it is resumed, after the body of the loop has run, it adds the
    children that the node has by then: in front of the deque for
    ['preorder'], at its end for ['levelorder'].  [body] is the loop body;
    [skip_root] tells [iter_descendants], which does not yield the root,
    from [traverse]. *)
Inductive strategy : Type := Preorder | Levelorder.

Definition push (s : strategy) (kids rest : list nat) : list nat :=
  match s with
  | Preorder => kids ++ rest
  | Levelorder => rest ++ kids
  end.

Fixpoint for_traverse {S : Type} (fuel : nat) (s : strategy) (skip_root : bool)
    (body : nat -> heap * S -> result (heap * S))
    (root : nat) (to_visit : list nat) (st : heap * S)
  : result (heap * S) :=
  match to_visit with
  | [] => Ok st
  | node :: rest =>
      match fuel with
      | O => Timeout
      | S fuel' =>
          st' ← (if skip_root && Nat.eqb node root then Ok st else body node st);
          for_traverse fuel' s skip_root body root
            (push s (children (fst st' !!! node)) rest) st'
      end
  end.

Definition budget (h : heap) : nat := S (size h).

(** [list(root.traverse(strategy))] on a tree that is not changed
    meanwhile. *)
Definition traverse (s : strategy) (h : heap) (root : nat) : result (list nat) :=
  '(_, l) ← for_traverse (budget h) s false
              (fun n '(h, acc) => Ok (h, acc ++ [n])) root [root] (h, []);
  Ok l.

(** [root.search_nodes(name=s)] *)
Definition search_nodes (h : heap) (root : nat) (s : string) : result (list nat) :=
  l ← traverse Levelorder h root;
  Ok (filter (fun n => name (h !!! n) = s) l).

(** [[leaf for leaf in root]]: [__iter__] is [iter_leaves], a preorder
    traversal that keeps the leaves. *)
Definition iter_leaves (h : heap) (root : nat) : result (list nat) :=
  l ← traverse Preorder h root;
  Ok (filter (fun n => is_leaf h n = true) l).

End Ete.

(** ** Newick text: [ete3/parser/newick.py]

    [write_newick] walks the tree with [iter_prepostorder]; the walk is
    written here as a recursion on the children.  Only the formats the
    module uses are embedded: 8 (all names) and 9 (leaf names). *)

Module Newick.

Inductive format : Type := F8 | F9.

(** [_ILEGAL_NEWICK_CHARS], the characters [:;(),[]] and tab, LF, CR, [=] *)
Definition illegal (c : ascii) : bool :=
  existsb (Ascii.eqb c)
    [":"; ";"; "("; ")"; ","; "["; "]"; Py.tab; Py.nl; Py.cr; "="]%char.

(** [re.sub("[" + _ILEGAL_NEWICK_CHARS + "]", "_", name)] *)
Fixpoint sanitize (s : string) : string :=
  match s with
  | EmptyString => EmptyString
  | String c s' => String (if illegal c then "_"%char else c) (sanitize s')
  end.

(** The first part of [format_node] for a name container that is not
    flexible: the sanitized name, and [NoName] when that is empty. *)
Definition format_name (nm : string) : string :=
  let s := sanitize nm in
  if Py.is_empty s then "NoName" else s.

(** [format_node(node, "leaf", format)] *)
Definition format_leaf (fmt : format) (nm : string) : string := format_name nm.

(** [format_node(node, "internal", format)] *)
Definition format_internal (fmt : format) (nm : string) : string :=
  match fmt with
  | F8 => format_name nm
  | F9 => EmptyString
  end.

(** In this section [name_text leaf nm] is the text written for the name
    of a leaf or of an internal node. *)
Section Write.
Variable name_text : bool -> string -> string.

(** The text the walk appends from the moment [n] is first met until its
    subtree is left.  A comma comes before a node that is not the root
    and not [node.up.children[0]]; the name of an internal node is
    written when [node.up is not None] ([format_root_node] is [False]). *)
Fixpoint write_node (fuel : nat) (h : heap) (root n : nat) : result string :=
  match fuel with
  | O => Timeout
  | S fuel' =>
      comma ← (if Nat.eqb n root then Ok EmptyString
               else match up (h !!! n) with
                    | None => Raise AttributeError
                    | Some p =>
                        match children (h !!! p) with
                        | [] => Raise IndexError
                        | c0 :: _ => Ok (if Nat.eqb n c0 then EmptyString else ",")
                        end
                    end);
      if Ete.is_leaf h n then Ok (comma +:+ name_text true (name (h !!! n)))
      else
        inner ← (fix go (cs : list nat) : result string :=
                   match cs with
                   | [] => Ok EmptyString
                   | c :: cs' =>
                       s ← write_node fuel' h root c;
                       r ← go cs';
                       Ok (s +:+ r)
                   end) (children (h !!! n));
        Ok (comma +:+ "(" +:+ inner +:+ ")" +:+
            match up (h !!! n) with
            | None => EmptyString
            | Some _ => name_text false (name (h !!! n))
            end)
  end.

Definition write_with (h : heap) (root : nat) : result string :=
  s ← write_node (Ete.budget h) h root root;
  Ok (s +:+ ";").
End Write.

Definition name_text (fmt : format) (leaf : bool) (nm : string) : string :=
  if leaf then format_leaf fmt nm else format_internal fmt nm.

(** [root.write(format=fmt)] *)
Definition write (fmt : format) (h : heap) (root : nat) : result string :=
  write_with (name_text fmt) h root.

End Newick.

(** ** Input trees

    A Newick text is given by the tree it denotes: [Node nm ks] is a node
    named [nm] ([EmptyString] when the text gives no name) with the
    children [ks], in the order of the text. *)

Inductive tree : Type := Node (label : string) (kids : list tree).

(** [Tree(text, format=8)]: the parser creates the node objects in the
    order it meets them in the text, parents before children; [next] is
    the identity of the next object created.  The root is object [0]. *)
Fixpoint load_at (parent : option nat) (t : tree) (next : nat) (h : heap)
  : nat * heap :=
  match t with
  | Node nm ks =>
      let '(ids, next', h') :=
        (fix go (ks : list tree) (nx : nat) (h : heap) : list nat * nat * heap :=
           match ks with
           | [] => ([], nx, h)
           | k :: ks' =>
               let '(n1, h1) := load_at (Some next) k nx h in
               let '(ids, n2, h2) := go ks' n1 h1 in
               (nx :: ids, n2, h2)
           end) ks (S next) h in
      (next', <[next := mkNode nm ids parent]> h')
  end.

Definition load (t : tree) : heap := snd (load_at None t 0 ∅).

Definition root : nat := 0.

(** [Tree(tree.write(format=9), format=9)]: the text written in format 9
    has the topology of the tree, the formatted names of the leaves and no
    other name; reading it back gives the tree with these names. *)
Fixpoint reparse9 (t : tree) : tree :=
  match t with
  | Node nm [] => Node (Newick.format_leaf Newick.F9 nm) []
  | Node nm ks => Node EmptyString (map reparse9 ks)
  end.

(** ** [EstimateTime._read_tree_file] and [_haplogroup_calibration] *)

(** [node.name == ''], [x in l] *)
Definition unnamed (h : heap) (n : nat) : bool := Py.is_empty (name (h !!! n)).
Definition str_in (x : string) (l : list string) : bool := existsb (String.eqb x) l.

(** ['%d 1\n\n%s' % (taxa_num, tmp_tree_info)] *)
Definition tree_file_text (taxa_num : nat) (tmp_tree_info : string) : string :=
  Py.str_of_nat taxa_num +:+ " 1" +:+ Py.str1 Py.nl +:+ Py.str1 Py.nl +:+ tmp_tree_info.

(** The body of the loop of [_read_tree_file], lines 207 and 208. *)
Definition prune_body (n : nat) (h : heap) : result heap :=
  if negb (Ete.is_leaf h n) && Nat.eqb (length (children (h !!! n))) 1 && unnamed h n
  then Ete.delete h n true
  else Ok h.

(** [for node in tree.iter_descendants('preorder'): body], on the store. *)
Definition for_descendants (body : nat -> heap -> result heap) (h : heap)
  : result heap :=
  '(h', _) ← Ete.for_traverse (Ete.budget h) Ete.Preorder true
               (fun n '(h, u) => h' ← body n h; Ok (h', u)) root [root] (h, tt);
  Ok h'.

(** The tree part of [_read_tree_file]: the pruned tree and the text of the
    temporary tree file.  [t] is the tree of the text of [tree_file]. *)
Definition _read_tree_file (t : tree) : result (heap * string) :=
  let pruned_tree := load (reparse9 t) in
  h ← for_descendants prune_body pruned_tree;
  leaves ← Ete.iter_leaves h root;
  tmp_tree_info ← Newick.write Newick.F9 h root;
  Ok (h, tree_file_text (length leaves) tmp_tree_info).

(** The state of the first loop of [_haplogroup_calibration]: the tree,
    [root_age] and [used_nodes]. *)
Record cal_state : Type := mkCal {
  cal_tree : heap;
  root_age : option string;
  used_nodes : list string
}.

(** One turn of the first loop, lines 236 to 259.  The bare [except]
    turns every exception of the [try] block into the lookup error. *)
Definition calibrate_line (root_name : string) (st : cal_state) (i : string)
  : result cal_state :=
  c ← parse_calibration i;
  if String.eqb (used_node c) root_name then
    Ok (mkCal (cal_tree st) (Some (cal_time c)) (used_nodes st ++ [used_node c]))
  else
    match Ete.search_nodes (cal_tree st) root (cal_node c) with
    | Ok (n :: _) =>
        Ok (mkCal (Ete.set_name (cal_tree st) n (cal_time c)) (root_age st)
                  (used_nodes st ++ [used_node c]))
    | Ok [] => Raise lookup_error
    | Raise _ => Raise lookup_error
    | Timeout => Timeout
    end.

Fixpoint calibrate (root_name : string) (st : cal_state) (lines : list string)
  : result cal_state :=
  match lines with
  | [] => Ok st
  | i :: lines' =>
      st' ← calibrate_line root_name st i;
      calibrate root_name st' lines'
  end.

(** The body of the second loop, lines 262 to 267. *)
Definition annotate_body (used : list string) (n : nat) (h : heap) : result heap :=
  if negb (Ete.is_leaf h n) then
    if Nat.eqb (length (children (h !!! n))) 1 && unnamed h n
    then Ete.delete h n true
    else if negb (str_in (name (h !!! n)) used)
         then Ok (Ete.set_name h n "NoName")
         else Ok h
  else Ok h.

(** [_haplogroup_calibration] from the calibration lines on: the final
    tree, the text of the temporary tree file and [root_age]. *)
Definition annotate (calibration_info : list string) (t : tree)
  : result (heap * string * option string) :=
  let cal_tree0 := load t in
  let root_name := name (cal_tree0 !!! root) in
  st ← calibrate root_name (mkCal cal_tree0 None []) calibration_info;
  h ← for_descendants (annotate_body (used_nodes st)) (cal_tree st);
  leaves ← Ete.iter_leaves h root;
  tmp_tree_info ← Newick.write Newick.F8 h root;
  let tmp_tree_info := Py.replace "NoName" "" tmp_tree_info in
  Ok (h, tree_file_text (length leaves) tmp_tree_info, root_age st).

Definition _haplogroup_calibration (isfile : string -> option string)
    (calibration : string) (t : tree) : result (string * option string) :=
  '(_, text, age) ← annotate (_get_calibration isfile calibration) t;
  Ok (text, age).

(** ** The parameters of [_generate_mcmc_ctl] *)

Definition mcmc_warning : string :=
  "[Y-LineageTracker] Step for MCMC is too small, default value will be used".

(** Lines 326 to 333: the value of [mcmc] and the warnings logged.
    [arguments.mcmc] is [None] or an [int]; an [int] is true when it is not
    zero. *)
Definition choose_mcmc (mcmc : option Z) : Z * list string :=
  match mcmc with
  | Some v =>
      if negb (Z.eqb v 0) then
        if (1000 <? v)%Z then (v, []) else (10000%Z, [mcmc_warning])
      else (10000%Z, [])
  | None => (10000%Z, [])
  end.

(** [_get_model] *)
Definition _get_model (name : string) : option string :=
  if String.eqb name "jc96" then Some "0"
  else if String.eqb name "k80" then Some "1"
  else if String.eqb name "f81" then Some "2"
  else if String.eqb name "f84" then Some "3"
  else if String.eqb name "hky85" then Some "4"
  else if String.eqb name "gtr" then Some "7"
  else None.

(** The command line, as [argparse] returns it.  [arg_seq] holds the
    records that [ConvertData] reads from [--seq].  A float is given by
    what the module observes of it: [--mut-rate] by whether it is zero and
    by the text [str(1 / rate)] when it is not; [--filter] by whether it
    is true, that is not zero, and by the comparison
    [N_count / len(all_al) < filter], which is [arg_rate_below N_count
    (len all_al)]. *)
Record arguments : Type := mkArgs {
  arg_seq : list (string * list ascii);
  arg_tree : tree;
  arg_calibration : option string;
  arg_auto : bool;
  arg_model : string;
  arg_rate_zero : bool;
  arg_rate_inverse : string;
  arg_filter : bool;
  arg_rate_below : nat -> nat -> bool;
  arg_mcmc : option Z
}.

(** [_calculate_mutation_rate]: [alpha / rate] raises when the rate is
    zero; [str(alpha)] and [str(alpha_d)] are [1]. *)
Definition rgene_gamma_text (a : arguments) : string :=
  "1" +:+ " " +:+ arg_rate_inverse a +:+ " " +:+ "1".

Definition _calculate_mutation_rate (a : arguments) : result string :=
  if arg_rate_zero a then Raise ZeroDivisionError
  else Ok (rgene_gamma_text a).

(** The names of the temporary files and the output prefix. *)
Record paths : Type := mkPaths {
  seq_file_name : string;
  tree_file_name : string;
  path : string
}.

(** The dictionary [ctl_parameters]: the keys in the order of insertion; a
    value is [None] when it is Python's [None].  The value of
    [rgene_gamma] is the text [_calculate_mutation_rate] returns; where the
    call raises there is no dictionary, which [_generate_mcmc_ctl] below
    accounts for. *)
Definition ctl_parameters (p : paths) (a : arguments)
    (auto_calibration : option string) : list (string * option string) * list string :=
  let '(mcmc, log) := choose_mcmc (arg_mcmc a) in
  ([("seed", Some "-1");
    ("seqfile", Some (seq_file_name p));
    ("treefile", Some (tree_file_name p));
    ("mcmcfile", Some (path p +:+ ".mcmc.txt"));
    ("outfile", Some (path p +:+ ".out.txt"));
    ("ndata", Some "1");
    ("seqtype", Some "0");
    ("usedata", Some "1");
    ("clock", Some "1");
    ("model", _get_model (arg_model a));
    ("alpha", Some "0");
    ("ncatG", Some "5");
    ("cleandata", Some "0");
    ("BDparas", Some "1 1 0.1");
    ("kappa_gamma", Some "6 2");
    ("alpha_gamma", Some "1 1");
    ("rgene_gamma", Some (rgene_gamma_text a));
    ("print", Some "1");
    ("burnin", Some "2000");
    ("sampfreq", Some "5");
    ("nsample", Some (Py.str_of_Z mcmc))]
   ++ match auto_calibration with
      | Some age => if Py.is_empty age then [] else [("RootAge", Some age)]
      | None => []
      end,
   log).

(** [d[key]] on the dictionary *)
Fixpoint ctl_get (key : string) (d : list (string * option string))
  : option (option string) :=
  match d with
  | [] => None
  | (k, v) :: d' => if String.eqb k key then Some v else ctl_get key d'
  end.

(** [_get_root_age].  [prior_calibration] is the table that
    [CommonData.read_prior_calibration] returns, as the map from a name of
    its index to the texts of the columns [Lower1] and [Upper1]. *)
Definition _get_root_age (prior_calibration : string -> option (string * string))
    (t : tree) : option string * list string :=
  let root_name := name (load t !!! root) in
  match prior_calibration root_name with
  | Some (lower, upper) => (Some ("B(" +:+ lower +:+ ", " +:+ upper +:+ ")"), [])
  | None =>
      (None,
       [if Py.is_empty root_name
        then "[Y-LineageTracker] The root name does not exist, auto prior calibration will not be set"
        else "[Y-LineageTracker] Cannot find calibration time for root name " +:+ root_name
             +:+ ", auto prior calibration will not be set"])
  end.

Definition truthy (s : option string) : bool :=
  match s with
  | Some x => negb (Py.is_empty x)
  | None => false
  end.

(** ** [_summarize_result]

    The tree is only read here, so [tree.traverse('preorder')] is the
    preorder listing of the input tree. *)

Fixpoint preorder (t : tree) : list tree :=
  match t with
  | Node nm ks =>
      t :: (fix go (ks : list tree) : list tree :=
              match ks with
              | [] => []
              | k :: ks' => preorder k ++ go ks'
              end) ks
  end.

Definition label_of (t : tree) : string := match t with Node nm _ => nm end.
Definition kids_of (t : tree) : list tree := match t with Node _ ks => ks end.

(** [not node.is_leaf() and len(children) > 1] *)
Definition qualifies (t : tree) : bool :=
  negb (Nat.eqb (length (kids_of t)) 0) && (1 <? length (kids_of t))%nat.

(** [l.index(x)] for an [x] that occurs in [l] *)
Fixpoint list_index (x : string) (l : list string) : nat :=
  match l with
  | [] => 0
  | y :: l' => if String.eqb y x then 0 else S (list_index x l')
  end.

(** Lines 376 to 378: [head_num] after the loop, [None] when no line
    starts with the marker and the name stays unbound. *)
Definition find_head (out_info : list string) : option nat :=
  foldl (fun head i =>
           if Py.startswith "Posterior mean" i
           then Some (list_index i out_info) else head)
        None out_info.

(** [[i for i in line.strip().split(' ') if i != '']] *)
Definition fields (line : string) : list string :=
  filter (fun i => Py.is_empty i = false) (Py.split " " (Py.strip_ws line)).

Definition header_row : string :=
  "NodeName" +:+ Py.str1 Py.tab +:+ "NodeTime" +:+ Py.str1 Py.tab
  +:+ "Lower" +:+ Py.str1 Py.tab +:+ "Upper" +:+ Py.str1 Py.nl.

(** Lines 393 to 398 for a node named [node_name]: the row written. *)
Definition time_row (time_info : list string) (num : nat) (node_name : string)
  : result string :=
  line ← index time_info num;
  let node_time_info := fields line in
  node_time ← index node_time_info 1;
  f4 ← index node_time_info 4;
  let lower := Py.strip_char "," (Py.strip_char "(" f4) in
  f5 ← index node_time_info 5;
  let upper := Py.strip_char ")" f5 in
  Ok (node_name +:+ Py.str1 Py.tab +:+ node_time +:+ Py.str1 Py.tab
      +:+ lower +:+ Py.str1 Py.tab +:+ upper +:+ Py.str1 Py.nl).

(** The loop of lines 385 to 398 over the nodes still to visit: the rows
    written, and how the loop ends. *)
Fixpoint summarize_nodes (time_info : list string) (nodes : list tree)
    (num no_name_num : nat) : list string * result unit :=
  match nodes with
  | [] => ([], Ok tt)
  | node :: nodes' =>
      if qualifies node then
        let '(node_name, no_name_num') :=
          if Py.is_empty (label_of node)
          then ("NoName" +:+ Py.str_of_nat no_name_num, S no_name_num)
          else (label_of node, no_name_num) in
        match time_row time_info num node_name with
        | Ok row =>
            let '(rows, r) := summarize_nodes time_info nodes' (S num) no_name_num' in
            (row :: rows, r)
        | Raise e => ([], Raise e)
        | Timeout => ([], Timeout)
        end
      else summarize_nodes time_info nodes' num no_name_num
  end.

(** [_summarize_result]: the lines written to the table, header first, and
    the outcome of the call.  [t] is the original tree and [out_info] the
    lines of the output of the estimator. *)
Definition _summarize_result (t : tree) (out_info : list string)
  : list string * result unit :=
  match find_head out_info with
  | None => ([], Raise NameError)
  | Some head_num =>
      let time_info := Py.slice_neg (head_num + 2) 3 out_info in
      let '(rows, r) := summarize_nodes time_info (preorder t) 0 0 in
      (header_row :: rows, r)
  end.

(** ** Readings of the specification *)

(** The smallest value of [--mcmc] that the code keeps: the test of line
    327 is [arguments.mcmc > 1000]. *)
Definition mcmc_threshold : Z := 1001.

(** The reading of the specification: a value at least the threshold is
    kept without a warning, a value below it is replaced by 10000 and the
    warning is logged. *)
Definition honours_threshold (v : Z) : Prop :=
  let '(mcmc, log) := choose_mcmc (Some v) in
  if (mcmc_threshold <=? v)%Z then mcmc = v
  else mcmc = 10000%Z /\ In mcmc_warning log.

(** The tree of the text [((A,(B,C)),D);] *)
Definition tree_ABCD : tree :=
  Node "" [Node "" [Node "A" []; Node "" [Node "B" []; Node "C" []]]; Node "D" []].

(** The tree of the text [((A,B)H,C);] *)
Definition tree_H : tree :=
  Node "" [Node "H" [Node "A" []; Node "B" []]; Node "C" []].

(** A file system without any regular file, and one whose only file is
    [cal.txt], with two lines. *)
Definition no_file : string -> option string := fun _ => None.

Definition cal_txt : string :=
  "B:100-200" +:+ Py.str1 Py.nl +:+ "R:>50" +:+ Py.str1 Py.nl.

Definition one_file : string -> option string :=
  fun f => if String.eqb f "cal.txt" then Some cal_txt else None.

(** ** Stores that hold a tree

    [attached h A]: the objects of [A] form a tree in the store [h], with
    the root object [root] on top.  Every child of a node of [A] is in [A]
    and points back to its parent with [up]; every node of [A] but the
    root is a child of its parent; no node occurs twice among the children
    of a node; an object is created after its parent, so that a child has
    a larger identity than its parent.  Objects outside [A] are nodes that
    were detached from the tree. *)
Record attached (h : heap) (A : gset nat) : Prop := mkAttached {
  att_root : root ∈ A;
  att_root_up : up (h !!! root) = None;
  att_kids : forall p c, p ∈ A -> c ∈ children (h !!! p) ->
             c ∈ A /\ up (h !!! c) = Some p /\ p < c;
  att_parent : forall c, c ∈ A -> c <> root ->
               exists p, p ∈ A /\ up (h !!! c) = Some p /\ c ∈ children (h !!! p);
  att_nodup : forall p, p ∈ A -> NoDup (children (h !!! p));
  att_dom : A ⊆ dom h
}.

(** [spliced h n p h']: [h'] is [h] after the node [n] was taken out from
    under its parent [p]: the children of [n] follow the other children of
    [p] and point to [p], [n] has no parent any more and keeps its list of
    children, and nothing else changes. *)
Record spliced (h : heap) (n p : nat) (h' : heap) : Prop := mkSpliced {
  spl_name : forall x, name (h' !!! x) = name (h !!! x);
  spl_children : forall x,
    children (h' !!! x)
    = if decide (x = p)
      then filter (fun y => y <> n) (children (h !!! p)) ++ children (h !!! n)
      else children (h !!! x);
  spl_up : forall x,
    up (h' !!! x)
    = if decide (x = n) then None
      else if decide (x ∈ children (h !!! n)) then Some p
      else up (h !!! x);
  spl_dom : dom h ⊆ dom h'
}.

(** [step_ok h A n h' A']: what one turn of a loop over the descendants
    does when it visits the node [n] of the tree [A] of [h] and leaves the
    tree [A'] of [h']: nodes are only removed, and only [n] and its parent,
    when they have one child and are not the root; no list of children changes its length and
    the one of [n] does not change at all; the children of [n] hang under
    [n], under its parent or under the parent of its parent, and no other
    node changes its parent; only [n] may get a new name. *)
Record step_ok (h : heap) (A : gset nat) (n : nat) (h' : heap) (A' : gset nat)
  : Prop := mkStep {
  so_att : attached h' A';
  so_sub : A' ⊆ A;
  so_removed : forall x, x ∈ A -> x ∉ A' ->
               x <> root /\ length (children (h !!! x)) = 1
               /\ (x = n \/ up (h !!! n) = Some x);
  so_len : forall x, length (children (h' !!! x)) = length (children (h !!! x));
  so_self : children (h' !!! n) = children (h !!! n);
  so_kids : forall x, x ∈ children (h !!! n) ->
            x ∈ A' /\
            exists q, up (h' !!! x) = Some q /\
              (q = n \/ up (h !!! n) = Some q \/
               exists p, up (h !!! n) = Some p /\ up (h !!! p) = Some q);
  so_other : forall x, x ∈ A' -> x ∉ children (h !!! n) ->
             up (h' !!! x) = up (h !!! x);
  so_name : forall x, x <> n -> name (h' !!! x) = name (h !!! x)
}.

(** [linked h A V W]: while a traversal runs, with the nodes [V] visited
    and the nodes [W] waiting in the deque, a node of the tree other than
    the root is visited or waiting exactly when its parent is visited. *)
Definition linked (h : heap) (A V : gset nat) (W : list nat) : Prop :=
  forall x q, x ∈ A -> x <> root -> up (h !!! x) = Some q ->
              (x ∈ V \/ x ∈ W) <-> q ∈ V.

(** ** The store of an input tree

    The number of nodes of a tree, the loading of the children of a node
    as a function of its own, and what it means that the objects
    [lo .. hi-1] of a store form trees that hang under [par] with the
    roots [tops]. *)
Fixpoint tree_size (t : tree) : nat :=
  match t with
  | Node _ ks =>
      S ((fix go (ks : list tree) : nat :=
            match ks with
            | [] => 0
            | k :: ks' => tree_size k + go ks'
            end) ks)
  end.

Fixpoint forest_size (ks : list tree) : nat :=
  match ks with
  | [] => 0
  | k :: ks' => tree_size k + forest_size ks'
  end.

Fixpoint load_forest (parent : nat) (ks : list tree) (nx : nat) (h : heap)
  : list nat * nat * heap :=
  match ks with
  | [] => ([], nx, h)
  | k :: ks' =>
      let '(n1, h1) := load_at (Some parent) k nx h in
      let '(ids, n2, h2) := load_forest parent ks' n1 h1 in
      (nx :: ids, n2, h2)
  end.

Record block (h : heap) (lo hi : nat) (tops : list nat) (par : option nat)
  : Prop := mkBlock {
  bl_dom : forall x, lo <= x < hi -> x ∈ dom h;
  bl_kids : forall p c, lo <= p < hi -> c ∈ children (h !!! p) ->
            p < c < hi /\ up (h !!! c) = Some p;
  bl_nodup : forall p, lo <= p < hi -> NoDup (children (h !!! p));
  bl_tops : forall c, c ∈ tops -> lo <= c < hi /\ up (h !!! c) = par;
  bl_inner : forall c, lo <= c < hi -> c ∉ tops ->
             exists q, lo <= q < hi /\ up (h !!! c) = Some q
                       /\ c ∈ children (h !!! q);
  bl_tops_nodup : NoDup tops
}.

(** The name and the number of children of a node, in the store and in
    the input tree. *)
Definition node_info (h : heap) (x : nat) : string * nat :=
  (name (h !!! x), length (children (h !!! x))).

Definition tree_info (t : tree) : string * nat :=
  (label_of t, length (kids_of t)).

(** The names of the leaves of a tree, from left to right. *)
Definition leaf_names (t : tree) : list string :=
  map fst (filter (fun i => snd i = 0) (map tree_info (preorder t))).

(** ** The pruning pass

    [unnamed_unary h x]: the node has exactly one child and an empty name.
    [pruning h0 A0 h A V]: how the tree [A] of [h] relates to the tree
    [A0] of [h0] from which a pruning loop started, when the loop has
    visited the nodes [V]. *)
Definition unnamed_unary (h : heap) (x : nat) : Prop :=
  length (children (h !!! x)) = 1 /\ name (h !!! x) = EmptyString.

Record pruning (h0 : heap) (A0 : gset nat) (h : heap) (A V : gset nat)
  : Prop := mkPruning {
  pr_sub : A ⊆ A0;
  pr_len : forall x, length (children (h !!! x)) = length (children (h0 !!! x));
  pr_removed : forall x, x ∈ A0 -> x ∉ A ->
               x <> root /\ length (children (h0 !!! x)) = 1;
  pr_unvisited : forall x, x ∉ V -> name (h !!! x) = name (h0 !!! x);
  pr_name : forall x, name (h !!! x) = name (h0 !!! x)
            \/ (name (h !!! x) = "NoName" /\ children (h0 !!! x) <> []);
  pr_done : forall x, x ∈ V -> x <> root -> unnamed_unary h0 x -> x ∉ A
}.

(** [[leaf.name for leaf in tree]] *)
Definition leaf_name_list (h : heap) : result (list string) :=
  l ← Ete.iter_leaves h root;
  Ok (map (fun n => name (h !!! n)) l).

(** The tree [((a),b);]: an unnamed node with one child beside a leaf. *)
Definition tree_unary : tree :=
  Node "" [Node "" [Node "a" []]; Node "b" []].

(** [x in root.traverse()]: the node is in the tree that hangs under the
    root. *)
Definition in_tree (h : heap) (x : nat) : bool :=
  match Ete.traverse Ete.Preorder h root with
  | Ok l => bool_decide (x ∈ l)
  | _ => false
  end.

(** What a pass over the tree of [h0] that ends with [h] has done: the
    root stays; nothing joins the tree; every node other than the root
    that had one child and no name has left the tree; a node that has
    left the tree is not the root and had exactly one child; and no node
    with one child and no name remains below the root. *)
Definition normalized (h0 h : heap) : Prop :=
  in_tree h root = true
  /\ (forall x, in_tree h x = true -> in_tree h0 x = true)
  /\ (forall x, in_tree h0 x = true -> x <> root -> unnamed_unary h0 x ->
                in_tree h x = false)
  /\ (forall x, in_tree h0 x = true -> in_tree h x = false ->
                x <> root /\ length (children (h0 !!! x)) = 1)
  /\ (forall x, in_tree h x = true -> x <> root -> ~ unnamed_unary h x).

(** Normalization in the words of the specification: a node with one
    child and no name is replaced by its child, in place, the root
    included. *)
Fixpoint spec_normalize (t : tree) : tree :=
  match t with
  | Node nm ks =>
      match map spec_normalize ks with
      | [k] => if Py.is_empty nm then k else Node nm [k]
      | ks' => Node nm ks'
      end
  end.

(** The trees [((a,b));] and [(((a))N,b)R;] *)
Definition tree_unary_root : tree :=
  Node "" [Node "" [Node "a" []; Node "b" []]].
Definition tree_named_unary : tree :=
  Node "R" [Node "N" [Node "" [Node "a" []]]; Node "b" []].

(** [c in s] for a character *)
Fixpoint occurs (c : ascii) (s : string) : bool :=
  match s with
  | EmptyString => false
  | String x s' => Ascii.eqb x c || occurs c s'
  end.

(** ** The writer, unfolded

    The comma the writer puts before a node, and the text of a list of
    children given the text of each child. *)
Definition comma_text (h : heap) (n : nat) : result string :=
  if Nat.eqb n root then Ok EmptyString
  else match up (h !!! n) with
       | None => Raise AttributeError
       | Some p =>
           match children (h !!! p) with
           | [] => Raise IndexError
           | c0 :: _ => Ok (if Nat.eqb n c0 then EmptyString else ",")
           end
       end.

Section Kids.
Variable f : nat -> result string.
Fixpoint write_kids (cs : list nat) : result string :=
  match cs with
  | [] => Ok EmptyString
  | c :: cs' => s ← f c; r ← write_kids cs'; Ok (s +:+ r)
  end.
End Kids.

(** [tmp_tree_info.replace('NoName', '')] *)
Definition clear_names (s : string) : string := Py.replace "NoName" "" s.

(** The tree [((NoNameX,b)H,c);]: a leaf whose name holds [NoName]. *)
Definition tree_NoName : tree :=
  Node "" [Node "H" [Node "NoNameX" []; Node "b" []]; Node "c" []].

(** A line is well formed when one of the four regular expressions
    matches it. *)
Definition well_formed (i : string) : bool :=
  Re.exact i || Re.upper i || Re.lower i || Re.interval i.

(** The shape of a prior: a letter and an opening parenthesis. *)
Definition prior_like (s : string) : Prop :=
  exists k r, s = String k (String "(" r).

(** The names of [h] are those of [h0] or priors. *)
Definition named_from (h0 h : heap) : Prop :=
  forall x, name (h !!! x) = name (h0 !!! x) \/ prior_like (name (h !!! x)).

(** The state in which the first loop of [_haplogroup_calibration]
    starts. *)
Definition cal_start (t : tree) : cal_state := mkCal (load t) None [].

(** [r >>= f] for a value *)
Ltac ok_bind := change (Ok ?a ≫= ?f) with (f a); cbv beta.

(** A calibration file with the line ends CR LF whose second line is not
    well formed. *)
Definition crlf : string := String Py.cr (String Py.nl EmptyString).

Definition bad_txt : string :=
  "B:100-200" +:+ crlf +:+ "D=300" +:+ crlf +:+ "A:5" +:+ crlf.

Definition bad_file : string -> option string :=
  fun f => if String.eqb f "bad.txt" then Some bad_txt else None.

(** The root age in the words of the specification: the prior of the
    constraint that names the root, the last one when there are several;
    nothing when no constraint names the root. *)
Fixpoint root_prior (root_name : string) (lines : list string) : option string :=
  match lines with
  | [] => None
  | i :: lines' =>
      match root_prior root_name lines' with
      | Some s => Some s
      | None =>
          match parse_calibration i with
          | Ok c => if String.eqb (used_node c) root_name
                    then Some (cal_time c) else None
          | _ => None
          end
      end
  end.

(** The names of the files of a run, and a table in which every name has
    the bounds 1 and 2. *)
Definition paths_example : paths := mkPaths "seq.tmp" "tree.tmp" "out".
Definition table_example : string -> option (string * string) :=
  fun _ => Some ("1", "2").

(** ** The table of node times, in the words of the specification

    The row of a node named [node_name] paired with a record whose
    fields are [fs]; the number of unnamed nodes before position [k];
    and the name under which the node at position [k] is written when
    the count of unnamed nodes starts at [j]. *)
Definition row_text (node_name : string) (fs : list string) : string :=
  node_name +:+ Py.str1 Py.tab +:+ nth 1 fs EmptyString +:+ Py.str1 Py.tab
  +:+ Py.strip_char "," (Py.strip_char "(" (nth 4 fs EmptyString))
  +:+ Py.str1 Py.tab +:+ Py.strip_char ")" (nth 5 fs EmptyString)
  +:+ Py.str1 Py.nl.

Definition unnamed_before (nodes : list tree) (k : nat) : nat :=
  length (List.filter (fun n => Py.is_empty (label_of n)) (take k nodes)).

Definition row_name (j : nat) (nodes : list tree) (k : nat) (node : tree)
  : string :=
  if Py.is_empty (label_of node)
  then "NoName" +:+ Py.str_of_nat (j + unnamed_before nodes k)
  else label_of node.

(** The internal nodes with more than one child, in preorder. *)
Definition qualifying (t : tree) : list tree :=
  List.filter qualifies (preorder t).

(** The block [time_info] holds a record with six fields or more for
    each of [n] nodes. *)
Definition enough_records (n : nat) (time_info : list string) : bool :=
  (n <=? length time_info)%nat
  && forallb (fun line => (6 <=? length (fields line))%nat) (take n time_info).

(** No line of [l] starts with the marker. *)
Definition no_marker (l : list string) : bool :=
  forallb (fun x => negb (Py.startswith "Posterior mean" x)) l.

(** An output of the estimator for a tree with three inner nodes. *)
Definition marker_line : string :=
  "Posterior mean (95% Equal-tail CI) (95% HPD CI) HPD-CI-width".
Definition out_before : list string := ["Species tree for FigTree."; "(A, B);"].
Definition out_after : list string :=
  [EmptyString;
   "t_n5   15.1234 (12.3456, 23.4567) (12.0000, 23.0000) 11.0000 (Jnode  6)";
   "t_n6   10.5000 (10.1000, 11.9000) (10.0000, 11.5000)  1.5000 (Jnode  5)";
   "t_n7   10.2500 (10.0500, 10.9500) (10.0100, 10.9000)  0.8900 (Jnode  4)";
   "mu     0.5000 ( 0.1000,  0.9000) ( 0.1000,  0.9000)  0.8000";
   EmptyString;
   "Time used:  0:10"].

(** ** Calibration lines, in the words of the specification

    A name is a non-empty word, a time a non-empty run of digits, and a
    line ends where its text ends or with the line feed that [readlines]
    keeps. *)
Definition is_name (s : string) : bool :=
  negb (Py.is_empty s) && Py.all_chars Py.is_word s.

Definition is_time (s : string) : bool :=
  negb (Py.is_empty s) && Py.all_chars Py.is_digit s.

Definition line_end (e : string) : bool :=
  Py.is_empty e || String.eqb e (Py.str1 Py.nl).

(** [c != x] *)
Definition other_than (x : ascii) (c : ascii) : bool := negb (Ascii.eqb c x).

(** ** [_clean_alignment]

    [msa] is the alignment that [ConvertData.data_convert] returns: the
    records with their [id] and their [seq], a sequence of characters.
    [filter] is a [float]; it enters the function through its truth value
    ([filter_on]: it is not zero) and through the comparison
    [N_count / len(all_al) < filter], which is [rate_below N_count
    (len all_al)]. *)

(** [[f(x) for x in l]] where [f] may raise *)
Fixpoint for_each {A B} (f : A -> result B) (l : list A) : result (list B) :=
  match l with
  | [] => Ok []
  | x :: l' => y ← f x; ys ← for_each f l'; Ok (y :: ys)
  end.

(** [l.count(c)] *)
Definition count_char (c : ascii) (l : list ascii) : nat :=
  length (List.filter (Ascii.eqb c) l).

(** Lines 178 to 183; [al] holds the members of [all_al]. *)
Definition N_count (all_al : list ascii) : nat :=
  (if existsb (Ascii.eqb "N") all_al then count_char "N" all_al else 0)
  + (if existsb (Ascii.eqb "-") all_al then count_char "-" all_al else 0).

(** The loop of lines 176 to 186 over the positions still to visit. *)
Fixpoint filter_columns (rate_below : nat -> nat -> bool)
    (seqs : list (list ascii)) (positions : list nat)
  : result (list (list ascii)) :=
  match positions with
  | [] => Ok []
  | i :: positions' =>
      all_al ← for_each (fun s => index s i) seqs;
      new_seqs ← filter_columns rate_below seqs positions';
      Ok (if rate_below (N_count all_al) (length all_al)
          then all_al :: new_seqs else new_seqs)
  end.

(** [np.array(cols).T.tolist()] for columns of one length: the empty list
    for no column, and the rows otherwise. *)
Definition np_transpose (cols : list (list ascii)) : list (list ascii) :=
  match cols with
  | [] => []
  | c0 :: _ =>
      map (fun j => map (fun col => nth j col " "%char) cols) (seq 0 (length c0))
  end.

(** [max(l)] *)
Definition py_max (l : list nat) : result nat :=
  match l with
  | [] => Raise ValueError
  | x :: l' => Ok (foldl Nat.max x l')
  end.

(** [n * ' '] *)
Fixpoint spaces (n : nat) : string :=
  match n with
  | O => EmptyString
  | S n' => String " " (spaces n')
  end.

(** The line of one record, line 195. *)
Definition seq_line (max_length : nat) (sequence : list ascii) (id : string)
  : string :=
  id +:+ spaces (max_length - String.length id) +:+ "   "
  +:+ string_of_list_ascii sequence +:+ Py.str1 Py.nl.

(** [zip(a, b)] with the function applied to each pair *)
Fixpoint zip_with_lines (f : list ascii -> string -> string)
    (a : list (list ascii)) (b : list string) : list string :=
  match a, b with
  | x :: a', y :: b' => f x y :: zip_with_lines f a' b'
  | _, _ => []
  end.

(** [_clean_alignment]: the text of the temporary sequence file.  Every
    exception is raised before the first [write]. *)
Definition _clean_alignment (filter_on : bool) (rate_below : nat -> nat -> bool)
    (msa : list (string * list ascii)) : result string :=
  let seqs := map snd msa in
  let ids := map fst msa in
  new_seqs ← (if filter_on then
                first ← index seqs 0;
                cols ← filter_columns rate_below seqs (seq 0 (length first));
                Ok (np_transpose cols)
              else Ok seqs);
  max_length ← py_max (map String.length ids);
  row0 ← index new_seqs 0;
  Ok (Py.str_of_nat (length ids) +:+ " " +:+ Py.str_of_nat (length row0)
      +:+ Py.str1 Py.nl
      +:+ Py.join EmptyString (zip_with_lines (seq_line max_length) new_seqs ids)).

(** The alignment in the words of a reader: the column at a position,
    the positions that pass the filter, and a sequence cut down to given
    positions. *)
Definition column_of (seqs : list (list ascii)) (i : nat) : list ascii :=
  map (fun s => nth i s " "%char) seqs.

Definition kept (rate_below : nat -> nat -> bool) (seqs : list (list ascii))
    (len : nat) : list nat :=
  List.filter (fun i => rate_below (N_count (column_of seqs i)) (length seqs))
    (seq 0 len).

Definition select (positions : list nat) (s : list ascii) : list ascii :=
  map (fun i => nth i s " "%char) positions.

(** The positions that pass the filter, among those of the first
    sequence. *)
Definition kept_positions (rate_below : nat -> nat -> bool)
    (msa : list (string * list ascii)) : list nat :=
  match map snd msa with
  | [] => []
  | first :: _ => kept rate_below (map snd msa) (length first)
  end.

(** The alignment can be filtered: it has a record, no sequence is
    shorter than the first one, and a position passes the filter. *)
Definition filterable (rate_below : nat -> nat -> bool)
    (msa : list (string * list ascii)) : bool :=
  match map snd msa with
  | [] => false
  | first :: _ =>
      forallb (fun s => (length first <=? length s)%nat) (map snd msa)
      && negb (Nat.eqb (length (kept_positions rate_below msa)) 0)
  end.

(** The text of a sequence file with the given rows. *)
Definition seq_file_text (rows : list (string * list ascii)) (width : nat)
  : string :=
  Py.str_of_nat (length rows) +:+ " " +:+ Py.str_of_nat width +:+ Py.str1 Py.nl
  +:+ Py.join EmptyString
        (map (fun r => seq_line (list_max (map String.length (map fst rows)))
                         (snd r) (fst r)) rows).

(** The records of the alignment with their sequences cut down to the
    positions that pass the filter. *)
Definition filtered (rate_below : nat -> nat -> bool)
    (msa : list (string * list ascii)) : list (string * list ascii) :=
  map (fun r => (fst r, select (kept_positions rate_below msa) (snd r))) msa.

(** A filter that passes a column when less than a fifth of it is
    missing, and an alignment of three records. *)
Definition below_fifth (count total : nat) : bool := (count * 5 <? total)%nat.

Definition msa_example : list (string * list ascii) :=
  [("a", list_ascii_of_string "ACGTN"); ("bb", list_ascii_of_string "ACNTNGG");
   ("ccc", list_ascii_of_string "AC-TN")].

(** An alignment whose second sequence is shorter than the first, and
    one in which no column passes. *)
Definition msa_short : list (string * list ascii) :=
  [("a", list_ascii_of_string "ACGT"); ("b", list_ascii_of_string "AC")].

Definition msa_missing : list (string * list ascii) :=
  [("a", list_ascii_of_string "NN-"); ("b", list_ascii_of_string "A-N")].

(** ** The control file, lines 361 to 366

    [None] for a value makes the concatenation of line 366 raise
    [TypeError]; the lines before it are written by then. *)
Definition concat_none_error : exn :=
  TypeError ("can only concatenate str (not " +:+ Py.str1 "034"%char
             +:+ "NoneType" +:+ Py.str1 "034"%char +:+ ") to str").

Definition ctl_line (max_length : nat) (key value : string) : string :=
  spaces (max_length - String.length key) +:+ key +:+ " = " +:+ value
  +:+ Py.str1 Py.nl.

Fixpoint write_ctl (max_length : nat) (d : list (string * option string))
  : list string * result unit :=
  match d with
  | [] => ([], Ok tt)
  | (key, Some value) :: d' =>
      let '(lines, r) := write_ctl max_length d' in
      (ctl_line max_length key value :: lines, r)
  | (key, None) :: _ => ([], Raise concat_none_error)
  end.

(** [_generate_mcmc_ctl]: the lines written to the control file, the
    outcome, and the warnings logged.  The dictionary is built, with the
    call of [_calculate_mutation_rate] of line 352, before the file is
    opened. *)
Definition _generate_mcmc_ctl (p : paths) (a : arguments)
    (auto_calibration : option string)
  : list string * result unit * list string :=
  let '(d, log) := ctl_parameters p a auto_calibration in
  match _calculate_mutation_rate a with
  | Ok _ =>
      match py_max (map (fun kv => String.length (fst kv)) d) with
      | Ok max_length => (write_ctl max_length d, log)
      | Raise e => (([], Raise e), log)
      | Timeout => (([], Timeout), log)
      end
  | Raise e => (([], Raise e), log)
  | Timeout => (([], Timeout), log)
  end.

(** ** [run_mcmc], lines 403 to 423

    What [run_mcmc] has written when it starts the estimator: the text of
    the tree file and of the sequence file, the lines of the control file
    with the dictionary they come from, and the warnings logged. *)
Record prepared : Type := mkPrepared {
  tree_text : string;
  seq_text : string;
  ctl_text : list string;
  parameters : list (string * option string);
  warnings : list string
}.

(** [sys.exit()] is the exception [SystemExit]. *)
Definition run_mcmc (isfile : string -> option string)
    (prior_calibration : string -> option (string * string))
    (p : paths) (a : arguments) : result prepared :=
  if negb (arg_auto a || truthy (arg_calibration a)) then Raise SystemExit
  else
    let '(auto_calibration, log1) :=
      if arg_auto a then _get_root_age prior_calibration (arg_tree a)
      else (None, []) in
    '(text, auto_calibration) ←
      (match arg_calibration a with
       | Some c =>
           if negb (Py.is_empty c)
           then _haplogroup_calibration isfile c (arg_tree a)
           else '(_, text) ← _read_tree_file (arg_tree a); Ok (text, auto_calibration)
       | None => '(_, text) ← _read_tree_file (arg_tree a); Ok (text, auto_calibration)
       end);
    seq_file ← _clean_alignment (arg_filter a) (arg_rate_below a) (arg_seq a);
    let '(lines, outcome, log2) := _generate_mcmc_ctl p a auto_calibration in
    _ ← outcome;
    Ok (mkPrepared text seq_file lines
          (fst (ctl_parameters p a auto_calibration)) (log1 ++ log2)).

(** A run with [--auto] and the calibration [R:100-200] on the tree
    [(((a))N,b)R;] with the alignment [msa_example], the rate 0.01 and
    the filter above. *)
Definition args_example : arguments :=
  mkArgs msa_example tree_named_unary (Some "R:100-200") true "hky85"
    false "100.0" true below_fifth None.

(** The names of the substitution models that [_get_model] knows. *)
Definition model_names : list string :=
  ["jc96"; "k80"; "f81"; "f84"; "hky85"; "gtr"].

(** The block has no record at position [j], or one with fewer than six
    fields. *)
Definition bad_record (time_info : list string) (j : nat) : bool :=
  match time_info !! j with
  | None => true
  | Some line => (length (fields line) <? 6)%nat
  end.

(** An output of the estimator cut after its first record. *)
Definition out_cut : list string :=
  [EmptyString;
   "t_n5   15.1234 (12.3456, 23.4567) (12.0000, 23.0000) 11.0000 (Jnode  6)";
   "mu     0.5000 ( 0.1000,  0.9000) ( 0.1000,  0.9000)  0.8000";
   EmptyString;
   "Time used:  0:10"].

(** No node of the tree other than its root has exactly one child. *)
Definition no_unary_below (t : tree) : bool :=
  forallb (fun u => negb (Nat.eqb (length (kids_of u)) 1)) (tail (preorder t)).

(** ** One turn of a pruning loop

    What a turn of the loop of [_read_tree_file] or of the second loop of
    [_haplogroup_calibration] on the node [n] does to the tree of [h].  A
    node leaves the tree only when [n] has one child and no name, and it
    is then [n], or the parent of [n] when that parent has no other child
    and is not the root.  When [n] has one child and no name, [n] leaves
    the tree; its parent leaves it too when it has no other child and is
    not the root, whatever its name, and otherwise stays and gets the
    child of [n] as its last child. *)
Definition turn (h : heap) (n : nat) (h' : heap) : Prop :=
  (forall x, in_tree h x = true -> in_tree h' x = false ->
     unnamed_unary h n
     /\ (x = n
         \/ (up (h !!! n) = Some x /\ length (children (h !!! x)) = 1
             /\ x <> root)))
  /\ (unnamed_unary h n ->
      in_tree h' n = false
      /\ forall p, up (h !!! n) = Some p ->
           if Nat.eqb (length (children (h !!! p))) 1 && negb (Nat.eqb p root)
           then in_tree h' p = false
           else in_tree h' p = true
                /\ children (h' !!! p)
                   = filter (fun y => y <> n) (children (h !!! p))
                     ++ children (h !!! n)).

(** The tree [((a,b)R,c)R;], in which a node below the root bears the
    name of the root. *)
Definition tree_RR : tree :=
  Node "R" [Node "R" [Node "a" []; Node "b" []]; Node "c" []].

(** No constraint was applied to the node [x]: after the first loop it
    bears the name it has in the input tree, which is not a prior. *)
Definition unconstrained (t : tree) (st : cal_state) (x : nat) : Prop :=
  name (cal_tree st !!! x) = name (load t !!! x)
  /\ ~ prior_like (name (load t !!! x)).

(** The tree [((a)N,b);]: a named node with one child beside a leaf. *)
Definition tree_N_unary : tree :=
  Node "" [Node "N" [Node "a" []]; Node "b" []].

(** * Properties *)

(** ** The sample count of the control file *)

Lemma ctl_get_nsample p a auto :
  ctl_get "nsample" (fst (ctl_parameters p a auto))
  = Some (Some (Py.str_of_Z (fst (choose_mcmc (arg_mcmc a))))).
Proof.
  unfold ctl_parameters. destruct (choose_mcmc (arg_mcmc a)) as [m lg].
  reflexivity.
Qed.

Lemma ctl_log p a auto :
  snd (ctl_parameters p a auto) = snd (choose_mcmc (arg_mcmc a)).
Proof.
  unfold ctl_parameters. destruct (choose_mcmc (arg_mcmc a)) as [m lg].
  reflexivity.
Qed.

(** C8, as stated, fails: the value 0 is below the threshold and is
    replaced by the default, but no warning is logged, because line 326
    takes 0 for an option that was not given. *)
Lemma C8_zero_logs_no_warning : ~ honours_threshold 0.
Proof.
  unfold honours_threshold. cbn. intros [_ H]. exact H.
Qed.

(** C8, amended: [nsample] is the value of [--mcmc] when that is greater
    than 1000; it is 10000 otherwise, with the warning logged when the
    value is not zero and without any warning when the value is zero or
    the option is absent. *)
Theorem C8_nsample p a auto :
  ctl_get "nsample" (fst (ctl_parameters p a auto))
  = Some (Some (Py.str_of_Z
       match arg_mcmc a with
       | Some v => if (mcmc_threshold <=? v)%Z then v else 10000%Z
       | None => 10000%Z
       end))
  /\ snd (ctl_parameters p a auto)
     = match arg_mcmc a with
       | Some v =>
           if (mcmc_threshold <=? v)%Z then []
           else if (v =? 0)%Z then [] else [mcmc_warning]
       | None => []
       end.
Proof.
  rewrite ctl_get_nsample, ctl_log. unfold choose_mcmc, mcmc_threshold.
  destruct (arg_mcmc a) as [v|]; [|done].
  destruct (Z.leb_spec 1001 v), (Z.ltb_spec 1000 v), (Z.eqb_spec v 0);
    cbn; try lia; done.
Qed.

(** ** Updates of the store *)

Section Updates.
Context (h : heap) (n : nat).

Lemma name_set_name s x :
  name (Ete.set_name h n s !!! x) = if decide (x = n) then s else name (h !!! x).
Proof.
  unfold Ete.set_name. case_decide; subst.
  - by rewrite lookup_total_insert_eq.
  - by rewrite lookup_total_insert_ne.
Qed.

Lemma children_set_name s x :
  children (Ete.set_name h n s !!! x) = children (h !!! x).
Proof.
  unfold Ete.set_name. destruct (decide (x = n)); subst.
  - by rewrite lookup_total_insert_eq.
  - by rewrite lookup_total_insert_ne.
Qed.

Lemma up_set_name s x : up (Ete.set_name h n s !!! x) = up (h !!! x).
Proof.
  unfold Ete.set_name. destruct (decide (x = n)); subst.
  - by rewrite lookup_total_insert_eq.
  - by rewrite lookup_total_insert_ne.
Qed.

Lemma name_set_children cs x :
  name (Ete.set_children h n cs !!! x) = name (h !!! x).
Proof.
  unfold Ete.set_children. destruct (decide (x = n)); subst.
  - by rewrite lookup_total_insert_eq.
  - by rewrite lookup_total_insert_ne.
Qed.

Lemma children_set_children cs x :
  children (Ete.set_children h n cs !!! x)
  = if decide (x = n) then cs else children (h !!! x).
Proof.
  unfold Ete.set_children. case_decide; subst.
  - by rewrite lookup_total_insert_eq.
  - by rewrite lookup_total_insert_ne.
Qed.

Lemma up_set_children cs x :
  up (Ete.set_children h n cs !!! x) = up (h !!! x).
Proof.
  unfold Ete.set_children. destruct (decide (x = n)); subst.
  - by rewrite lookup_total_insert_eq.
  - by rewrite lookup_total_insert_ne.
Qed.

Lemma name_set_up u x : name (Ete.set_up h n u !!! x) = name (h !!! x).
Proof.
  unfold Ete.set_up. destruct (decide (x = n)); subst.
  - by rewrite lookup_total_insert_eq.
  - by rewrite lookup_total_insert_ne.
Qed.

Lemma children_set_up u x :
  children (Ete.set_up h n u !!! x) = children (h !!! x).
Proof.
  unfold Ete.set_up. destruct (decide (x = n)); subst.
  - by rewrite lookup_total_insert_eq.
  - by rewrite lookup_total_insert_ne.
Qed.

Lemma up_set_up u x :
  up (Ete.set_up h n u !!! x) = if decide (x = n) then u else up (h !!! x).
Proof.
  unfold Ete.set_up. case_decide; subst.
  - by rewrite lookup_total_insert_eq.
  - by rewrite lookup_total_insert_ne.
Qed.

Lemma dom_set_name s : dom (Ete.set_name h n s) = {[n]} ∪ dom h.
Proof. unfold Ete.set_name. by rewrite dom_insert_L. Qed.

Lemma dom_set_children cs : dom (Ete.set_children h n cs) = {[n]} ∪ dom h.
Proof. unfold Ete.set_children. by rewrite dom_insert_L. Qed.

Lemma dom_set_up u : dom (Ete.set_up h n u) = {[n]} ∪ dom h.
Proof. unfold Ete.set_up. by rewrite dom_insert_L. Qed.

End Updates.

#[global] Hint Rewrite name_set_name children_set_name up_set_name
  name_set_children children_set_children up_set_children
  name_set_up children_set_up up_set_up
  dom_set_name dom_set_children dom_set_up : store.

Lemma is_leaf_children h n : Ete.is_leaf h n = true <-> children (h !!! n) = [].
Proof.
  unfold Ete.is_leaf. destruct (children (h !!! n)); cbn; split; congruence.
Qed.

(** ** [delete] on a tree *)

Lemma add_child_spec h p c :
  (forall x, name (Ete.add_child h p c !!! x) = name (h !!! x))
  /\ (forall x, children (Ete.add_child h p c !!! x)
               = if decide (x = p) then children (h !!! p) ++ [c]
                 else children (h !!! x))
  /\ (forall x, up (Ete.add_child h p c !!! x)
               = if decide (x = c) then Some p else up (h !!! x))
  /\ dom h ⊆ dom (Ete.add_child h p c).
Proof.
  unfold Ete.add_child. repeat apply conj; intros; autorewrite with store;
    try done. set_solver.
Qed.

Lemma foldl_add_child p cs : forall h,
  let h1 := foldl (fun h ch => Ete.add_child h p ch) h cs in
  (forall x, name (h1 !!! x) = name (h !!! x))
  /\ (forall x, children (h1 !!! x)
               = if decide (x = p) then children (h !!! p) ++ cs
                 else children (h !!! x))
  /\ (forall x, up (h1 !!! x)
               = if decide (x ∈ cs) then Some p else up (h !!! x))
  /\ dom h ⊆ dom h1.
Proof.
  induction cs as [|c cs IH]; intros h; cbn.
  - split; [done|]. split; [|split; [|done]]; intros x.
    + case_decide; subst; by rewrite ?app_nil_r.
    + case_decide as Hx; [by apply elem_of_nil in Hx|done].
  - destruct (IH (Ete.add_child h p c)) as (Hn & Hc & Hu & Hd).
    destruct (add_child_spec h p c) as (Hn1 & Hc1 & Hu1 & Hd1).
    split; [|split; [|split]]; try intros x.
    + by rewrite Hn, Hn1.
    + rewrite Hc, !Hc1. destruct (decide (x = p)); [|done].
      rewrite decide_True by done. by rewrite <- app_assoc.
    + rewrite Hu, Hu1.
      clear. destruct (decide (x ∈ cs)), (decide (x = c)), (decide (x ∈ c :: cs));
        try done; set_solver.
    + clear -Hd Hd1. set_solver.
Qed.

Lemma filter_all {A} (P : A -> Prop) `{forall x, Decision (P x)} (l : list A) :
  (forall x, x ∈ l -> P x) -> filter P l = l.
Proof.
  induction l as [|y l IH]; intros Hall; [done|].
  rewrite filter_cons_True by (apply Hall; left).
  f_equal. apply IH. intros x Hx. apply Hall. by right.
Qed.

Lemma list_remove_nodup n l :
  n ∈ l -> NoDup l -> Ete.list_remove n l = Some (filter (fun y => y <> n) l).
Proof.
  induction l as [|y l IH]; intros Hin Hnd; [by apply elem_of_nil in Hin|].
  apply NoDup_cons in Hnd as [Hy Hnd]. cbn [Ete.list_remove].
  destruct (Nat.eqb_spec y n) as [->|Hne].
  - rewrite filter_cons_False by tauto.
    f_equal. symmetry. apply filter_all.
    intros z Hz ->. done.
  - rewrite filter_cons_True by done.
    apply elem_of_cons in Hin as [->|Hin]; [done|].
    by rewrite IH.
Qed.

Lemma detach_spliced h A n :
  attached h A -> n ∈ A -> n <> root ->
  exists p h', up (h !!! n) = Some p /\ p ∈ A /\ n ∈ children (h !!! p)
    /\ Ete.detach h n = Ok (h', Some p) /\ spliced h n p h'.
Proof.
  intros Hw Hn Hroot.
  destruct (att_parent _ _ Hw n Hn Hroot) as (p & Hp & Hup & Hin).
  exists p. unfold Ete.detach. rewrite Hup.
  destruct (foldl_add_child p (children (h !!! n)) h) as (Hn1 & Hc1 & Hu1 & Hd1).
  set (h1 := foldl _ h _) in *.
  assert (Hpn : p <> n).
  { destruct (att_kids _ _ Hw p n Hp Hin) as (_ & _ & ?). lia. }
  assert (Hnk : n ∉ children (h !!! n)).
  { intros Hc. destruct (att_kids _ _ Hw n n Hn Hc) as (_ & _ & ?). lia. }
  assert (Hnd : NoDup (children (h !!! p) ++ children (h !!! n))).
  { apply NoDup_app. split; [by eapply att_nodup|].
    split; [|by eapply att_nodup].
    intros x Hx1 Hx2.
    destruct (att_kids _ _ Hw p x Hp Hx1) as (_ & Hu & _).
    destruct (att_kids _ _ Hw n x Hn Hx2) as (_ & Hu' & _). congruence. }
  unfold Ete.remove_child. rewrite Hc1, decide_True by done.
  rewrite list_remove_nodup; [|set_solver|done].
  eexists. split; [done|]. split; [done|]. split; [done|]. split; [done|].
  rewrite filter_app, (filter_all _ (children (h !!! n)))
    by (intros x Hx ->; done).
  constructor; intros; autorewrite with store.
  - apply Hn1.
  - case_decide; [done|]. rewrite Hc1. by rewrite decide_False.
  - case_decide; [done|]. apply Hu1.
  - set_solver.
Qed.

Lemma elem_of_remove (A : gset nat) x n : x ∈ A -> x <> n -> x ∈ A ∖ {[n]}.
Proof. intros. apply elem_of_difference. by rewrite not_elem_of_singleton. Qed.

Lemma spliced_attached h A n p h' :
  attached h A -> n ∈ A -> n <> root ->
  up (h !!! n) = Some p -> p ∈ A -> n ∈ children (h !!! p) ->
  spliced h n p h' -> attached h' (A ∖ {[n]}).
Proof.
  intros Hw Hn Hroot Hup Hp Hin [Hnm Hch Hu Hd].
  assert (Hpn : p < n).
  { destruct (att_kids _ _ Hw p n Hp Hin) as (_ & _ & ?). lia. }
  assert (Hkid : forall c, c ∈ children (h !!! n) ->
                 c ∈ A /\ up (h !!! c) = Some n /\ n < c).
  { intros c Hc. by apply (att_kids _ _ Hw). }
  constructor.
  - apply elem_of_remove; [by apply (att_root h A)|done].
  - rewrite Hu. rewrite decide_False by done.
    case_decide as Hc; [|by apply (att_root_up h A)].
    apply Hkid in Hc as (_ & Hc & _). pose proof (att_root_up h A Hw). congruence.
  - intros q c Hq Hc. apply elem_of_difference in Hq as [Hq Hqn].
    rewrite not_elem_of_singleton in Hqn.
    rewrite Hch in Hc. rewrite Hu. case_decide as Hqp.
    + subst q. apply elem_of_app in Hc as [Hc|Hc].
      * apply list_elem_of_filter in Hc as [Hcn Hc].
        destruct (att_kids _ _ Hw p c Hp Hc) as (HcA & Hcu & Hlt).
        rewrite decide_False by done.
        rewrite decide_False.
        2:{ intros Hc'. apply Hkid in Hc' as (_ & ? & _). congruence. }
        split; [by apply elem_of_remove|done].
      * destruct (Hkid c Hc) as (HcA & Hcu & Hlt).
        rewrite decide_False by lia. rewrite decide_True by done.
        split; [|split; [done|lia]].
        apply elem_of_remove; [done|lia].
    + destruct (att_kids _ _ Hw q c Hq Hc) as (HcA & Hcu & Hlt).
      assert (c <> n) by congruence.
      rewrite decide_False by done.
      rewrite decide_False.
      2:{ intros Hc'. apply Hkid in Hc' as (_ & ? & _). congruence. }
      split; [by apply elem_of_remove|done].
  - intros c Hc Hcr. apply elem_of_difference in Hc as [Hc Hcn].
    rewrite not_elem_of_singleton in Hcn.
    destruct (att_parent _ _ Hw c Hc Hcr) as (q & Hq & Hcu & Hcq).
    rewrite Hu, decide_False by done. case_decide as Hck.
    + exists p. split; [apply elem_of_remove; [done|lia]|]. split; [done|].
      rewrite Hch, decide_True by done. apply elem_of_app. by right.
    + assert (q <> n).
      { intros ->. done. }
      exists q. split; [by apply elem_of_remove|]. split; [done|].
      rewrite Hch. case_decide; [|done]. subst q.
      apply elem_of_app. left. by apply list_elem_of_filter.
  - intros q Hq. apply elem_of_difference in Hq as [Hq Hqn].
    rewrite Hch. case_decide; [|by eapply att_nodup]. subst q.
    apply NoDup_app. split; [apply NoDup_filter; by eapply att_nodup|].
    split; [|by eapply att_nodup].
    intros x Hx1 Hx2. apply list_elem_of_filter in Hx1 as [_ Hx1].
    destruct (att_kids _ _ Hw p x Hp Hx1) as (_ & Hxu & _).
    apply Hkid in Hx2 as (_ & ? & _). assert (p = n) by congruence. lia.
  - pose proof (att_dom h A Hw) as Hdom. clear -Hdom Hd. set_solver.
Qed.

Lemma length_filter_ne n (l : list nat) :
  n ∈ l -> NoDup l -> S (length (filter (fun y => y <> n) l)) = length l.
Proof.
  induction l as [|y l IH]; intros Hin Hnd; [by apply elem_of_nil in Hin|].
  apply NoDup_cons in Hnd as [Hy Hnd].
  destruct (decide (y = n)) as [->|Hne].
  - rewrite filter_cons_False by tauto.
    rewrite filter_all by (intros z Hz ->; done). done.
  - rewrite filter_cons_True by done. cbn. f_equal. apply IH; [|done].
    apply elem_of_cons in Hin as [->|Hin]; done.
Qed.

Lemma spliced_step h A n p h' :
  attached h A -> n ∈ A -> n <> root ->
  up (h !!! n) = Some p -> p ∈ A -> n ∈ children (h !!! p) ->
  length (children (h !!! n)) = 1 ->
  spliced h n p h' -> step_ok h A n h' (A ∖ {[n]}).
Proof.
  intros Hw Hn Hroot Hup Hp Hin Hlen Hs.
  pose proof (spliced_attached _ _ _ _ _ Hw Hn Hroot Hup Hp Hin Hs) as Hw'.
  destruct Hs as [Hnm Hch Hu Hd].
  assert (Hpn : p < n).
  { destruct (att_kids _ _ Hw p n Hp Hin) as (_ & _ & ?). lia. }
  constructor; try done.
  - apply subseteq_difference_l. done.
  - intros x Hx Hx'. destruct (decide (x = n)) as [->|Hne]; [by auto|].
    exfalso. apply Hx'. by apply elem_of_remove.
  - intros x. rewrite Hch. case_decide; [|done]. subst x.
    rewrite length_app, Hlen.
    pose proof (length_filter_ne n _ Hin (att_nodup _ _ Hw p Hp)). lia.
  - rewrite Hch. rewrite decide_False by lia. done.
  - intros x Hx. destruct (att_kids _ _ Hw n x Hn Hx) as (HxA & Hxu & Hlt).
    split; [apply elem_of_remove; [done|lia]|].
    exists p. rewrite Hu, decide_False by lia. rewrite decide_True by done.
    split; [done|]. right. by left.
  - intros x Hx Hx'. apply elem_of_difference in Hx as [Hx Hxn].
    rewrite not_elem_of_singleton in Hxn.
    rewrite Hu, decide_False by done. by rewrite decide_False.
Qed.

Lemma unary_parent h A n p :
  attached h A -> p ∈ A -> n ∈ children (h !!! p) ->
  length (children (h !!! p)) < 2 -> children (h !!! p) = [n].
Proof.
  intros Hw Hp Hin Hlen.
  destruct (children (h !!! p)) as [|a [|b l]]; cbn in Hlen; try lia.
  - by apply elem_of_nil in Hin.
  - apply list_elem_of_singleton in Hin. by subst.
Qed.

(** [node.delete()] on a node with one child that is in the tree and is not
    the root. *)
Lemma delete_step h A n :
  attached h A -> n ∈ A -> n <> root -> length (children (h !!! n)) = 1 ->
  exists h' A', Ete.delete h n true = Ok h' /\ step_ok h A n h' A' /\ (n ∉ A')
    /\ forall x, name (h' !!! x) = name (h !!! x).
Proof.
  intros Hw Hn Hroot Hlen.
  destruct (detach_spliced h A n Hw Hn Hroot) as (p & h1 & Hup & Hp & Hin & Hd & Hs).
  pose proof (spliced_attached _ _ _ _ _ Hw Hn Hroot Hup Hp Hin Hs) as Hw1.
  pose proof (spliced_step _ _ _ _ _ Hw Hn Hroot Hup Hp Hin Hlen Hs) as Hst1.
  assert (Hpn : p < n).
  { destruct (att_kids _ _ Hw p n Hp Hin) as (_ & _ & ?). lia. }
  assert (Hp1 : p ∈ A ∖ {[n]}) by (apply elem_of_remove; [done|lia]).
  unfold Ete.delete. rewrite Hd. cbn.
  destruct (Nat.leb_spec (length (children (h1 !!! p))) 1) as [Hlt|Hge].
  2:{ exists h1, (A ∖ {[n]}). split; [done|]. split; [done|].
      split; [|apply (spl_name _ _ _ _ Hs)].
      rewrite elem_of_difference, not_elem_of_singleton. tauto. }
  rewrite (so_len _ _ _ _ _ Hst1) in Hlt.
  pose proof (unary_parent h A n p Hw Hp Hin ltac:(lia)) as Hkp.
  assert (Hk1 : children (h1 !!! p) = children (h !!! n)).
  { rewrite (spl_children _ _ _ _ Hs), decide_True by done. rewrite Hkp.
    rewrite filter_cons_False by tauto. done. }
  destruct (decide (p = root)) as [->|Hproot].
  { unfold Ete.detach. rewrite (att_root_up _ _ Hw1). cbn.
    exists h1, (A ∖ {[n]}). split; [done|]. split; [done|].
    split; [|apply (spl_name _ _ _ _ Hs)].
    rewrite elem_of_difference, not_elem_of_singleton. tauto. }
  destruct (detach_spliced h1 _ p Hw1 Hp1 Hproot)
    as (g & h2 & Hup2 & Hg & Hin2 & Hd2 & Hs2).
  assert (Hlen1 : length (children (h1 !!! p)) = 1) by (by rewrite Hk1).
  pose proof (spliced_step _ _ _ _ _ Hw1 Hp1 Hproot Hup2 Hg Hin2 Hlen1 Hs2) as Hst2.
  rewrite Hd2. cbn. exists h2, (A ∖ {[n]} ∖ {[p]}). split; [done|].
  assert (Hgp : g < p).
  { destruct (att_kids _ _ Hw1 g p Hg Hin2) as (_ & _ & ?). lia. }
  assert (Hupp : up (h !!! p) = Some g).
  { rewrite <- Hup2. symmetry. apply (so_other _ _ _ _ _ Hst1); [done|].
    intros Hc. destruct (att_kids _ _ Hw n p Hn Hc) as (_ & _ & ?). lia. }
  split; [|split].
  - constructor.
    + apply (so_att _ _ _ _ _ Hst2).
    + etrans; [apply (so_sub _ _ _ _ _ Hst2)|apply (so_sub _ _ _ _ _ Hst1)].
    + intros x Hx Hx'. destruct (decide (x = n)) as [->|Hxn]; [by auto|].
      destruct (decide (x = p)) as [->|Hxp].
      * split; [done|]. rewrite Hkp. by auto.
      * exfalso. apply Hx'. by do 2 (apply elem_of_remove; [|done]).
    + intros x. rewrite (so_len _ _ _ _ _ Hst2). apply (so_len _ _ _ _ _ Hst1).
    + rewrite (spl_children _ _ _ _ Hs2), decide_False by lia.
      apply (so_self _ _ _ _ _ Hst1).
    + intros x Hx. rewrite <- Hk1 in Hx.
      destruct (so_kids _ _ _ _ _ Hst2 x Hx) as (HxA & _). split; [done|].
      exists g. split.
      * rewrite (spl_up _ _ _ _ Hs2). rewrite decide_False.
        2:{ intros ->. apply elem_of_difference in HxA as [_ HxA].
            by apply HxA, elem_of_singleton. }
        by rewrite decide_True.
      * right. right. by exists p.
    + intros x Hx Hx'. rewrite <- Hk1 in Hx'.
      rewrite (so_other _ _ _ _ _ Hst2 x Hx Hx').
      apply (so_other _ _ _ _ _ Hst1).
      * apply elem_of_difference in Hx as [Hx _]. done.
      * by rewrite <- Hk1.
    + intros x Hx. rewrite (spl_name _ _ _ _ Hs2). apply (spl_name _ _ _ _ Hs).
  - rewrite !elem_of_difference, not_elem_of_singleton. tauto.
  - intros x. rewrite (spl_name _ _ _ _ Hs2). apply (spl_name _ _ _ _ Hs).
Qed.

(** ** The traversal loops *)

Lemma elem_of_push s (k r : list nat) x :
  x ∈ Ete.push s k r <-> x ∈ k \/ x ∈ r.
Proof. destruct s; cbn; rewrite elem_of_app; tauto. Qed.

Lemma NoDup_push s (k r : list nat) :
  NoDup k -> NoDup r -> (forall x, x ∈ k -> x ∉ r) -> NoDup (Ete.push s k r).
Proof.
  intros Hk Hr Hd. destruct s; cbn; apply NoDup_app; repeat split; try done.
  intros x Hx Hx'. by apply (Hd x).
Qed.

Lemma step_ok_id h A n : attached h A -> n ∈ A -> step_ok h A n h A.
Proof.
  intros Hw Hn. constructor; try done.
  intros x Hx. destruct (att_kids _ _ Hw n x Hn Hx) as (HxA & Hxu & _).
  split; [done|]. exists n. by auto.
Qed.

Lemma attached_all_visited h A V :
  attached h A -> linked h A V [] -> root ∈ V -> A ⊆ V.
Proof.
  intros Hw Hl Hr x. induction (lt_wf x) as [x _ IH]. intros Hx.
  destruct (decide (x = root)) as [->|Hne]; [done|].
  destruct (att_parent _ _ Hw x Hx Hne) as (q & Hq & Hu & Hin).
  destruct (att_kids _ _ Hw q x Hq Hin) as (_ & _ & Hlt).
  apply (Hl x q Hx Hne Hu) in IH; [|done..].
  destruct IH as [?|IH]; [done|]. by apply elem_of_nil in IH.
Qed.

Lemma visit_linked h A V n rest h' A' s :
  attached h A -> NoDup (n :: rest) ->
  (forall w, w ∈ n :: rest -> w ∈ A /\ w ∉ V) ->
  linked h A V (n :: rest) ->
  step_ok h A n h' A' ->
  let W' := Ete.push s (children (h' !!! n)) rest in
  NoDup W' /\ (forall w, w ∈ W' -> w ∈ A' /\ w ∉ V ∪ {[n]})
  /\ linked h' A' (V ∪ {[n]}) W'.
Proof.
  intros Hw Hnd HW Hl Hst W'. subst W'. rewrite (so_self _ _ _ _ _ Hst).
  apply NoDup_cons in Hnd as [Hnr Hnd].
  destruct (HW n) as [Hn HnV]; [by left|].
  assert (Hkid : forall x, x ∈ children (h !!! n) ->
                 x ∈ A /\ x <> root /\ up (h !!! x) = Some n /\ n < x
                 /\ (x ∉ V) /\ (x ∉ rest)).
  { intros x Hx. destruct (att_kids _ _ Hw n x Hn Hx) as (HxA & Hxu & Hlt).
    assert (x <> root) by (unfold root; lia).
    repeat split; try done.
    - intros HxV. apply HnV. apply (Hl x n); auto.
    - intros Hxr. apply HnV. apply (Hl x n); auto. right. by right. }
  assert (Hpar : forall p, n <> root -> up (h !!! n) = Some p -> p ∈ V).
  { intros p Hnr' Hup. apply (Hl n p); auto. right. by left. }
  split; [|split].
  - apply NoDup_push; [by apply (att_nodup h A)|done|].
    intros x Hx. by apply Hkid.
  - intros w Hw'. apply elem_of_push in Hw' as [Hw'|Hw'].
    + split; [by apply (so_kids _ _ _ _ _ Hst)|].
      apply Hkid in Hw' as (_ & _ & _ & Hlt & HwV & _).
      rewrite elem_of_union, elem_of_singleton. intros [?|?]; [done|lia].
    + destruct (HW w) as [HwA HwV]; [by right|].
      assert (w <> n) by (intros ->; done).
      split.
      * destruct (decide (w ∈ A')) as [|Hout]; [done|exfalso].
        destruct (so_removed _ _ _ _ _ Hst w HwA Hout) as (_ & _ & [?|Hup]);
          [done|].
        apply HwV, Hpar; [|done]. intros ->.
        by rewrite (att_root_up _ _ Hw) in Hup.
      * rewrite elem_of_union, elem_of_singleton. tauto.
  - intros x q Hx Hxr Hu.
    pose proof (so_sub _ _ _ _ _ Hst x Hx) as HxA.
    rewrite elem_of_push, !elem_of_union, !elem_of_singleton.
    destruct (decide (x ∈ children (h !!! n))) as [Hk|Hk].
    + split; [intros _|by auto].
      destruct (so_kids _ _ _ _ _ Hst x Hk) as (_ & q' & Hu' & Hq').
      assert (q' = q) by congruence. subst q'.
      destruct Hq' as [->|[Hq'|(p & Hp & Hq')]]; [by auto|left..].
      * apply Hpar; [|done]. intros ->. by rewrite (att_root_up _ _ Hw) in Hq'.
      * assert (Hnr' : n <> root).
        { intros ->. by rewrite (att_root_up _ _ Hw) in Hp. }
        pose proof (Hpar p Hnr' Hp) as HpV.
        destruct (att_parent _ _ Hw n Hn Hnr') as (p' & Hp'A & Hp'u & _).
        assert (p' = p) by congruence. subst p'.
        apply (Hl p q); auto.
        intros ->. by rewrite (att_root_up _ _ Hw) in Hq'.
    + rewrite (so_other _ _ _ _ _ Hst x Hx Hk) in Hu.
      destruct (decide (x = n)) as [->|Hxn].
      * split; [intros _|by auto]. left. by apply Hpar.
      * assert (q <> n).
        { intros ->. destruct (att_parent _ _ Hw x HxA Hxr) as (p' & _ & Hp'u & Hin).
          assert (p' = n) by congruence. subst p'. done. }
        pose proof (Hl x q HxA Hxr Hu) as Hiff.
        rewrite elem_of_cons in Hiff. tauto.
Qed.

Lemma size_unvisited (A A' V : gset nat) n :
  n ∈ A -> n ∉ V -> A' ⊆ A -> S (size (A' ∖ (V ∪ {[n]}))) <= size (A ∖ V).
Proof.
  intros Hn HnV Hsub.
  assert (Hs : A' ∖ (V ∪ {[n]}) ⊆ (A ∖ V) ∖ {[n]}) by (clear -Hsub; set_solver).
  apply subseteq_size in Hs.
  assert (Hn' : {[n]} ⊆ A ∖ V) by (clear -Hn HnV; set_solver).
  rewrite (size_difference _ _ Hn'), size_singleton in Hs.
  assert (0 < size (A ∖ V)).
  { apply subseteq_size in Hn'. rewrite size_singleton in Hn'. lia. }
  lia.
Qed.

Section Loop.
Context {S : Type} (s : Ete.strategy) (skip : bool).
Context (body : nat -> heap * S -> result (heap * S)).
Context (P : heap -> gset nat -> gset nat -> S -> Prop).

Hypothesis body_ok : forall h A V st n,
  attached h A -> P h A V st -> n ∈ A -> n ∉ V ->
  (skip && Nat.eqb n root = false) ->
  exists h' A' st', body n (h, st) = Ok (h', st') /\ step_ok h A n h' A'
    /\ P h' A' (V ∪ {[n]}) st'.

Hypothesis root_ok : forall h A V st,
  skip = true -> P h A V st -> P h A (V ∪ {[root]}) st.

(** The loop ends within its budget, with every node of the final tree
    visited. *)
Lemma for_traverse_ok : forall fuel W h A V st,
  attached h A -> NoDup W -> (forall w, w ∈ W -> w ∈ A /\ w ∉ V) ->
  linked h A V W -> (root ∈ V \/ root ∈ W) -> P h A V st ->
  size (A ∖ V) <= fuel ->
  exists h' A' V' st',
    Ete.for_traverse fuel s skip body root W (h, st) = Ok (h', st')
    /\ attached h' A' /\ A' ⊆ V' /\ P h' A' V' st'.
Proof.
  induction fuel as [|fuel IH]; intros W h A V st Hw Hnd HW Hl Hr HP Hf.
  - destruct W as [|n rest].
    + exists h, A, V, st. split; [done|]. split; [done|]. split; [|done].
      destruct Hr as [Hr|Hr]; [|by apply elem_of_nil in Hr].
      by apply (attached_all_visited h).
    + exfalso. destruct (HW n) as [Hn HnV]; [by left|].
      pose proof (size_unvisited A A V n Hn HnV ltac:(done)). lia.
  - destruct W as [|n rest].
    + exists h, A, V, st. split; [done|]. split; [done|]. split; [|done].
      destruct Hr as [Hr|Hr]; [|by apply elem_of_nil in Hr].
      by apply (attached_all_visited h).
    + destruct (HW n) as [Hn HnV]; [by left|].
      assert (Hstep : exists h' A' st',
        (if skip && Nat.eqb n root then Ok (h, st) else body n (h, st))
        = Ok (h', st') /\ step_ok h A n h' A' /\ P h' A' (V ∪ {[n]}) st').
      { destruct (skip && Nat.eqb n root) eqn:Hsk.
        - apply andb_true_iff in Hsk as [-> Hsk].
          apply Nat.eqb_eq in Hsk. subst n.
          exists h, A, st. split; [done|]. split; [by apply step_ok_id|].
          by apply root_ok.
        - by apply body_ok. }
      destruct Hstep as (h' & A' & st' & Hb & Hst & HP').
      destruct (visit_linked h A V n rest h' A' s Hw Hnd HW Hl Hst)
        as (Hnd' & HW' & Hl').
      cbn [Ete.for_traverse]. rewrite Hb. cbn.
      apply (IH _ h' A' (V ∪ {[n]}) st'); try done.
      * apply (so_att _ _ _ _ _ Hst).
      * rewrite elem_of_union, elem_of_singleton, elem_of_push.
        destruct Hr as [?|Hr]; [by auto|].
        apply elem_of_cons in Hr as [?|?]; by auto.
      * pose proof (size_unvisited A A' V n Hn HnV (so_sub _ _ _ _ _ Hst)). lia.
Qed.

End Loop.

Lemma for_traverse_start {S} s skip (body : nat -> heap * S -> result (heap * S))
    (P : heap -> gset nat -> gset nat -> S -> Prop) h A st :
  (forall h A V st n,
     attached h A -> P h A V st -> n ∈ A -> n ∉ V ->
     (skip && Nat.eqb n root = false) ->
     exists h' A' st', body n (h, st) = Ok (h', st') /\ step_ok h A n h' A'
       /\ P h' A' (V ∪ {[n]}) st') ->
  (forall h A V st, skip = true -> P h A V st -> P h A (V ∪ {[root]}) st) ->
  attached h A -> P h A ∅ st ->
  exists h' A' V' st',
    Ete.for_traverse (Ete.budget h) s skip body root [root] (h, st) = Ok (h', st')
    /\ attached h' A' /\ A' ⊆ V' /\ P h' A' V' st'.
Proof.
  intros Hbody Hroot Hw HP.
  apply (for_traverse_ok s skip body P Hbody Hroot _ _ h A ∅ st); try done.
  - apply NoDup_singleton.
  - intros w Hw'. apply list_elem_of_singleton in Hw'. subst w.
    split; [apply (att_root h A Hw)|apply not_elem_of_empty].
  - intros x q Hx Hxr Hu. split.
    + intros [Hx'|Hx']; [by apply not_elem_of_empty in Hx'|].
      by apply list_elem_of_singleton in Hx'.
    + intros Hq. by apply not_elem_of_empty in Hq.
  - right. by left.
  - unfold Ete.budget. rewrite difference_empty_L.
    pose proof (subseteq_size _ _ (att_dom h A Hw)) as Hs.
    rewrite size_dom in Hs. lia.
Qed.

(** A traversal of a tree that is not changed meanwhile visits every node
    of the tree once. *)
Lemma traverse_attached s h A :
  attached h A ->
  exists l, Ete.traverse s h root = Ok l /\ NoDup l /\ forall x, x ∈ l <-> x ∈ A.
Proof.
  intros Hw. unfold Ete.traverse.
  destruct (for_traverse_start s false
    (fun n '(h, acc) => Ok (h, acc ++ [n]))
    (fun h' A' V acc => h' = h /\ A' = A /\ NoDup acc /\ V ⊆ A
                        /\ forall x, x ∈ acc <-> x ∈ V) h A [])
    as (h' & A' & V' & acc & Hrun & _ & Hsub & -> & -> & Hnd & HV & Hacc);
    try done.
  - intros h1 A1 V st n Hw1 (-> & -> & Hnd & HV & Hacc) Hn HnV _.
    exists h, A, (st ++ [n]). split; [done|]. split; [by apply step_ok_id|].
    split; [done|]. split; [done|]. split; [|split].
    + apply NoDup_app. split; [done|]. split; [|apply NoDup_singleton].
      intros x Hx Hx'. apply list_elem_of_singleton in Hx'. subst x.
      by apply HnV, Hacc.
    + apply union_subseteq. split; [done|]. by apply singleton_subseteq_l.
    + intros x. rewrite elem_of_app, elem_of_union, elem_of_singleton,
        list_elem_of_singleton. by rewrite Hacc.
  - split; [done|]. split; [done|]. split; [apply NoDup_nil_2|].
    split; [apply empty_subseteq|]. intros x. split.
    + intros Hx. by apply elem_of_nil in Hx.
    + intros Hx. by apply not_elem_of_empty in Hx.
  - exists acc. rewrite Hrun. split; [done|]. split; [done|].
    intros x. rewrite Hacc. split; [apply HV|apply Hsub].
Qed.

(** ** The store of an input tree is a tree *)

Lemma tree_ind2 (P : tree -> Prop) :
  (forall nm ks, Forall P ks -> P (Node nm ks)) -> forall t, P t.
Proof.
  intros HP. fix IH 1. intros [nm ks]. apply HP.
  induction ks as [|k ks IHks]; constructor; [apply IH|apply IHks].
Qed.

Lemma tree_size_eq nm ks : tree_size (Node nm ks) = S (forest_size ks).
Proof. reflexivity. Qed.

Lemma preorder_eq nm ks :
  preorder (Node nm ks) = Node nm ks :: concat (map preorder ks).
Proof.
  cbn [preorder]. f_equal. induction ks as [|k ks IH]; [done|].
  cbn [map concat]. by rewrite <- IH.
Qed.

Lemma load_at_eq parent nm ks next h :
  load_at parent (Node nm ks) next h
  = let '(ids, next', h') := load_forest next ks (S next) h in
    (next', <[next := mkNode nm ids parent]> h').
Proof.
  cbn [load_at].
  assert (Hgo : forall ks nx h,
    (fix go (ks : list tree) (nx : nat) (h : heap) {struct ks}
       : list nat * nat * heap :=
       match ks with
       | [] => ([], nx, h)
       | k :: ks' =>
           let '(n1, h1) := load_at (Some next) k nx h in
           let '(ids, n2, h2) := go ks' n1 h1 in (nx :: ids, n2, h2)
       end) ks nx h = load_forest next ks nx h).
  { clear. induction ks as [|k ks IH]; intros nx h; [done|].
    cbn [load_forest]. destruct (load_at (Some next) k nx h) as [n1 h1].
    by rewrite IH. }
  by rewrite Hgo.
Qed.

Lemma block_frame h h' lo hi tops par :
  block h lo hi tops par ->
  (forall x, lo <= x < hi -> h' !! x = h !! x) ->
  block h' lo hi tops par.
Proof.
  intros [Hd Hk Hn Ht Hi Htn] Heq.
  assert (Heq' : forall x, lo <= x < hi -> h' !!! x = h !!! x).
  { intros x Hx. by rewrite !lookup_total_alt, Heq. }
  assert (Hk' : forall p c, lo <= p < hi -> c ∈ children (h !!! p) -> lo <= c < hi).
  { intros p c Hp Hc. destruct (Hk p c Hp Hc). lia. }
  constructor.
  - intros x Hx. apply elem_of_dom. rewrite Heq by done.
    apply elem_of_dom. by apply Hd.
  - intros p c Hp Hc. rewrite Heq' in Hc by done.
    rewrite (Heq' c) by (by apply (Hk' p)). by apply Hk.
  - intros p Hp. rewrite Heq' by done. by apply Hn.
  - intros c Hc. destruct (Ht c Hc) as [Hr Hu]. by rewrite Heq'.
  - intros c Hc Hnt. destruct (Hi c Hc Hnt) as (q & Hq & Hu & Hin).
    exists q. by rewrite !Heq'.
  - done.
Qed.

Lemma block_app h lo mid hi tops1 tops2 par :
  lo <= mid <= hi ->
  block h lo mid tops1 par -> block h mid hi tops2 par ->
  block h lo hi (tops1 ++ tops2) par.
Proof.
  intros Hm [Hd1 Hk1 Hn1 Ht1 Hi1 Htn1] [Hd2 Hk2 Hn2 Ht2 Hi2 Htn2].
  constructor.
  - intros x Hx. destruct (decide (x < mid)); [apply Hd1|apply Hd2]; lia.
  - intros p c Hp Hc. destruct (decide (p < mid)).
    + destruct (Hk1 p c ltac:(lia) Hc). split; [lia|done].
    + destruct (Hk2 p c ltac:(lia) Hc). split; [lia|done].
  - intros p Hp. destruct (decide (p < mid)); [apply Hn1|apply Hn2]; lia.
  - intros c Hc. apply elem_of_app in Hc as [Hc|Hc].
    + destruct (Ht1 c Hc). split; [lia|done].
    + destruct (Ht2 c Hc). split; [lia|done].
  - intros c Hc Hnt. rewrite elem_of_app in Hnt.
    destruct (decide (c < mid)).
    + destruct (Hi1 c ltac:(lia) ltac:(tauto)) as (q & ? & ? & ?).
      exists q. split; [lia|done].
    + destruct (Hi2 c ltac:(lia) ltac:(tauto)) as (q & ? & ? & ?).
      exists q. split; [lia|done].
  - apply NoDup_app. repeat split; try done.
    intros x Hx1 Hx2. destruct (Ht1 x Hx1), (Ht2 x Hx2). lia.
Qed.

Lemma block_node h lo hi ids nm parent :
  S lo <= hi ->
  block h (S lo) hi ids (Some lo) ->
  block (<[lo := mkNode nm ids parent]> h) lo hi [lo] parent.
Proof.
  intros Hle Hb. set (h' := <[lo := _]> h).
  assert (Hb' : block h' (S lo) hi ids (Some lo)).
  { apply (block_frame h); [done|]. intros x Hx.
    unfold h'. rewrite lookup_insert_ne by lia. done. }
  assert (Hlo : h' !!! lo = mkNode nm ids parent).
  { unfold h'. by rewrite lookup_total_insert_eq. }
  destruct Hb' as [Hd Hk Hn Ht Hi Htn].
  assert (Hhi : forall c, c ∈ ids -> S lo <= c < hi).
  { intros c Hc. by destruct (Ht c Hc). }
  constructor.
  - intros x Hx. destruct (decide (x = lo)) as [->|Hne]; [|apply Hd; lia].
    unfold h'. rewrite dom_insert_L. apply elem_of_union_l. by apply elem_of_singleton.
  - intros p c Hp Hc. destruct (decide (p = lo)) as [->|Hne].
    + rewrite Hlo in Hc. cbn in Hc. destruct (Ht c Hc). split; [lia|done].
    + destruct (Hk p c ltac:(lia) Hc). split; [lia|done].
  - intros p Hp. destruct (decide (p = lo)) as [->|Hne]; [|apply Hn; lia].
    by rewrite Hlo.
  - intros c Hc. apply list_elem_of_singleton in Hc. subst c.
    rewrite Hlo. cbn. split; [lia|done].
  - intros c Hc Hnt. rewrite list_elem_of_singleton in Hnt.
    destruct (decide (c ∈ ids)) as [Hin|Hout].
    + exists lo. destruct (Ht c Hin). rewrite Hlo. cbn. split; [lia|done].
    + destruct (Hi c ltac:(lia) Hout) as (q & ? & ? & ?). exists q.
      split; [lia|done].
  - apply NoDup_singleton.
Qed.


Lemma node_info_frame h h' xs :
  (forall x, x ∈ xs -> h' !! x = h !! x) ->
  map (node_info h') xs = map (node_info h) xs.
Proof.
  intros Heq. apply map_ext_in. intros x Hx. apply list_elem_of_In in Hx.
  unfold node_info. by rewrite !lookup_total_alt, Heq.
Qed.

Lemma load_spec t : forall parent nx h,
  let '(nx', h') := load_at parent t nx h in
  nx' = nx + tree_size t
  /\ (forall x, x < nx \/ nx' <= x -> h' !! x = h !! x)
  /\ block h' nx nx' [nx] parent
  /\ map (node_info h') (seq nx (tree_size t)) = map tree_info (preorder t).
Proof.
  induction t as [nm ks IHks] using tree_ind2. intros parent nx h.
  assert (HF : forall p nx h,
    let '(ids, nx', h') := load_forest p ks nx h in
    nx' = nx + forest_size ks
    /\ (forall x, x < nx \/ nx' <= x -> h' !! x = h !! x)
    /\ block h' nx nx' ids (Some p)
    /\ length ids = length ks
    /\ map (node_info h') (seq nx (forest_size ks))
       = map tree_info (concat (map preorder ks))).
  { clear parent nx h. induction IHks as [|k ks Hk _ IH]; intros p nx h.
    - cbn. split; [lia|]. split; [done|]. split; [|done].
      constructor; try (intros; lia); try (intros ? H; by apply elem_of_nil in H).
      apply NoDup_nil_2.
    - cbn [load_forest forest_size map concat].
      specialize (Hk (Some p) nx h).
      destruct (load_at (Some p) k nx h) as [n1 h1].
      destruct Hk as (-> & Hfr1 & Hb1 & Hi1).
      specialize (IH p (nx + tree_size k) h1).
      destruct (load_forest p ks (nx + tree_size k) h1) as [[ids n2] h2].
      destruct IH as (-> & Hfr2 & Hb2 & Hlen & Hi2).
      split; [lia|]. split; [|split; [|split]].
      + intros x Hx. rewrite Hfr2 by lia. apply Hfr1. lia.
      + apply (block_app _ nx (nx + tree_size k) _ [nx] ids); [lia| |done].
        apply (block_frame h1); [done|]. intros x Hx. apply Hfr2. lia.
      + cbn. by rewrite Hlen.
      + rewrite seq_app, !map_app, Hi2. f_equal.
        rewrite <- Hi1. apply node_info_frame. intros x Hx.
        apply list_elem_of_In, in_seq in Hx. apply Hfr2. lia. }
  rewrite load_at_eq. specialize (HF nx (S nx) h).
  destruct (load_forest nx ks (S nx) h) as [[ids nx'] h'].
  destruct HF as (-> & Hfr & Hb & Hlen & Hi).
  rewrite tree_size_eq, preorder_eq.
  split; [lia|]. split; [|split].
  - intros x Hx. rewrite lookup_insert_ne by lia. apply Hfr. lia.
  - apply block_node; [lia|done].
  - cbn [seq map]. f_equal.
    + unfold node_info, tree_info. rewrite lookup_total_insert_eq. cbn.
      by rewrite Hlen.
    + rewrite <- Hi. apply node_info_frame. intros x Hx.
      apply list_elem_of_In, in_seq in Hx. rewrite lookup_insert_ne by lia. done.
Qed.

Lemma tree_size_pos t : 0 < tree_size t.
Proof. destruct t. rewrite tree_size_eq. lia. Qed.

Lemma load_block t :
  block (load t) 0 (tree_size t) [0] None
  /\ map (node_info (load t)) (seq 0 (tree_size t)) = map tree_info (preorder t).
Proof.
  pose proof (load_spec t None 0 ∅) as H. unfold load.
  destruct (load_at None t 0 ∅) as [nx' h']. cbn [snd].
  destruct H as (-> & _ & Hb & Hi). by split.
Qed.

(** The store of an input tree is a tree: [Tree(text, format=8)] builds
    the nodes [0 .. tree_size t - 1]. *)
Lemma load_attached t : attached (load t) (set_seq 0 (tree_size t)).
Proof.
  destruct (load_block t) as [[Hd Hk Hn Ht Hi Htn] _].
  pose proof (tree_size_pos t) as Hpos.
  constructor.
  - apply elem_of_set_seq. unfold root. lia.
  - destruct (Ht 0) as [_ Hu]; [by left|]. done.
  - intros p c Hp Hc. apply elem_of_set_seq in Hp.
    destruct (Hk p c ltac:(lia) Hc) as [Hr Hu].
    split; [apply elem_of_set_seq; lia|]. split; [done|lia].
  - intros c Hc Hne. apply elem_of_set_seq in Hc.
    destruct (Hi c ltac:(lia)) as (q & Hq & Hu & Hin).
    { rewrite list_elem_of_singleton. done. }
    exists q. split; [apply elem_of_set_seq; lia|done].
  - intros p Hp. apply elem_of_set_seq in Hp. apply Hn. lia.
  - intros x Hx. apply elem_of_set_seq in Hx. apply Hd. lia.
Qed.

Lemma load_root_name t : name (load t !!! root) = label_of t.
Proof.
  destruct (load_block t) as [_ Hi]. pose proof (tree_size_pos t) as Hpos.
  destruct (tree_size t) as [|n]; [lia|]. destruct t as [nm ks].
  rewrite preorder_eq in Hi. cbn [seq map] in Hi. injection Hi as Hnm _ _.
  exact Hnm.
Qed.

(** ** The loops of [_read_tree_file] and [_haplogroup_calibration] *)

Lemma set_name_attached h A n s : attached h A -> attached (Ete.set_name h n s) A.
Proof.
  intros [Hr Hru Hk Hp Hn Hd]. constructor.
  - done.
  - by autorewrite with store.
  - intros p c. autorewrite with store. apply Hk.
  - intros c Hc Hcr. destruct (Hp c Hc Hcr) as (p & ? & ? & ?).
    exists p. by autorewrite with store.
  - intros p. autorewrite with store. apply Hn.
  - autorewrite with store. etrans; [exact Hd|]. apply union_subseteq_r.
Qed.

Lemma set_name_step h A n s :
  attached h A -> n ∈ A -> step_ok h A n (Ete.set_name h n s) A.
Proof.
  intros Hw Hn. constructor; intros; autorewrite with store; try done.
  - by apply set_name_attached.
  - destruct (att_kids _ _ Hw n x Hn) as (HxA & Hxu & _); [done|].
    split; [done|]. exists n. by auto.
  - by rewrite decide_False.
Qed.

Lemma unary_not_leaf h n :
  length (children (h !!! n)) = 1 -> Ete.is_leaf h n = false.
Proof. unfold Ete.is_leaf. by intros ->. Qed.

Lemma pruning_delete h0 A0 h A V n h' A' :
  pruning h0 A0 h A V -> step_ok h A n h' A' -> n ∉ A' ->
  (forall x, name (h' !!! x) = name (h !!! x)) ->
  pruning h0 A0 h' A' (V ∪ {[n]}).
Proof.
  intros [Hs Hl Hr Hu Hn Hd] Hst HnA Hnm. constructor.
  - etrans; [apply (so_sub _ _ _ _ _ Hst)|done].
  - intros x. rewrite (so_len _ _ _ _ _ Hst). apply Hl.
  - intros x Hx Hx'. destruct (decide (x ∈ A)) as [HxA|HxA]; [|by apply Hr].
    destruct (so_removed _ _ _ _ _ Hst x HxA Hx') as (? & Hlen & _).
    split; [done|]. by rewrite <- Hl.
  - intros x Hx. rewrite Hnm. apply Hu.
    intros HxV. apply Hx. by apply elem_of_union_l.
  - intros x. rewrite Hnm. apply Hn.
  - intros x Hx Hxr Huu. apply elem_of_union in Hx as [Hx|Hx].
    + intros HxA'. apply (Hd x Hx Hxr Huu). by apply (so_sub _ _ _ _ _ Hst).
    + apply elem_of_singleton in Hx. by subst x.
Qed.

Lemma pruning_keep h0 A0 h A V n h' :
  pruning h0 A0 h A V -> n ∉ V ->
  ~ unnamed_unary h n ->
  (forall x, children (h' !!! x) = children (h !!! x)) ->
  (forall x, x <> n -> name (h' !!! x) = name (h !!! x)) ->
  (name (h' !!! n) = name (h !!! n)
   \/ (name (h' !!! n) = "NoName" /\ children (h !!! n) <> [])) ->
  pruning h0 A0 h' A (V ∪ {[n]}).
Proof.
  intros [Hs Hl Hr Hu Hn Hd] HnV Hnu Hch Hnm Hnn. constructor.
  - done.
  - intros x. rewrite Hch. apply Hl.
  - done.
  - intros x Hx. rewrite not_elem_of_union, not_elem_of_singleton in Hx.
    destruct Hx as [Hx Hxn]. rewrite Hnm by done. by apply Hu.
  - intros x. destruct (decide (x = n)) as [->|Hxn]; [|rewrite Hnm by done; apply Hn].
    destruct Hnn as [->|[-> Hne]]; [apply Hn|]. right. split; [done|].
    intros Hnil. apply Hne. apply length_zero_iff_nil.
    by rewrite Hl, Hnil.
  - intros x Hx Hxr Huu. apply elem_of_union in Hx as [Hx|Hx]; [by apply Hd|].
    apply elem_of_singleton in Hx. subst x. exfalso. apply Hnu.
    destruct Huu as [Hlen Hname]. split; [by rewrite Hl|].
    by rewrite Hu.
Qed.

Lemma unnamed_spec h n : unnamed h n = true <-> name (h !!! n) = EmptyString.
Proof. unfold unnamed. destruct (name (h !!! n)); cbn; split; congruence. Qed.

Lemma prune_body_ok h0 A0 h A V n :
  attached h A -> pruning h0 A0 h A V -> n ∈ A -> n ∉ V -> n <> root ->
  exists h' A', prune_body n h = Ok h' /\ step_ok h A n h' A'
    /\ pruning h0 A0 h' A' (V ∪ {[n]}).
Proof.
  intros Hw HP Hn HnV Hroot. unfold prune_body.
  destruct (Nat.eqb_spec (length (children (h !!! n))) 1) as [Hlen|Hlen].
  - rewrite (unary_not_leaf _ _ Hlen). cbn.
    destruct (unnamed h n) eqn:Hnm.
    + destruct (delete_step h A n Hw Hn Hroot Hlen) as (h' & A' & Hd & Hst & HnA & Hnames).
      exists h', A'. split; [done|]. split; [done|].
      by apply (pruning_delete h0 A0 h A).
    + exists h, A. split; [done|]. split; [by apply step_ok_id|].
      apply (pruning_keep h0 A0 h A); auto.
      intros [_ Hu]. apply unnamed_spec in Hu. congruence.
  - rewrite andb_false_r. cbn. exists h, A. split; [done|].
    split; [by apply step_ok_id|].
    apply (pruning_keep h0 A0 h A); auto. by intros [? _].
Qed.

Lemma annotate_body_ok used h0 A0 h A V n :
  attached h A -> pruning h0 A0 h A V -> n ∈ A -> n ∉ V -> n <> root ->
  exists h' A', annotate_body used n h = Ok h' /\ step_ok h A n h' A'
    /\ pruning h0 A0 h' A' (V ∪ {[n]}).
Proof.
  intros Hw HP Hn HnV Hroot. unfold annotate_body.
  destruct (Ete.is_leaf h n) eqn:Hleaf; cbn.
  { exists h, A. split; [done|]. split; [by apply step_ok_id|].
    apply (pruning_keep h0 A0 h A); auto.
    intros [Hlen _]. by rewrite (unary_not_leaf _ _ Hlen) in Hleaf. }
  destruct (Nat.eqb_spec (length (children (h !!! n))) 1) as [Hlen|Hlen];
    [destruct (unnamed h n) eqn:Hnm|]; cbn.
  - destruct (delete_step h A n Hw Hn Hroot Hlen) as (h' & A' & Hd & Hst & HnA & Hnames).
    exists h', A'. split; [done|]. split; [done|].
    by apply (pruning_delete h0 A0 h A).
  - assert (Hnu : ~ unnamed_unary h n).
    { intros [_ Hu]. apply unnamed_spec in Hu. congruence. }
    destruct (str_in (name (h !!! n)) used); cbn.
    + exists h, A. split; [done|]. split; [by apply step_ok_id|].
      apply (pruning_keep h0 A0 h A); auto.
    + exists (Ete.set_name h n "NoName"), A. split; [done|].
      split; [by apply set_name_step|].
      apply (pruning_keep h0 A0 h A); try done; intros; autorewrite with store;
        try done.
      * by rewrite decide_False.
      * rewrite decide_True by done. right. split; [done|].
        intros Hnil. by rewrite Hnil in Hlen.
  - assert (Hnu : ~ unnamed_unary h n) by (by intros [? _]).
    destruct (str_in (name (h !!! n)) used); cbn.
    + exists h, A. split; [done|]. split; [by apply step_ok_id|].
      apply (pruning_keep h0 A0 h A); auto.
    + exists (Ete.set_name h n "NoName"), A. split; [done|].
      split; [by apply set_name_step|].
      apply (pruning_keep h0 A0 h A); try done; intros; autorewrite with store;
        try done.
      * by rewrite decide_False.
      * rewrite decide_True by done. right. split; [done|].
        intros Hnil. apply is_leaf_children in Hnil. congruence.
Qed.

Lemma pruning_start h A : pruning h A h A ∅.
Proof.
  constructor; try done. by left.
Qed.

Lemma pruning_root h0 A0 h A V :
  pruning h0 A0 h A V -> pruning h0 A0 h A (V ∪ {[root]}).
Proof.
  intros [Hs Hl Hr Hu Hn Hd]. constructor; try done.
  - intros x Hx. apply Hu. intros HxV. apply Hx. by apply elem_of_union_l.
  - intros x Hx Hxr. apply Hd; [|done].
    apply elem_of_union in Hx as [Hx|Hx]; [done|].
    by apply elem_of_singleton in Hx.
Qed.

(** A loop over the descendants whose body prunes ends, and leaves a tree
    in which every node other than the root has been visited. *)
Lemma for_descendants_pruning body h0 A0 :
  (forall h A V n,
     attached h A -> pruning h0 A0 h A V -> n ∈ A -> n ∉ V -> n <> root ->
     exists h' A', body n h = Ok h' /\ step_ok h A n h' A'
       /\ pruning h0 A0 h' A' (V ∪ {[n]})) ->
  attached h0 A0 ->
  exists h' A' V', for_descendants body h0 = Ok h' /\ attached h' A'
    /\ A' ⊆ V' /\ pruning h0 A0 h' A' V'.
Proof.
  intros Hbody Hw. unfold for_descendants.
  destruct (for_traverse_start Ete.Preorder true
    (fun n '(h, u) => h' ← body n h; Ok (h', u))
    (fun h A V (_ : unit) => pruning h0 A0 h A V) h0 A0 tt)
    as (h' & A' & V' & [] & Hrun & Hw' & Hsub & HP).
  - intros h A V [] n Hw1 HP Hn HnV Hsk. cbn in Hsk.
    apply Nat.eqb_neq in Hsk.
    destruct (Hbody h A V n Hw1 HP Hn HnV Hsk) as (h' & A' & Hb & Hst & HP').
    exists h', A', tt. rewrite Hb. by cbn.
  - intros h A V _ _. apply pruning_root.
  - done.
  - apply pruning_start.
  - exists h', A', V'. rewrite Hrun. by cbn.
Qed.

Lemma prune_loop h0 A0 :
  attached h0 A0 ->
  exists h' A' V', for_descendants prune_body h0 = Ok h' /\ attached h' A'
    /\ A' ⊆ V' /\ pruning h0 A0 h' A' V'.
Proof.
  intros Hw. apply for_descendants_pruning; [|done].
  intros h A V n. apply prune_body_ok.
Qed.

Lemma annotate_loop used h0 A0 :
  attached h0 A0 ->
  exists h' A' V', for_descendants (annotate_body used) h0 = Ok h'
    /\ attached h' A' /\ A' ⊆ V' /\ pruning h0 A0 h' A' V'.
Proof.
  intros Hw. apply for_descendants_pruning; [|done].
  intros h A V n. apply annotate_body_ok.
Qed.

(** ** Leaves and the written text *)

Lemma iter_leaves_attached h A :
  attached h A ->
  exists l, Ete.iter_leaves h root = Ok l /\ NoDup l
    /\ forall x, x ∈ l <-> x ∈ A /\ children (h !!! x) = [].
Proof.
  intros Hw. destruct (traverse_attached Ete.Preorder h A Hw) as (l & Hl & Hnd & Hin).
  unfold Ete.iter_leaves. rewrite Hl. cbn.
  eexists. split; [done|]. split; [by apply NoDup_filter|].
  intros x. rewrite list_elem_of_filter, Hin, is_leaf_children. tauto.
Qed.

Lemma pruning_leaf h0 A0 h A V x :
  pruning h0 A0 h A V ->
  (x ∈ A /\ children (h !!! x) = []) <-> (x ∈ A0 /\ children (h0 !!! x) = []).
Proof.
  intros [Hs Hl Hr Hu Hn Hd]. specialize (Hl x).
  rewrite <- !length_zero_iff_nil. split.
  - intros [Hx H0]. split; [by apply Hs|lia].
  - intros [Hx H0]. split; [|lia].
    destruct (decide (x ∈ A)) as [|Hno]; [done|].
    destruct (Hr x Hx Hno) as [_ H1]. lia.
Qed.

Lemma pruning_leaf_name h0 A0 h A V x :
  pruning h0 A0 h A V -> children (h0 !!! x) = [] ->
  name (h !!! x) = name (h0 !!! x).
Proof.
  intros HP Hnil. destruct (pr_name _ _ _ _ _ HP x) as [|[_ Hne]]; done.
Qed.

(** A pruning pass keeps the leaves and their names. *)
Lemma pruning_leaves h0 A0 h A V :
  attached h0 A0 -> attached h A -> pruning h0 A0 h A V ->
  exists l0 l, Ete.iter_leaves h0 root = Ok l0 /\ Ete.iter_leaves h root = Ok l
    /\ l ≡ₚ l0
    /\ map (fun n => name (h !!! n)) l ≡ₚ map (fun n => name (h0 !!! n)) l0.
Proof.
  intros Hw0 Hw HP.
  destruct (iter_leaves_attached h0 A0 Hw0) as (l0 & Hl0 & Hnd0 & Hin0).
  destruct (iter_leaves_attached h A Hw) as (l & Hl & Hnd & Hin).
  exists l0, l. split; [done|]. split; [done|].
  assert (Hp : l ≡ₚ l0).
  { apply NoDup_Permutation; try done. intros x.
    rewrite Hin, Hin0. by apply (pruning_leaf h0 A0 h A V). }
  split; [done|].
  rewrite <- Hp. erewrite map_ext_in; [reflexivity|]. intros x Hx. cbn.
  apply list_elem_of_In, Hin in Hx.
  apply (pruning_leaf h0 A0 h A V x HP) in Hx as [_ Hx].
  by apply (pruning_leaf_name h0 A0 h A V).
Qed.

Lemma size_above h A n c :
  attached h A -> n ∈ A -> c ∈ children (h !!! n) ->
  size (filter (fun x => c < x) A) < size (filter (fun x => n < x) A).
Proof.
  intros Hw Hn Hc. destruct (att_kids h A Hw n c Hn Hc) as (HcA & _ & Hlt).
  apply subset_size. split.
  - intros x Hx. apply elem_of_filter in Hx as [Hx HxA].
    apply elem_of_filter. split; [lia|done].
  - intros Hsub. specialize (Hsub c).
    rewrite !elem_of_filter in Hsub. destruct Hsub as [Hcc _]; [done|lia].
Qed.

(** The writer ends on a tree, without an error. *)
Lemma write_node_ok nt h A :
  attached h A ->
  forall fuel n, n ∈ A -> size (filter (fun x => n < x) A) < fuel ->
  exists s, Newick.write_node nt fuel h root n = Ok s.
Proof.
  intros Hw. induction fuel as [|fuel IH]; intros n Hn Hf; [lia|].
  cbn [Newick.write_node].
  assert (Hcomma : exists c,
    (if Nat.eqb n root then Ok EmptyString
     else match up (h !!! n) with
          | None => Raise AttributeError
          | Some p =>
              match children (h !!! p) with
              | [] => Raise IndexError
              | c0 :: _ => Ok (if Nat.eqb n c0 then EmptyString else ",")
              end
          end) = Ok c).
  { destruct (Nat.eqb_spec n root) as [|Hne]; [by eexists|].
    destruct (att_parent h A Hw n Hn Hne) as (p & _ & -> & Hin).
    destruct (children (h !!! p)); [by apply elem_of_nil in Hin|by eexists]. }
  destruct Hcomma as [c ->]. cbn.
  destruct (Ete.is_leaf h n); [by eexists|].
  assert (Hgo : forall cs, (forall x, x ∈ cs -> x ∈ children (h !!! n)) ->
      exists r, (fix go (cs : list nat) : result string :=
                   match cs with
                   | [] => Ok EmptyString
                   | c :: cs' =>
                       s ← Newick.write_node nt fuel h root c;
                       r ← go cs';
                       Ok (s +:+ r)
                   end) cs = Ok r).
  { induction cs as [|k cs IHcs]; intros Hcs; [by eexists|].
    destruct (IH k) as [s Hs].
    - apply (att_kids h A Hw n k Hn). apply Hcs. by left.
    - pose proof (size_above h A n k Hw Hn (Hcs k ltac:(by left))). lia.
    - destruct IHcs as [r Hr]; [intros x Hx; apply Hcs; by right|].
      rewrite Hs. cbn. rewrite Hr. cbn. by eexists. }
  destruct (Hgo (children (h !!! n))) as [r Hr]; [done|].
  rewrite Hr. cbn. by eexists.
Qed.

Lemma write_with_ok nt h A :
  attached h A -> exists s, Newick.write_with nt h root = Ok s.
Proof.
  intros Hw. unfold Newick.write_with.
  destruct (write_node_ok nt h A Hw (Ete.budget h) root) as [s Hs].
  - apply (att_root h A Hw).
  - unfold Ete.budget.
    assert (size (filter (fun x => root < x) A) <= size A)
      by (apply subseteq_size; intros x Hx; by apply elem_of_filter in Hx as [_ ?]).
    pose proof (subseteq_size _ _ (att_dom h A Hw)) as Hs.
    rewrite size_dom in Hs. lia.
  - rewrite Hs. cbn. by eexists.
Qed.

(** ** The leaves of an input tree *)

Lemma leaf_info_filter h xs :
  map fst (filter (fun i : string * nat => snd i = 0) (map (node_info h) xs))
  = map (fun n => name (h !!! n)) (filter (fun x => children (h !!! x) = []) xs).
Proof.
  induction xs as [|x xs IH]; [done|]. cbn [map].
  destruct (children (h !!! x)) eqn:Hc.
  - rewrite (filter_cons_True _ (node_info h x)) by (unfold node_info; by rewrite Hc).
    rewrite (filter_cons_True _ x) by done. cbn [map]. by rewrite IH.
  - rewrite (filter_cons_False _ (node_info h x)) by (unfold node_info; by rewrite Hc).
    rewrite (filter_cons_False _ x) by (by rewrite Hc). done.
Qed.

(** The leaves of the store of an input tree are the leaves of the tree. *)
Lemma load_leaves t :
  exists l, Ete.iter_leaves (load t) root = Ok l
    /\ map (fun n => name (load t !!! n)) l ≡ₚ leaf_names t.
Proof.
  destruct (iter_leaves_attached _ _ (load_attached t)) as (l & Hl & Hnd & Hin).
  exists l. split; [done|]. unfold leaf_names.
  destruct (load_block t) as [_ <-]. rewrite leaf_info_filter.
  apply Permutation_map, NoDup_Permutation; [done| |].
  - apply NoDup_filter, NoDup_seq.
  - intros x. rewrite Hin, list_elem_of_filter, elem_of_set_seq, elem_of_seq.
    split; intros [? ?]; split; try done; lia.
Qed.

Lemma reparse9_info t :
  map snd (map tree_info (preorder (reparse9 t)))
  = map snd (map tree_info (preorder t)).
Proof.
  induction t as [nm ks IH] using tree_ind2.
  assert (HF : map snd (map tree_info (concat (map preorder (map reparse9 ks))))
               = map snd (map tree_info (concat (map preorder ks)))).
  { induction IH as [|k' ks' Hk _ IHks]; [done|].
    cbn [map concat]. rewrite !map_app. by rewrite Hk, IHks. }
  destruct ks as [|k ks]; [reflexivity|].
  cbn [reparse9]. rewrite !preorder_eq. cbn [map]. f_equal.
  - unfold tree_info. cbn. by rewrite length_map.
  - exact HF.
Qed.

Lemma length_leaves (infos : list (string * nat)) :
  length (map fst (filter (fun i : string * nat => snd i = 0) infos))
  = length (filter (fun k => k = 0) (map snd infos)).
Proof.
  rewrite length_map. induction infos as [|[nm k] infos IH]; [done|]. cbn [map snd].
  destruct (decide (k = 0)) as [Hk|Hk].
  - rewrite !filter_cons_True by done. cbn. by rewrite IH.
  - by rewrite !filter_cons_False by done.
Qed.

Lemma reparse9_leaves t : length (leaf_names (reparse9 t)) = length (leaf_names t).
Proof. unfold leaf_names. by rewrite !length_leaves, reparse9_info. Qed.

(** ** The calibration loop keeps the shape of the tree *)

Lemma calibrate_line_shape root_name st i st' A :
  attached (cal_tree st) A -> calibrate_line root_name st i = Ok st' ->
  attached (cal_tree st') A
  /\ forall x, children (cal_tree st' !!! x) = children (cal_tree st !!! x).
Proof.
  intros Hw. unfold calibrate_line.
  destruct (parse_calibration i) as [c| |]; cbn -[Ete.search_nodes];
    [|done|done].
  destruct (String.eqb (used_node c) root_name).
  - intros Heq. assert (Hst : st' = mkCal (cal_tree st) (Some (cal_time c)) (used_nodes st ++ [used_node c])) by congruence.
    by subst st'.
  - destruct (Ete.search_nodes (cal_tree st) root (cal_node c)) as [[|n l]| |];
      try done.
    intros Heq.
    assert (Hst : st' = mkCal (Ete.set_name (cal_tree st) n (cal_time c))
                    (root_age st) (used_nodes st ++ [used_node c])) by congruence.
    subst st'. cbn. split; [by apply set_name_attached|].
    intros x. by autorewrite with store.
Qed.

Lemma calibrate_shape root_name lines : forall st st' A,
  attached (cal_tree st) A -> calibrate root_name st lines = Ok st' ->
  attached (cal_tree st') A
  /\ forall x, children (cal_tree st' !!! x) = children (cal_tree st !!! x).
Proof.
  induction lines as [|i lines IH]; intros st st' A Hw; cbn [calibrate].
  - intros Heq. assert (st' = st) by congruence. by subst st'.
  - destruct (calibrate_line root_name st i) as [st1| |] eqn:H1; cbn; try done.
    intros H2. destruct (calibrate_line_shape _ _ _ _ A Hw H1) as [Hw1 Hc1].
    destruct (IH st1 st' A Hw1 H2) as [Hw2 Hc2]. split; [done|].
    intros x. by rewrite Hc2, Hc1.
Qed.

Lemma leaves_count h t l :
  attached h (set_seq 0 (tree_size t)) ->
  (forall x, children (h !!! x) = children (load t !!! x)) ->
  Ete.iter_leaves h root = Ok l -> length l = length (leaf_names t).
Proof.
  intros Hw Hch Hl.
  destruct (iter_leaves_attached _ _ Hw) as (l' & Hl' & Hnd & Hin).
  assert (l' = l) by congruence. subst l'.
  unfold leaf_names. destruct (load_block t) as [_ <-].
  rewrite leaf_info_filter, length_map.
  apply Permutation_length, NoDup_Permutation; [done| |].
  - apply NoDup_filter, NoDup_seq.
  - intros x. rewrite Hin, list_elem_of_filter, elem_of_set_seq, elem_of_seq, Hch.
    split; intros [? ?]; split; try done; lia.
Qed.

(** ** What the two functions return *)

(** [_read_tree_file] returns; the tree it leaves is the pruned tree read
    back from the format 9 text. *)
Lemma read_tree_file_spec t :
  exists h A V l body,
    _read_tree_file t = Ok (h, tree_file_text (length l) body)
    /\ attached h A /\ A ⊆ V
    /\ pruning (load (reparse9 t)) (set_seq 0 (tree_size (reparse9 t))) h A V
    /\ Ete.iter_leaves h root = Ok l
    /\ Newick.write Newick.F9 h root = Ok body.
Proof.
  destruct (prune_loop _ _ (load_attached (reparse9 t)))
    as (h & A & V & Hrun & Hw & Hsub & HP).
  destruct (iter_leaves_attached h A Hw) as (l & Hl & _).
  destruct (write_with_ok (Newick.name_text Newick.F9) h A Hw) as [body Hb].
  exists h, A, V, l, body. unfold _read_tree_file.
  rewrite Hrun. cbn -[Ete.iter_leaves Newick.write]. rewrite Hl.
  cbn -[Ete.iter_leaves Newick.write]. unfold Newick.write. rewrite Hb. by cbn.
Qed.

(** [_haplogroup_calibration] returns when its first loop does. *)
Lemma annotate_spec lines t st :
  calibrate (name (load t !!! root)) (mkCal (load t) None []) lines = Ok st ->
  exists h A V l body,
    annotate lines t
    = Ok (h, tree_file_text (length l) (Py.replace "NoName" "" body), root_age st)
    /\ attached (cal_tree st) (set_seq 0 (tree_size t))
    /\ (forall x, children (cal_tree st !!! x) = children (load t !!! x))
    /\ attached h A /\ A ⊆ V
    /\ pruning (cal_tree st) (set_seq 0 (tree_size t)) h A V
    /\ Ete.iter_leaves h root = Ok l
    /\ Newick.write Newick.F8 h root = Ok body
    /\ for_descendants (annotate_body (used_nodes st)) (cal_tree st) = Ok h.
Proof.
  intros Hcal.
  destruct (calibrate_shape _ _ (mkCal (load t) None []) st _
              (load_attached t) Hcal) as [Hw0 Hch].
  destruct (annotate_loop (used_nodes st) _ _ Hw0)
    as (h & A & V & Hrun & Hw & Hsub & HP).
  destruct (iter_leaves_attached h A Hw) as (l & Hl & _).
  destruct (write_with_ok (Newick.name_text Newick.F8) h A Hw) as [body Hb].
  exists h, A, V, l, body. unfold annotate.
  rewrite Hcal. cbn -[Ete.iter_leaves Newick.write Py.replace for_descendants].
  rewrite Hrun.
  cbn -[Ete.iter_leaves Newick.write Py.replace]. rewrite Hl.
  cbn -[Ete.iter_leaves Newick.write Py.replace]. unfold Newick.write.
  rewrite Hb. by cbn -[Py.replace].
Qed.

(** ** Leaves under normalization *)

(** C5, as stated, fails for the order of the leaves: for [((a),b);] the
    leaves of the tree read back are [a, b], and after the loop of
    [_read_tree_file] they are [b, a], because [delete] appends the child
    of the removed node after the other children of the parent. *)
Lemma C5_leaf_order_changes :
  ~ (forall t h text names0 names,
       _read_tree_file t = Ok (h, text) ->
       leaf_name_list (load (reparse9 t)) = Ok names0 ->
       leaf_name_list h = Ok names ->
       names = names0).
Proof.
  intros H.
  assert (Hr : exists h text,
    _read_tree_file tree_unary = Ok (h, text)
    /\ leaf_name_list h = Ok ["b"; "a"]).
  { eexists _, _. split; vm_compute; reflexivity. }
  destruct Hr as (h & text & Hr & Hn).
  assert (H0 : leaf_name_list (load (reparse9 tree_unary)) = Ok ["a"; "b"])
    by (vm_compute; reflexivity).
  specialize (H _ _ _ _ _ Hr H0 Hn). discriminate H.
Qed.

(** C5, amended: both functions return; the names of the leaves after the
    pruning loop are the names of the leaves before it up to their order
    (so their number and their set are kept), and the tip count of the
    header is the number of leaves of the input tree. *)
Theorem C5_leaves_kept t lines st :
  calibrate (name (load t !!! root)) (mkCal (load t) None []) lines = Ok st ->
  (exists h body names0 names,
     _read_tree_file t = Ok (h, tree_file_text (length (leaf_names t)) body)
     /\ leaf_name_list (load (reparse9 t)) = Ok names0
     /\ leaf_name_list h = Ok names
     /\ names ≡ₚ names0 /\ names0 ≡ₚ leaf_names (reparse9 t))
  /\ (exists h body names0 names,
     annotate lines t
     = Ok (h, tree_file_text (length (leaf_names t)) body, root_age st)
     /\ leaf_name_list (cal_tree st) = Ok names0
     /\ leaf_name_list h = Ok names
     /\ names ≡ₚ names0 /\ length names0 = length (leaf_names t)).
Proof.
  intros Hcal. split.
  - destruct (read_tree_file_spec t) as (h & A & V & l & body & Hr & Hw & _ & HP & Hl & _).
    destruct (pruning_leaves _ _ _ _ _ (load_attached (reparse9 t)) Hw HP)
      as (l0 & l' & Hl0 & Hl' & Hp & Hpn).
    assert (l' = l) by congruence. subst l'.
    destruct (load_leaves (reparse9 t)) as (l0' & Hl0' & Hn0).
    assert (l0' = l0) by congruence. subst l0'.
    exists h, body, (map (fun n => name (load (reparse9 t) !!! n)) l0),
      (map (fun n => name (h !!! n)) l).
    split; [|split; [|split; [|split]]]; try done.
    + rewrite Hr. do 3 f_equal.
      rewrite (Permutation_length Hp).
      rewrite (leaves_count _ (reparse9 t) l0 (load_attached _)) by done.
      apply reparse9_leaves.
    + unfold leaf_name_list. by rewrite Hl0.
    + unfold leaf_name_list. by rewrite Hl.
  - destruct (annotate_spec lines t st Hcal)
      as (h & A & V & l & body & Hr & Hw0 & Hch & Hw & _ & HP & Hl & _).
    destruct (pruning_leaves _ _ _ _ _ Hw0 Hw HP)
      as (l0 & l' & Hl0 & Hl' & Hp & Hpn).
    assert (l' = l) by congruence. subst l'.
    pose proof (leaves_count _ t l0 Hw0 Hch Hl0) as Hlen.
    exists h, (Py.replace "NoName" "" body),
      (map (fun n => name (cal_tree st !!! n)) l0),
      (map (fun n => name (h !!! n)) l).
    split; [|split; [|split; [|split]]]; try done.
    + rewrite Hr. do 4 f_equal. by rewrite (Permutation_length Hp).
    + unfold leaf_name_list. by rewrite Hl0.
    + unfold leaf_name_list. by rewrite Hl.
    + by rewrite length_map.
Qed.

Lemma C5_leaves_kept_witness :
  exists st,
    calibrate (name (load tree_ABCD !!! root)) (mkCal (load tree_ABCD) None [])
      ["D:<300"; "B:100-200"] = Ok st
    /\ exists h body names0 names,
     annotate ["D:<300"; "B:100-200"] tree_ABCD
     = Ok (h, tree_file_text (length (leaf_names tree_ABCD)) body, root_age st)
     /\ leaf_name_list (cal_tree st) = Ok names0
     /\ leaf_name_list h = Ok names
     /\ names ≡ₚ names0 /\ length names0 = length (leaf_names tree_ABCD).
Proof.
  eexists. split; [vm_compute; reflexivity|].
  apply (C5_leaves_kept tree_ABCD ["D:<300"; "B:100-200"]).
  vm_compute. reflexivity.
Defined.

(** ** Normalization *)

Lemma in_tree_attached h A x : attached h A -> in_tree h x = true <-> x ∈ A.
Proof.
  intros Hw. unfold in_tree.
  destruct (traverse_attached Ete.Preorder h A Hw) as (l & -> & _ & Hin).
  by rewrite bool_decide_eq_true, Hin.
Qed.

Lemma in_tree_attached_false h A x : attached h A -> in_tree h x = false <-> x ∉ A.
Proof.
  intros Hw. rewrite <- (in_tree_attached h A x Hw).
  destruct (in_tree h x); split; congruence.
Qed.

Lemma pruning_normalized h0 A0 h A V :
  attached h0 A0 -> attached h A -> A ⊆ V -> pruning h0 A0 h A V ->
  normalized h0 h.
Proof.
  intros Hw0 Hw Hsub HP. split; [|split; [|split; [|split]]].
  - apply (in_tree_attached h A); [done|]. apply (att_root h A Hw).
  - intros x. rewrite (in_tree_attached h A), (in_tree_attached h0 A0) by done.
    apply (pr_sub _ _ _ _ _ HP).
  - intros x _ Hxr Hu. apply (in_tree_attached_false h A); [done|].
    intros Hx. apply (pr_done _ _ _ _ _ HP x); auto.
  - intros x. rewrite (in_tree_attached h0 A0), (in_tree_attached_false h A) by done.
    apply (pr_removed _ _ _ _ _ HP).
  - intros x Hx Hxr [Hlen Hnm].
    apply (in_tree_attached h A) in Hx; [|done].
    apply (pr_done _ _ _ _ _ HP x); auto. split.
    + by rewrite <- (pr_len _ _ _ _ _ HP).
    + destruct (pr_name _ _ _ _ _ HP x) as [<-|[Hno _]]; [done|].
      rewrite Hnm in Hno. discriminate.
Qed.

(** C3, as stated, fails on four counts.  The root is not visited by
    [iter_descendants]: the root of [((a,b));] has one child and no name
    and stays.  The child of a removed node is appended after the other
    children of the parent: [((a),b);] is written [(b,a);], where the
    replacement in place gives [(a,b);].  [delete] also removes the
    parent when that is left with one child: in [(((a))N,b)R;] the node
    [N] leaves the tree in the annotation.  And [_read_tree_file] prunes
    the tree read back from the format 9 text, which holds no name of an
    inner node: the node [N] of [((a)N,b);] leaves the tree. *)
Lemma C3_not_as_stated :
  ~ (forall t h text x,
       _read_tree_file t = Ok (h, text) ->
       in_tree (load (reparse9 t)) x = true ->
       unnamed_unary (load (reparse9 t)) x ->
       in_tree h x = false)
  /\ ~ (forall t h text,
       _read_tree_file t = Ok (h, text) ->
       Newick.write Newick.F9 h root
       = Newick.write Newick.F9 (load (spec_normalize (reparse9 t))) root)
  /\ ~ (forall lines t h text age x,
       annotate lines t = Ok (h, text, age) ->
       in_tree (load t) x = true ->
       name (load t !!! x) <> EmptyString ->
       in_tree h x = true)
  /\ ~ (forall t h text x,
       _read_tree_file t = Ok (h, text) ->
       in_tree (load t) x = true ->
       name (load t !!! x) <> EmptyString ->
       in_tree h x = true).
Proof.
  split; [|split; [|split]]; intros H.
  - assert (Hr : exists h text,
      _read_tree_file tree_unary_root = Ok (h, text) /\ in_tree h root = true).
    { eexists _, _. split; vm_compute; reflexivity. }
    destruct Hr as (h & text & Hr & Hin).
    specialize (H _ _ _ root Hr). rewrite Hin in H.
    discriminate H; [vm_compute; reflexivity|].
    split; vm_compute; reflexivity.
  - assert (Hr : exists h text,
      _read_tree_file tree_unary = Ok (h, text)
      /\ Newick.write Newick.F9 h root = Ok "(b,a);").
    { eexists _, _. split; vm_compute; reflexivity. }
    destruct Hr as (h & text & Hr & Hw).
    specialize (H _ _ _ Hr). rewrite Hw in H. vm_compute in H. discriminate H.
  - assert (Hr : exists h text age,
      annotate [] tree_named_unary = Ok (h, text, age) /\ in_tree h 1 = false).
    { eexists _, _, _. split; vm_compute; reflexivity. }
    destruct Hr as (h & text & age & Hr & Hin).
    specialize (H _ _ _ _ _ 1 Hr). rewrite Hin in H.
    discriminate H; vm_compute; [reflexivity|discriminate].
  - assert (Hr : exists h text,
      _read_tree_file tree_N_unary = Ok (h, text) /\ in_tree h 1 = false).
    { eexists _, _. split; vm_compute; reflexivity. }
    destruct Hr as (h & text & Hr & Hin).
    specialize (H _ _ _ 1 Hr). rewrite Hin in H.
    discriminate H; vm_compute; [reflexivity|discriminate].
Qed.

(** ** [replace] and texts with separators

    A character that does not occur in [old] cannot lie inside an
    occurrence of [old]: [replace] works on the two sides of it
    separately. *)

Lemma append_assoc (a b c : string) : (a +:+ b) +:+ c = a +:+ (b +:+ c).
Proof.
  induction a as [|x a IH]; [done|].
  change (String x ((a +:+ b) +:+ c) = String x (a +:+ b +:+ c)). by rewrite IH.
Qed.

Lemma append_empty (a : string) : a +:+ EmptyString = a.
Proof.
  induction a as [|x a IH]; [done|].
  change (String x (a +:+ EmptyString) = String x a). by rewrite IH.
Qed.

Section Replace.
Variables (o : ascii) (old' new : string).
Let old := String o old'.

Lemma prefix_sep c b : forall a p,
  occurs c p = false ->
  String.prefix p (a +:+ String c b) = String.prefix p a.
Proof.
  induction a as [|y a IH]; intros p Hc.
  - change (EmptyString +:+ String c b) with (String c b).
    destruct p as [|x p]; [done|]. simpl.
    cbn in Hc. apply orb_false_iff in Hc as [Hx Hp].
    destruct (ascii_dec x c) as [->|]; [|done].
    by rewrite Ascii.eqb_refl in Hx.
  - change (String y a +:+ String c b) with (String y (a +:+ String c b)).
    destruct p as [|x p]; [done|]. simpl.
    cbn in Hc. apply orb_false_iff in Hc as [Hx Hp].
    destruct (ascii_dec x y); [by apply IH|done].
Qed.

Lemma prefix_length : forall p a,
  String.prefix p a = true -> String.length p <= String.length a.
Proof.
  induction p as [|x p IH]; intros a; [cbn; lia|].
  destruct a as [|y a]; simpl; [done|].
  destruct (ascii_dec x y); [|done]. intros H. apply IH in H. lia.
Qed.

Lemma replace_go_sep c b :
  occurs c old = false ->
  forall a k, k <= String.length a ->
  Py.replace_go old new k (a +:+ String c b)
  = Py.replace_go old new k a +:+ String c (Py.replace_go old new 0 b).
Proof.
  intros Hc. induction a as [|y a IH]; intros k Hk.
  - cbn in Hk. assert (k = 0) by lia. subst k.
    change (EmptyString +:+ String c b) with (String c b).
    cbn [Py.replace_go].
    replace (String.prefix old (String c b)) with false; [done|].
    symmetry. change (String c b) with (EmptyString +:+ String c b).
    by rewrite (prefix_sep c b EmptyString).
  - change (String y a +:+ String c b) with (String y (a +:+ String c b)).
    destruct k as [|k]; cbn [Py.replace_go].
    + change (String y (a +:+ String c b)) with (String y a +:+ String c b).
      rewrite prefix_sep by done.
      destruct (String.prefix old (String y a)) eqn:Hpre.
      * apply prefix_length in Hpre. cbn in Hpre.
        rewrite IH by (cbn; lia). by rewrite append_assoc.
      * by rewrite IH by lia.
    + apply IH. cbn in Hk. lia.
Qed.

Lemma replace_sep c a b :
  occurs c old = false ->
  Py.replace old new (a +:+ String c b)
  = Py.replace old new a +:+ String c (Py.replace old new b).
Proof. intros Hc. apply replace_go_sep; [done|lia]. Qed.

Lemma replace_head c b :
  occurs c old = false ->
  Py.replace old new (String c b) = String c (Py.replace old new b).
Proof. intros Hc. apply (replace_sep c EmptyString b Hc). Qed.

End Replace.

(** ** The text written and [replace] *)

Lemma write_node_eq nt fuel h n :
  Newick.write_node nt (S fuel) h root n
  = (comma ← comma_text h n;
     if Ete.is_leaf h n then Ok (comma +:+ nt true (name (h !!! n)))
     else
       inner ← write_kids (Newick.write_node nt fuel h root) (children (h !!! n));
       Ok (comma +:+ "(" +:+ inner +:+ ")" +:+
           match up (h !!! n) with
           | None => EmptyString
           | Some _ => nt false (name (h !!! n))
           end)).
Proof. reflexivity. Qed.

Lemma clear_names_sep (c : ascii) a b :
  occurs c "NoName" = false ->
  clear_names (a +:+ String c b) = clear_names a +:+ String c (clear_names b).
Proof. apply (replace_sep "N" "oName" EmptyString). Qed.

Lemma clear_names_head (c : ascii) b :
  occurs c "NoName" = false ->
  clear_names (String c b) = String c (clear_names b).
Proof. apply (replace_head "N" "oName" EmptyString). Qed.

Lemma clear_names_app a b :
  b = EmptyString \/ (exists b0, b = String "," b0) ->
  clear_names (a +:+ b) = clear_names a +:+ clear_names b.
Proof.
  intros [->|[b0 ->]].
  - by rewrite !append_empty.
  - by rewrite clear_names_sep, clear_names_head.
Qed.

Lemma comma_text_cases h A n c :
  attached h A -> n ∈ A -> comma_text h n = Ok c ->
  (c = EmptyString \/ c = ",")
  /\ forall p c0 l, up (h !!! n) = Some p -> children (h !!! p) = c0 :: l ->
       n <> c0 -> c = ",".
Proof.
  intros Hw Hn. unfold comma_text.
  destruct (Nat.eqb_spec n root) as [->|Hne].
  - intros Hc. assert (c = EmptyString) by congruence. subst c.
    split; [by left|]. intros p c0 l Hup. by rewrite (att_root_up h A Hw) in Hup.
  - destruct (up (h !!! n)) as [p|] eqn:Hup; [|done].
    destruct (children (h !!! p)) as [|c0 l] eqn:Hl; [done|].
    destruct (Nat.eqb_spec n c0) as [->|Hc0]; intros Hc.
    + assert (c = EmptyString) by congruence. subst c. split; [by left|].
      intros p' c0' l' Hp' Hl' Hne'. congruence.
    + assert (c = ",") by congruence. subst c. by split; [right|].
Qed.

Lemma clear_names_comma c x :
  c = EmptyString \/ c = "," ->
  clear_names (c +:+ x) = c +:+ clear_names x.
Proof. intros [->| ->]; [done|]. by apply (clear_names_head ","). Qed.

(** Deleting [NoName] from the text of a tree is deleting it from every
    name written. *)
Lemma write_node_clear nt h A :
  attached h A ->
  forall fuel n s, n ∈ A -> Newick.write_node nt fuel h root n = Ok s ->
  Newick.write_node (fun leaf nm => clear_names (nt leaf nm)) fuel h root n
  = Ok (clear_names s)
  /\ forall p c0 l, up (h !!! n) = Some p -> children (h !!! p) = c0 :: l ->
       n <> c0 -> exists s0, s = String "," s0.
Proof.
  intros Hw. induction fuel as [|fuel IH]; intros n s Hn; [done|].
  rewrite !write_node_eq.
  destruct (comma_text h n) as [c| |] eqn:Hc; [|done|done].
  destruct (comma_text_cases h A n c Hw Hn Hc) as [Hcc Hcomma].
  change (Ok c ≫= ?f) with (f c). cbv beta.
  destruct (Ete.is_leaf h n) eqn:Hleaf.
  { intros Hs. assert (s = c +:+ nt true (name (h !!! n))) by congruence.
    subst s. split; [by rewrite clear_names_comma|].
    intros p c0 l Hup Hl Hne. rewrite (Hcomma p c0 l) by done. by eexists. }
  assert (L1 : forall hd tl cs r,
    children (h !!! n) = hd :: tl ->
    (forall x, x ∈ cs -> x ∈ children (h !!! n) /\ x <> hd) ->
    write_kids (Newick.write_node nt fuel h root) cs = Ok r ->
    write_kids (Newick.write_node (fun leaf nm => clear_names (nt leaf nm))
                  fuel h root) cs = Ok (clear_names r)
    /\ (r = EmptyString \/ exists r0, r = String "," r0)).
  { intros hd tl cs. induction cs as [|k cs IHcs]; intros r Htl Hcs; cbn [write_kids].
    - intros Hr. assert (r = EmptyString) by congruence. subst r.
      split; [done|by left].
    - destruct (Newick.write_node nt fuel h root k) as [sk| |] eqn:Hsk; [|done|done].
      change (Ok sk ≫= ?f) with (f sk). cbv beta.
      destruct (write_kids _ cs) as [r'| |] eqn:Hr'; [|done|done].
      change (Ok r' ≫= ?f) with (f r'). cbv beta.
      intros Hr. assert (r = sk +:+ r') by congruence. subst r.
      destruct (Hcs k) as [Hkin Hkhd]; [by left|].
      destruct (att_kids h A Hw n k Hn Hkin) as (HkA & Hkup & _).
      destruct (IH k sk HkA Hsk) as [Hk' Hkcomma].
      destruct (Hkcomma n hd tl Hkup Htl Hkhd) as [s0 ->].
      destruct (IHcs r' Htl) as [Hcs' Hform]; [|done|].
      { intros x Hx. apply Hcs. by right. }
      rewrite Hk'. change (Ok ?a ≫= ?f) with (f a). cbv beta.
      rewrite Hcs'. change (Ok ?a ≫= ?f) with (f a). cbv beta.
      split; [|right; by eexists].
      f_equal. symmetry. by apply clear_names_app. }
  destruct (children (h !!! n)) as [|hd tl] eqn:Hch.
  { apply is_leaf_children in Hch. congruence. }
  cbn [write_kids].
  destruct (Newick.write_node nt fuel h root hd) as [sh| |] eqn:Hsh; [|done|done].
  change (Ok sh ≫= ?f) with (f sh). cbv beta.
  destruct (write_kids _ tl) as [rt| |] eqn:Hrt; [|done|done].
  change (Ok rt ≫= ?f) with (f rt). cbv beta.
  change (Ok (sh +:+ rt) ≫= ?f) with (f (sh +:+ rt)). cbv beta.
  intros Hs. 
  assert (HhdA : hd ∈ A).
  { apply (att_kids h A Hw n hd Hn). rewrite Hch. by left. }
  destruct (IH hd sh HhdA Hsh) as [Hh' _].
  pose proof (att_nodup h A Hw n Hn) as Hnd. rewrite Hch in Hnd.
  apply NoDup_cons in Hnd as [Hhd _].
  destruct (L1 hd tl tl rt eq_refl) as [Ht' Hform]; [|done|].
  { intros x Hx. split; [by right|]. intros ->. done. }
  rewrite Hh'. change (Ok ?a ≫= ?f) with (f a). cbv beta.
  rewrite Ht'. change (Ok ?a ≫= ?f) with (f a). cbv beta.
  change (Ok ?a ≫= ?f) with (f a). cbv beta.
  match type of Hs with Ok ?x = _ => assert (s = x) by congruence end. subst s.
  split.
  - f_equal. rewrite clear_names_comma by done.
    change ("(" +:+ ?x) with (String "(" x).
    rewrite (clear_names_head "(") by done.
    change (")" +:+ ?x) with (String ")" x).
    rewrite (clear_names_sep ")") by done.
    rewrite clear_names_app by done.
    by destruct (up (h !!! n)).
  - intros p c0 l Hup Hl Hne. rewrite (Hcomma p c0 l) by done. by eexists.
Qed.

Lemma write_clear h A body :
  attached h A -> Newick.write Newick.F8 h root = Ok body ->
  Newick.write_with
    (fun leaf nm => clear_names (Newick.name_text Newick.F8 leaf nm)) h root
  = Ok (clear_names body).
Proof.
  intros Hw. unfold Newick.write, Newick.write_with.
  destruct (Newick.write_node _ _ h root root) as [s| |] eqn:Hs; [|done|done].
  destruct (write_node_clear _ h A Hw _ root s (att_root h A Hw) Hs) as [-> _].
  change (Ok ?a ≫= ?f) with (f a). cbv beta. intros Hb.
  assert (body = s +:+ ";") by congruence. subst body.
  change ";" with (String ";" EmptyString).
  by rewrite (clear_names_sep ";").
Qed.

Lemma annotate_body_name used h n h' :
  annotate_body used n h = Ok h' -> Ete.is_leaf h n = false ->
  unnamed_unary h n
  \/ name (h' !!! n) = "NoName"
  \/ str_in (name (h' !!! n)) used = true.
Proof.
  unfold annotate_body. intros Hb Hleaf. rewrite Hleaf in Hb. cbn [negb] in Hb.
  destruct (Nat.eqb_spec (length (children (h !!! n))) 1) as [Hlen|Hlen];
    [destruct (unnamed h n) eqn:Hnm|]; cbn [andb] in Hb.
  - left. split; [done|]. by apply unnamed_spec.
  - destruct (str_in (name (h !!! n)) used) eqn:Hin; cbn [negb] in Hb; right.
    + right. assert (h' = h) by congruence. by subst h'.
    + left. assert (h' = Ete.set_name h n "NoName") by congruence. subst h'.
      autorewrite with store. by rewrite decide_True.
  - destruct (str_in (name (h !!! n)) used) eqn:Hin; cbn [negb] in Hb; right.
    + right. assert (h' = h) by congruence. by subst h'.
    + left. assert (h' = Ete.set_name h n "NoName") by congruence. subst h'.
      autorewrite with store. by rewrite decide_True.
Qed.

(** After the second loop every node below the root that has children
    bears the name [NoName] or a name of [used_nodes]. *)
Lemma annotate_loop_names used h0 A0 h' :
  attached h0 A0 -> for_descendants (annotate_body used) h0 = Ok h' ->
  forall x, in_tree h' x = true -> x <> root -> Ete.is_leaf h' x = false ->
  name (h' !!! x) = "NoName" \/ str_in (name (h' !!! x)) used = true.
Proof.
  intros Hw0 Hrun.
  destruct (for_traverse_start Ete.Preorder true
    (fun n '(h, u) => h' ← annotate_body used n h; Ok (h', u))
    (fun h A V (_ : unit) => pruning h0 A0 h A V
       /\ forall x, x ∈ V -> x ∈ A -> x <> root -> Ete.is_leaf h x = false ->
          name (h !!! x) = "NoName" \/ str_in (name (h !!! x)) used = true)
    h0 A0 tt)
    as (h1 & A1 & V1 & [] & Hrun1 & Hw1 & Hsub & HP & Hnames).
  - intros h A V [] n Hw [HP Hnames] Hn HnV Hsk. cbn in Hsk.
    apply Nat.eqb_neq in Hsk.
    destruct (annotate_body_ok used h0 A0 h A V n Hw HP Hn HnV Hsk)
      as (h2 & A2 & Hb & Hst & HP2).
    exists h2, A2, tt. rewrite Hb. split; [done|]. split; [done|].
    split; [done|]. intros x Hx HxA Hxr Hleaf.
    assert (Hleaf0 : Ete.is_leaf h x = false).
    { destruct (Ete.is_leaf h x) eqn:Hl; [|done].
      apply is_leaf_children in Hl.
      assert (Hnil : children (h2 !!! x) = []).
      { apply length_zero_iff_nil. by rewrite (so_len _ _ _ _ _ Hst), Hl. }
      apply is_leaf_children in Hnil. congruence. }
    apply elem_of_union in Hx as [Hx|Hx].
    + assert (x <> n) by (by intros ->).
      rewrite (so_name _ _ _ _ _ Hst) by done.
      apply Hnames; try done. by apply (so_sub _ _ _ _ _ Hst).
    + apply elem_of_singleton in Hx. subst x.
      destruct (annotate_body_name used h n h2 Hb Hleaf0) as [[Hlen Hnm]|Hok];
        [|done].
      exfalso. apply (pr_done _ _ _ _ _ HP2 n); try done.
      * apply elem_of_union_r. by apply elem_of_singleton.
      * split; [by rewrite <- (pr_len _ _ _ _ _ HP)|].
        by rewrite <- (pr_unvisited _ _ _ _ _ HP n HnV).
  - intros h A V _ _ [HP Hnames]. split; [by apply pruning_root|].
    intros x Hx HxA Hxr. apply Hnames; [|done|done].
    apply elem_of_union in Hx as [Hx|Hx]; [done|].
    by apply elem_of_singleton in Hx.
  - done.
  - split; [apply pruning_start|]. intros x Hx. by apply not_elem_of_empty in Hx.
  - unfold for_descendants in Hrun. rewrite Hrun1 in Hrun.
    assert (h' = h1) by (cbn in Hrun; congruence). subst h'.
    intros x Hx Hxr Hleaf. apply (in_tree_attached h1 A1 x Hw1) in Hx.
    apply Hnames; try done. by apply Hsub.
Qed.

(** ** The names the second loop leaves *)

(** ** Calibration lines *)

Lemma span_spec p s :
  s = fst (Py.span p s) +:+ snd (Py.span p s)
  /\ Py.all_chars p (fst (Py.span p s)) = true.
Proof.
  induction s as [|c s [IH1 IH2]]; [done|]. cbn [Py.span].
  destruct (p c) eqn:Hc; [|done].
  destruct (Py.span p s) as [a b]. cbn [fst snd] in *.
  split.
  - change (String c s = String c (a +:+ b)). by rewrite <- IH1.
  - cbn. by rewrite Hc, IH2.
Qed.

(** A match of [\w+:] followed by [k]. *)
Lemma plus_word_colon k i :
  Re.plus Py.is_word (Re.lit ":" k) i = true ->
  exists w r, i = w +:+ String ":" r /\ Py.all_chars Py.is_word w = true
    /\ k r = true.
Proof.
  unfold Re.plus. destruct (span_spec Py.is_word i) as [Hi Hw].
  destruct (Py.span Py.is_word i) as [w r]. cbn [fst snd] in *.
  intros H. apply andb_true_iff in H as [_ H].
  destruct r as [|c r]; [done|]. cbn [Re.lit] in H.
  apply andb_true_iff in H as [Hc Hk]. apply Ascii.eqb_eq in Hc. subst c.
  by exists w, r.
Qed.

Lemma prefix_cons a s1 b s2 :
  String.prefix (String a s1) (String b s2)
  = if ascii_dec a b then String.prefix s1 s2 else false.
Proof. reflexivity. Qed.

(** [split] cuts a line at the separator that follows the word. *)
Lemma split_go_word sep' r : forall w cur,
  Py.all_chars Py.is_word w = true ->
  String.prefix (String ":" sep') (String ":" r) = true ->
  exists tl,
    Py.split_go (String ":" sep') 0 cur (w +:+ String ":" r) = (cur +:+ w) :: tl.
Proof.
  induction w as [|y w IH]; intros cur Hw Hpre.
  - change (EmptyString +:+ String ":" r) with (String ":" r).
    cbn [Py.split_go]. rewrite Hpre, append_empty. by eexists.
  - cbn in Hw. apply andb_true_iff in Hw as [Hy Hw].
    change (String y w +:+ String ":" r) with (String y (w +:+ String ":" r)).
    cbn [Py.split_go].
    replace (String.prefix (String ":" sep') (String y (w +:+ String ":" r)))
      with false.
    + destruct (IH (cur +:+ Py.str1 y) Hw Hpre) as [tl ->].
      exists tl. f_equal. by rewrite append_assoc.
    + rewrite prefix_cons. destruct (ascii_dec ":" y) as [<-|]; [|done].
      by vm_compute in Hy.
Qed.

Lemma split_word sep' w r :
  Py.all_chars Py.is_word w = true ->
  String.prefix (String ":" sep') (String ":" r) = true ->
  exists tl, Py.split (String ":" sep') (w +:+ String ":" r) = w :: tl.
Proof. intros Hw Hpre. apply (split_go_word sep' r w EmptyString Hw Hpre). Qed.

Lemma unpack2_head w tl node time :
  unpack2 (w :: tl) = Ok (node, time) -> node = w.
Proof.
  destruct tl as [|b [|? ?]]; cbn; try done. intros H. congruence.
Qed.

Lemma prefix_empty s : String.prefix EmptyString s = true.
Proof. by destruct s. Qed.

Lemma prefix_colon r : String.prefix ":" (String ":" r) = true.
Proof. rewrite prefix_cons. destruct (ascii_dec ":" ":"); [apply prefix_empty|done]. Qed.

Lemma prefix_colon2 (c : ascii) r :
  String.prefix (String ":" (String c EmptyString)) (String ":" (String c r)) = true.
Proof.
  rewrite prefix_cons. destruct (ascii_dec ":" ":"); [|done].
  rewrite prefix_cons. destruct (ascii_dec c c); [apply prefix_empty|done].
Qed.

Lemma lit_inv c k s :
  Re.lit c k s = true -> exists r, s = String c r /\ k r = true.
Proof.
  destruct s as [|c' r]; [done|]. cbn [Re.lit]. intros H.
  apply andb_true_iff in H as [Hc Hk]. apply Ascii.eqb_eq in Hc. subst c'.
  by exists r.
Qed.

(** What a line that is read gives: the node is the word before the
    colon, and the time has the shape of a prior. *)
Lemma parse_calibration_ok i c :
  parse_calibration i = Ok c ->
  Py.all_chars Py.is_word (cal_node c) = true /\ prior_like (cal_time c).
Proof.
  unfold parse_calibration.
  destruct (index (Py.split ":" i) 0) as [used| |]; [|done|done]. ok_bind.
  destruct (Re.exact i) eqn:H1; [|destruct (Re.upper i) eqn:H2;
    [|destruct (Re.lower i) eqn:H3; [|destruct (Re.interval i) eqn:H4; [|done]]]].
  - apply plus_word_colon in H1 as (w & r & -> & Hw & _).
    destruct (split_word EmptyString w r Hw (prefix_colon r)) as [tl ->].
    destruct (unpack2 (w :: tl)) as [[node time]| |] eqn:Hu; [|done|done].
    ok_bind. apply unpack2_head in Hu. subst node. intros Hc.
    assert (c = mkConstraint used w ("U(" +:+ time +:+ ")")) by congruence.
    subst c. split; [done|]. by eexists _, _.
  - apply plus_word_colon in H2 as (w & r & -> & Hw & Hk).
    apply lit_inv in Hk as (r' & -> & _).
    destruct (split_word _ w _ Hw (prefix_colon2 "<" r')) as [tl ->].
    destruct (unpack2 (w :: tl)) as [[node time]| |] eqn:Hu; [|done|done].
    ok_bind. apply unpack2_head in Hu. subst node. intros Hc.
    assert (c = mkConstraint used w ("U(" +:+ time +:+ ")")) by congruence.
    subst c. split; [done|]. by eexists _, _.
  - apply plus_word_colon in H3 as (w & r & -> & Hw & Hk).
    apply lit_inv in Hk as (r' & -> & _).
    destruct (split_word _ w _ Hw (prefix_colon2 ">" r')) as [tl ->].
    destruct (unpack2 (w :: tl)) as [[node time]| |] eqn:Hu; [|done|done].
    ok_bind. apply unpack2_head in Hu. subst node. intros Hc.
    assert (c = mkConstraint used w ("L(" +:+ time +:+ ")")) by congruence.
    subst c. split; [done|]. by eexists _, _.
  - apply plus_word_colon in H4 as (w & r & -> & Hw & _).
    destruct (split_word EmptyString w r Hw (prefix_colon r)) as [tl ->].
    destruct (unpack2 (w :: tl)) as [[node time]| |] eqn:Hu; [|done|done].
    ok_bind. apply unpack2_head in Hu. subst node.
    destruct (index (Py.split "-" time) 0) as [t0| |]; [|done|done]. ok_bind.
    destruct (index (Py.split "-" time) 1) as [t1| |]; [|done|done]. ok_bind.
    intros Hc.
    assert (c = mkConstraint used w ("B(" +:+ (t0 +:+ ", " +:+ t1) +:+ ")"))
      by congruence.
    subst c. split; [done|]. by eexists _, _.
Qed.

Lemma word_not_prior s : Py.all_chars Py.is_word s = true -> ~ prior_like s.
Proof.
  intros Hw (k & r & ->). cbn in Hw.
  apply andb_true_iff in Hw as [_ Hw]. apply andb_true_iff in Hw as [Hw _].
  by vm_compute in Hw.
Qed.

Lemma split_go_cons sep : forall s k cur,
  exists a l, Py.split_go sep k cur s = a :: l.
Proof.
  induction s as [|c s IH]; intros k cur; cbn [Py.split_go]; [by eexists _, _|].
  destruct k; [|apply IH].
  destruct (String.prefix sep (String c s)); [by eexists _, _|apply IH].
Qed.

(** A line that is not well formed raises the format error. *)
Lemma parse_calibration_bad i :
  well_formed i = false -> parse_calibration i = Raise format_error.
Proof.
  unfold well_formed, parse_calibration. intros H.
  apply orb_false_iff in H as [H H4]. apply orb_false_iff in H as [H H3].
  apply orb_false_iff in H as [H1 H2]. rewrite H1, H2, H3, H4.
  unfold Py.split. destruct (split_go_cons ":" i 0 EmptyString) as (a & l & ->).
  done.
Qed.

(** ** The first loop *)

Lemma search_nodes_attached h A s :
  attached h A ->
  exists l, Ete.search_nodes h root s = Ok l
    /\ forall x, x ∈ l <-> x ∈ A /\ name (h !!! x) = s.
Proof.
  intros Hw. unfold Ete.search_nodes.
  destruct (traverse_attached Ete.Levelorder h A Hw) as (l & -> & _ & Hin).
  ok_bind. eexists. split; [done|]. intros x.
  by rewrite list_elem_of_filter, Hin, (comm and).
Qed.

Lemma parse_calibration_total i : parse_calibration i <> Timeout.
Proof.
  unfold parse_calibration.
  destruct (index (Py.split ":" i) 0) as [used| |] eqn:Hi; [|done|].
  2:{ unfold index in Hi. by destruct (_ !! _). }
  ok_bind.
  assert (Hu : forall l (f : string * string -> result constraint),
    (forall p, f p <> Timeout) -> unpack2 l ≫= f <> Timeout).
  { intros l f Hf. destruct l as [|a [|b [|? ?]]]; try done. apply Hf. }
  assert (Hx : forall (l : list string) n (f : string -> result constraint),
    (forall p, f p <> Timeout) -> index l n ≫= f <> Timeout).
  { intros l n f Hf. unfold index. destruct (l !! n); [apply Hf|done]. }
  destruct (Re.exact i); [apply Hu; by intros [? ?]|].
  destruct (Re.upper i); [apply Hu; by intros [? ?]|].
  destruct (Re.lower i); [apply Hu; by intros [? ?]|].
  destruct (Re.interval i); [|done].
  apply Hu. intros [node time]. apply Hx. intros t0. apply Hx. by intros t1.
Qed.

(** One turn of the first loop ends; it keeps the shape of the tree, and
    the names are those of the input tree or priors. *)
Lemma calibrate_line_inv h0 rn st i A :
  attached (cal_tree st) A -> named_from h0 (cal_tree st) ->
  match calibrate_line rn st i with
  | Ok st' => attached (cal_tree st') A /\ named_from h0 (cal_tree st')
  | Raise _ => True
  | Timeout => False
  end.
Proof.
  intros Hw Hn. unfold calibrate_line.
  destruct (parse_calibration i) as [c|e|] eqn:Hp; [|done|].
  2:{ by apply parse_calibration_total in Hp. }
  ok_bind. destruct (String.eqb (used_node c) rn); [done|].
  destruct (search_nodes_attached _ _ (cal_node c) Hw) as (l & -> & _).
  destruct l as [|n l]; [done|]. cbn [cal_tree].
  split; [by apply set_name_attached|].
  intros x. autorewrite with store. destruct (decide (x = n)); [|apply Hn].
  right. by apply (parse_calibration_ok i c).
Qed.

Lemma calibrate_inv h0 rn lines : forall st A,
  attached (cal_tree st) A -> named_from h0 (cal_tree st) ->
  match calibrate rn st lines with
  | Ok st' => attached (cal_tree st') A /\ named_from h0 (cal_tree st')
  | Raise _ => True
  | Timeout => False
  end.
Proof.
  induction lines as [|i lines IH]; intros st A Hw Hn; cbn [calibrate]; [done|].
  pose proof (calibrate_line_inv h0 rn st i A Hw Hn) as H1.
  destruct (calibrate_line rn st i) as [st1|e|]; [|done|done].
  ok_bind. destruct H1 as [Hw1 Hn1]. by apply IH.
Qed.

Lemma calibrate_app rn pre post : forall st,
  calibrate rn st (pre ++ post)
  = st1 ← calibrate rn st pre; calibrate rn st1 post.
Proof.
  induction pre as [|i pre IH]; intros st; [done|].
  cbn [calibrate app].
  destruct (calibrate_line rn st i) as [st1|e|]; [|done|done].
  ok_bind. apply IH.
Qed.

Lemma named_from_refl h : named_from h h.
Proof. intros x. by left. Qed.

(** What [_haplogroup_calibration] does when its first loop raises. *)
Lemma annotate_raise lines t e :
  calibrate (name (load t !!! root)) (cal_start t) lines = Raise e ->
  annotate lines t = Raise e.
Proof. unfold annotate, cal_start. by intros ->. Qed.

(** ** Errors of the first loop *)

(** C7, as stated, fails when an earlier line names an absent node: the
    run then ends with the lookup error of that line, not with a format
    error. *)
Lemma C7_error_preempted :
  ~ (forall t lines i,
       i ∈ lines -> well_formed i = false ->
       annotate lines t = Raise format_error).
Proof.
  intros H.
  specialize (H tree_ABCD ["Z:>50"; "B-100"] "B-100").
  discriminate H.
  - apply list_elem_of_further, list_elem_of_here.
  - vm_compute. reflexivity.
Qed.

(** C6: a constraint whose node name differs from the name of the root
    and matches no node of the input tree raises the lookup error as soon
    as its line is reached, that is when the lines before it are
    processed without an error: annotation, and with it
    [_haplogroup_calibration], ends with [lookup_error] whatever the
    lines after it are, and returns no tree. *)
Theorem C6_lookup_error t pre i post c st :
  calibrate (name (load t !!! root)) (cal_start t) pre = Ok st ->
  parse_calibration i = Ok c ->
  String.eqb (used_node c) (name (load t !!! root)) = false ->
  Ete.search_nodes (load t) root (cal_node c) = Ok [] ->
  calibrate_line (name (load t !!! root)) st i = Raise lookup_error
  /\ annotate (pre ++ i :: post) t = Raise lookup_error
  /\ forall isfile calibration,
       _get_calibration isfile calibration = pre ++ i :: post ->
       _haplogroup_calibration isfile calibration t = Raise lookup_error.
Proof.
  intros Hpre Hp Hroot Hsearch.
  pose proof (calibrate_inv (load t) (name (load t !!! root)) pre (cal_start t) _
                (load_attached t) (named_from_refl _)) as Hinv.
  rewrite Hpre in Hinv. destruct Hinv as [Hw Hn].
  assert (Hline : calibrate_line (name (load t !!! root)) st i = Raise lookup_error).
  { unfold calibrate_line. rewrite Hp. ok_bind. rewrite Hroot.
    destruct (search_nodes_attached _ _ (cal_node c) Hw) as (l & -> & Hl).
    destruct l as [|n l]; [done|]. exfalso.
    destruct (Hl n) as [[HnA Hname] _]; [by left|].
    destruct (Hn n) as [Heq|Hprior].
    - destruct (search_nodes_attached _ _ (cal_node c) (load_attached t))
        as (l0 & Hs0 & Hl0).
      assert (l0 = []) by congruence. subst l0.
      destruct (Hl0 n) as [_ Hin]. apply (elem_of_nil n). apply Hin.
      split; [done|]. by rewrite <- Heq.
    - rewrite Hname in Hprior.
      destruct (parse_calibration_ok i c Hp) as [Hword _].
      by apply (word_not_prior (cal_node c)). }
  assert (Ha : annotate (pre ++ i :: post) t = Raise lookup_error).
  { unfold annotate. change (mkCal (load t) None []) with (cal_start t).
    rewrite calibrate_app, Hpre. ok_bind. cbn [calibrate]. by rewrite Hline. }
  split; [done|]. split; [done|].
  intros isfile calibration Hlines.
  unfold _haplogroup_calibration. by rewrite Hlines, Ha.
Qed.

Lemma C6_lookup_error_witness :
  annotate ["B:100-200"; "Z:>50"; "D:<300"] tree_ABCD = Raise lookup_error
  /\ _haplogroup_calibration no_file "Z:>50" tree_ABCD = Raise lookup_error.
Proof.
  assert (Hcal : exists st,
    calibrate (name (load tree_ABCD !!! root)) (cal_start tree_ABCD) ["B:100-200"]
    = Ok st) by (eexists; vm_compute; reflexivity).
  destruct Hcal as [st Hcal].
  assert (Hcal0 : exists st,
    calibrate (name (load tree_ABCD !!! root)) (cal_start tree_ABCD) [] = Ok st)
    by (eexists; vm_compute; reflexivity).
  destruct Hcal0 as [st0 Hcal0].
  split.
  - exact (proj1 (proj2 (C6_lookup_error tree_ABCD ["B:100-200"] "Z:>50" ["D:<300"]
              (mkConstraint "Z" "Z" "L(50)") st Hcal eq_refl eq_refl eq_refl))).
  - exact (proj2 (proj2 (C6_lookup_error tree_ABCD [] "Z:>50" []
              (mkConstraint "Z" "Z" "L(50)") st0 Hcal0 eq_refl eq_refl eq_refl))
             no_file "Z:>50" eq_refl).
Defined.

(** C7, amended: a line of ASCII text that matches none of the four
    forms, the lines before it being ASCII text too, makes the run end
    with an error, so that no text of a tree is returned to be written,
    whatever the other lines are; the error is the format error when the
    lines before it are processed without an error, and the error of the
    first of them that raises otherwise.  The lines are those that
    [_get_calibration] reads, in which a line end CR LF of a file has
    become LF. *)
Theorem C7_format_error isfile calibration t pre i post :
  _get_calibration isfile calibration = pre ++ i :: post ->
  forallb Py.is_ascii pre = true ->
  Py.is_ascii i = true ->
  well_formed i = false ->
  annotate (pre ++ i :: post) t
  = match calibrate (name (load t !!! root)) (cal_start t) pre with
    | Ok _ => Raise format_error
    | Raise e => Raise e
    | Timeout => Timeout
    end
  /\ calibrate (name (load t !!! root)) (cal_start t) pre <> Timeout
  /\ exists e, _haplogroup_calibration isfile calibration t = Raise e.
Proof.
  intros Hlines _ _ Hbad.
  pose proof (calibrate_inv (load t) (name (load t !!! root)) pre (cal_start t) _
                (load_attached t) (named_from_refl _)) as Hinv.
  assert (Ha : annotate (pre ++ i :: post) t
    = match calibrate (name (load t !!! root)) (cal_start t) pre with
      | Ok _ => Raise format_error
      | Raise e => Raise e
      | Timeout => Timeout
      end).
  { unfold annotate. change (mkCal (load t) None []) with (cal_start t).
    rewrite calibrate_app.
    destruct (calibrate _ (cal_start t) pre) as [st|e|]; [|done|done].
    ok_bind. cbn [calibrate]. unfold calibrate_line.
    by rewrite (parse_calibration_bad i Hbad). }
  split; [done|]. split; [by destruct (calibrate _ _ pre)|].
  unfold _haplogroup_calibration. rewrite Hlines, Ha.
  destruct (calibrate _ (cal_start t) pre) as [st|e|]; [|by exists e|done].
  by exists format_error.
Qed.

Lemma C7_format_error_witness :
  _get_calibration bad_file "bad.txt"
  = ["B:100-200" +:+ Py.str1 Py.nl; "D=300" +:+ Py.str1 Py.nl;
     "A:5" +:+ Py.str1 Py.nl]
  /\ annotate (_get_calibration bad_file "bad.txt") tree_ABCD = Raise format_error
  /\ exists e, _haplogroup_calibration bad_file "bad.txt" tree_ABCD = Raise e.
Proof.
  destruct (C7_format_error bad_file "bad.txt" tree_ABCD
              ["B:100-200" +:+ Py.str1 Py.nl] ("D=300" +:+ Py.str1 Py.nl)
              ["A:5" +:+ Py.str1 Py.nl]) as (H & _ & He).
  - vm_compute. reflexivity.
  - vm_compute. reflexivity.
  - vm_compute. reflexivity.
  - vm_compute. reflexivity.
  - split; [vm_compute; reflexivity|]. split; [|exact He].
    etrans; [|etrans; [exact H|]]; vm_compute; reflexivity.
Defined.

(** ** The root age *)

Lemma ctl_get_RootAge p a age :
  ctl_get "RootAge" (fst (ctl_parameters p a age))
  = match age with
    | Some s => if Py.is_empty s then None else Some (Some s)
    | None => None
    end.
Proof.
  unfold ctl_parameters. destruct (choose_mcmc (arg_mcmc a)) as [m lg].
  destruct age as [s|]; [destruct (Py.is_empty s)|]; reflexivity.
Qed.

Lemma prior_not_empty s : prior_like s -> Py.is_empty s = false.
Proof. by intros (k & r & ->). Qed.

Lemma calibrate_line_root_age rn st i st' :
  calibrate_line rn st i = Ok st' ->
  root_age st'
  = match parse_calibration i with
    | Ok c => if String.eqb (used_node c) rn then Some (cal_time c)
              else root_age st
    | _ => root_age st
    end.
Proof.
  unfold calibrate_line.
  destruct (parse_calibration i) as [c|e|]; [|done|done]. ok_bind.
  destruct (String.eqb (used_node c) rn).
  - intros H. assert (Hst : st' = mkCal (cal_tree st) (Some (cal_time c))
                     (used_nodes st ++ [used_node c])) by congruence.
    by subst st'.
  - destruct (Ete.search_nodes _ _ _) as [[|n l]|e|]; try done.
    intros H. assert (Hst : st' = mkCal (Ete.set_name (cal_tree st) n (cal_time c))
                     (root_age st) (used_nodes st ++ [used_node c])) by congruence.
    by subst st'.
Qed.

(** The first loop leaves in [root_age] the prior of the last line that
    names the root. *)
Lemma calibrate_root_age rn lines : forall st st',
  calibrate rn st lines = Ok st' ->
  root_age st'
  = match root_prior rn lines with Some s => Some s | None => root_age st end.
Proof.
  induction lines as [|i lines IH]; intros st st'; cbn [calibrate root_prior].
  - intros H. assert (st' = st) by congruence. by subst st'.
  - destruct (calibrate_line rn st i) as [st1|e|] eqn:H1; [|done|done]. ok_bind.
    intros H. rewrite (IH st1 st' H).
    destruct (root_prior rn lines) as [s|]; [done|].
    rewrite (calibrate_line_root_age rn st i st1 H1).
    destruct (parse_calibration i) as [c|e|]; [|done|done].
    by destruct (String.eqb (used_node c) rn).
Qed.

Lemma root_prior_like rn lines s : root_prior rn lines = Some s -> prior_like s.
Proof.
  induction lines as [|i lines IH]; [done|]. cbn [root_prior].
  destruct (root_prior rn lines) as [s'|].
  - intros H. apply IH. congruence.
  - destruct (parse_calibration i) as [c|e|] eqn:Hp; [|done|done].
    destruct (String.eqb (used_node c) rn); [|done].
    intros H. assert (s = cal_time c) by congruence. subst s.
    by apply (parse_calibration_ok i c).
Qed.

(** ** The table of node times *)

Lemma index_nth (l : list string) n :
  n < length l -> index l n = Ok (nth n l EmptyString).
Proof.
  intros Hn. unfold index. rewrite nth_lookup.
  destruct (lookup_lt_is_Some_2 l n Hn) as [x ->]. done.
Qed.

Lemma index_lookup {A} (l : list A) n x : l !! n = Some x -> index l n = Ok x.
Proof. unfold index. by intros ->. Qed.

Lemma time_row_ok time_info num node_name line :
  time_info !! num = Some line -> 6 <= length (fields line) ->
  time_row time_info num node_name = Ok (row_text node_name (fields line)).
Proof.
  intros Hl H6. unfold time_row. rewrite (index_lookup _ _ _ Hl). ok_bind.
  rewrite !index_nth by lia. by repeat ok_bind.
Qed.

Lemma unnamed_before_cons node nodes k :
  unnamed_before (node :: nodes) (S k)
  = (if Py.is_empty (label_of node) then 1 else 0) + unnamed_before nodes k.
Proof.
  unfold unnamed_before. cbn [take List.filter].
  by destruct (Py.is_empty (label_of node)).
Qed.

(** The loop pairs the [k]-th qualifying node with the [k]-th record
    from [num] on. *)
Lemma summarize_nodes_spec time_info : forall nodes num j,
  (forall k, k < length (List.filter qualifies nodes) ->
     exists line, time_info !! (num + k) = Some line
                  /\ 6 <= length (fields line)) ->
  exists rows,
    summarize_nodes time_info nodes num j = (rows, Ok tt)
    /\ length rows = length (List.filter qualifies nodes)
    /\ forall k node line,
         List.filter qualifies nodes !! k = Some node ->
         time_info !! (num + k) = Some line ->
         rows !! k
         = Some (row_text (row_name j (List.filter qualifies nodes) k node)
                   (fields line)).
Proof.
  induction nodes as [|node nodes IH]; intros num j H.
  - exists []. by split.
  - cbn [summarize_nodes List.filter]. cbn [List.filter] in H.
    destruct (qualifies node) eqn:Hq; [|by apply IH].
    destruct (H 0) as (line0 & Hl0 & H60); [cbn; lia|].
    rewrite Nat.add_0_r in Hl0.
    set (j' := if Py.is_empty (label_of node) then S j else j).
    destruct (IH (S num) j') as (rows & Hrun & Hlen & Hrows).
    { intros k Hk. destruct (H (S k)) as (line & Hl & H6); [cbn; lia|].
      exists line. split; [|done]. by replace (S num + k) with (num + S k) by lia. }
    exists (row_text (row_name j (node :: List.filter qualifies nodes) 0 node)
              (fields line0) :: rows).
    split; [|split].
    + unfold row_name, unnamed_before. cbn [take List.filter length].
      rewrite Nat.add_0_r. subst j'.
      destruct (Py.is_empty (label_of node));
        rewrite (time_row_ok _ _ _ line0 Hl0 H60), Hrun; done.
    + cbn. by rewrite Hlen.
    + intros [|k] nd line Hnd Hline.
      * rewrite Nat.add_0_r in Hline. cbn in Hnd.
        assert (nd = node) by congruence. assert (line = line0) by congruence.
        by subst.
      * change (List.filter qualifies nodes !! k = Some nd) in Hnd.
        change ((?x :: ?l) !! S k) with (l !! k).
        replace (num + S k) with (S num + k) in Hline by lia.
        rewrite (Hrows k nd line Hnd Hline). do 2 f_equal.
        unfold row_name. rewrite unnamed_before_cons. subst j'.
        destruct (Py.is_empty (label_of nd)); [|done].
        destruct (Py.is_empty (label_of node)); do 2 f_equal; lia.
Qed.

Lemma find_head_skip out_info l head :
  no_marker l = true ->
  foldl (fun head i =>
           if Py.startswith "Posterior mean" i
           then Some (list_index i out_info) else head) head l = head.
Proof.
  revert head. induction l as [|x l IH]; intros head Hl; [done|].
  cbn [no_marker forallb] in Hl. apply andb_true_iff in Hl as [Hx Hl].
  cbn [foldl]. apply negb_true_iff in Hx. rewrite Hx. by apply IH.
Qed.

Lemma list_index_app pre m post :
  Py.startswith "Posterior mean" m = true -> no_marker pre = true ->
  list_index m (pre ++ m :: post) = length pre.
Proof.
  intros Hm. induction pre as [|x pre IH]; intros Hpre; cbn [list_index app length].
  - by rewrite String.eqb_refl.
  - cbn [no_marker forallb] in Hpre. apply andb_true_iff in Hpre as [Hx Hpre].
    destruct (String.eqb_spec x m) as [->|_].
    + rewrite Hm in Hx. done.
    + by rewrite IH.
Qed.

(** With one line that starts with the marker, [head_num] is its
    position. *)
Lemma find_head_unique pre m post :
  Py.startswith "Posterior mean" m = true -> no_marker (pre ++ post) = true ->
  find_head (pre ++ m :: post) = Some (length pre).
Proof.
  intros Hm Hno. unfold no_marker in Hno. rewrite forallb_app in Hno.
  apply andb_true_iff in Hno as [Hpre Hpost].
  unfold find_head. rewrite foldl_app. cbn [foldl].
  rewrite (find_head_skip _ pre None Hpre), Hm.
  rewrite (find_head_skip _ post _ Hpost).
  by rewrite list_index_app.
Qed.

Lemma enough_records_spec n time_info k :
  enough_records n time_info = true -> k < n ->
  exists line, time_info !! k = Some line /\ 6 <= length (fields line).
Proof.
  unfold enough_records. intros H Hk. apply andb_true_iff in H as [Hn Hall].
  apply Nat.leb_le in Hn.
  destruct (lookup_lt_is_Some_2 time_info k ltac:(lia)) as [line Hline].
  exists line. split; [done|].
  rewrite forallb_forall in Hall. apply Nat.leb_le, Hall.
  apply list_elem_of_In, (list_elem_of_lookup_2 _ k).
  by rewrite lookup_take_lt.
Qed.

(** C2, as stated, fails when the output holds the marker line but not a
    record for every node: the call then ends with [IndexError] after
    the header, with fewer rows than nodes. *)
Lemma C2_short_output :
  ~ (forall t out_info,
       (exists i, i ∈ out_info /\ Py.startswith "Posterior mean" i = true) ->
       exists rows,
         _summarize_result t out_info = (header_row :: rows, Ok tt)
         /\ length rows = length (qualifying t)).
Proof.
  intros H. destruct (H tree_ABCD [marker_line]) as (rows & Hr & _).
  - exists marker_line. split; [apply list_elem_of_here|reflexivity].
  - vm_compute in Hr. congruence.
Qed.

(** C2, amended: when one line of the output starts with the marker and
    the block that starts two lines after it and ends three lines before
    the end of the output holds, for each inner node with more than one
    child, a record with at least six fields, the call ends without an
    error and writes the header and one row for each of these nodes, in
    preorder; the [k]-th row pairs the [k]-th of these nodes with the
    [k]-th record of the block. *)
Theorem C2_rows t pre m post :
  Py.startswith "Posterior mean" m = true ->
  no_marker (pre ++ post) = true ->
  enough_records (length (qualifying t))
    (Py.slice_neg (length pre + 2) 3 (pre ++ m :: post)) = true ->
  exists rows,
    _summarize_result t (pre ++ m :: post) = (header_row :: rows, Ok tt)
    /\ length rows = length (qualifying t)
    /\ forall k node line,
         qualifying t !! k = Some node ->
         Py.slice_neg (length pre + 2) 3 (pre ++ m :: post) !! k = Some line ->
         rows !! k
         = Some (row_text (row_name 0 (qualifying t) k node) (fields line)).
Proof.
  intros Hm Hno Hen. unfold _summarize_result.
  rewrite (find_head_unique pre m post Hm Hno).
  destruct (summarize_nodes_spec
              (Py.slice_neg (length pre + 2) 3 (pre ++ m :: post))
              (preorder t) 0 0) as (rows & Hrun & Hlen & Hrows).
  { intros k Hk. by apply (enough_records_spec _ _ k Hen). }
  exists rows. cbv zeta. rewrite Hrun. done.
Qed.

Lemma C2_rows_witness :
  exists rows,
    _summarize_result tree_ABCD (out_before ++ marker_line :: out_after)
    = (header_row :: rows, Ok tt)
    /\ length rows = 3.
Proof.
  destruct (C2_rows tree_ABCD out_before marker_line out_after)
    as (rows & Hr & Hlen & _).
  - reflexivity.
  - reflexivity.
  - vm_compute. reflexivity.
  - exists rows. split; [exact Hr|]. rewrite Hlen. reflexivity.
Defined.

(** ** Priors of inner nodes *)

(** [used_node] and [cal_node] of a line that is read are the same
    word. *)
Lemma parse_calibration_used i c :
  parse_calibration i = Ok c -> used_node c = cal_node c.
Proof.
  unfold parse_calibration.
  assert (Hused : forall w r used,
    Py.all_chars Py.is_word w = true ->
    index (Py.split ":" (w +:+ String ":" r)) 0 = Ok used -> used = w).
  { intros w r used Hw.
    destruct (split_word EmptyString w r Hw (prefix_colon r)) as [tl ->].
    cbn. congruence. }
  destruct (index (Py.split ":" i) 0) as [used| |] eqn:Hi; [|done|done]. ok_bind.
  destruct (Re.exact i) eqn:H1; [|destruct (Re.upper i) eqn:H2;
    [|destruct (Re.lower i) eqn:H3; [|destruct (Re.interval i) eqn:H4; [|done]]]].
  - apply plus_word_colon in H1 as (w & r & -> & Hw & _).
    apply Hused in Hi; [|done]. subst used.
    destruct (split_word EmptyString w r Hw (prefix_colon r)) as [tl ->].
    destruct (unpack2 (w :: tl)) as [[node time]| |] eqn:Hu; [|done|done].
    ok_bind. apply unpack2_head in Hu. subst node. intros Hc.
    assert (c = mkConstraint w w ("U(" +:+ time +:+ ")")) by congruence.
    by subst c.
  - apply plus_word_colon in H2 as (w & r & -> & Hw & Hk).
    apply Hused in Hi; [|done]. subst used.
    apply lit_inv in Hk as (r' & -> & _).
    destruct (split_word _ w _ Hw (prefix_colon2 "<" r')) as [tl ->].
    destruct (unpack2 (w :: tl)) as [[node time]| |] eqn:Hu; [|done|done].
    ok_bind. apply unpack2_head in Hu. subst node. intros Hc.
    assert (c = mkConstraint w w ("U(" +:+ time +:+ ")")) by congruence.
    by subst c.
  - apply plus_word_colon in H3 as (w & r & -> & Hw & Hk).
    apply Hused in Hi; [|done]. subst used.
    apply lit_inv in Hk as (r' & -> & _).
    destruct (split_word _ w _ Hw (prefix_colon2 ">" r')) as [tl ->].
    destruct (unpack2 (w :: tl)) as [[node time]| |] eqn:Hu; [|done|done].
    ok_bind. apply unpack2_head in Hu. subst node. intros Hc.
    assert (c = mkConstraint w w ("L(" +:+ time +:+ ")")) by congruence.
    by subst c.
  - apply plus_word_colon in H4 as (w & r & -> & Hw & _).
    apply Hused in Hi; [|done]. subst used.
    destruct (split_word EmptyString w r Hw (prefix_colon r)) as [tl ->].
    destruct (unpack2 (w :: tl)) as [[node time]| |] eqn:Hu; [|done|done].
    ok_bind. apply unpack2_head in Hu. subst node.
    destruct (index (Py.split "-" time) 0) as [t0| |]; [|done|done]. ok_bind.
    destruct (index (Py.split "-" time) 1) as [t1| |]; [|done|done]. ok_bind.
    intros Hc.
    assert (c = mkConstraint w w ("B(" +:+ (t0 +:+ ", " +:+ t1) +:+ ")"))
      by congruence.
    by subst c.
Qed.

Lemma calibrate_line_used rn st i st' :
  calibrate_line rn st i = Ok st' ->
  Forall (fun s => Py.all_chars Py.is_word s = true) (used_nodes st) ->
  Forall (fun s => Py.all_chars Py.is_word s = true) (used_nodes st').
Proof.
  unfold calibrate_line.
  destruct (parse_calibration i) as [c|e|] eqn:Hp; [|done|done]. ok_bind.
  assert (Hw : Py.all_chars Py.is_word (used_node c) = true).
  { rewrite (parse_calibration_used i c Hp). by apply (parse_calibration_ok i c). }
  destruct (String.eqb (used_node c) rn).
  - intros H Hall.
    assert (Hst : st' = mkCal (cal_tree st) (Some (cal_time c))
                    (used_nodes st ++ [used_node c])) by congruence.
    subst st'. cbn. apply Forall_app. split; [done|]. by constructor.
  - destruct (Ete.search_nodes _ _ _) as [[|n l]|e|]; try done.
    intros H Hall.
    assert (Hst : st' = mkCal (Ete.set_name (cal_tree st) n (cal_time c))
                    (root_age st) (used_nodes st ++ [used_node c])) by congruence.
    subst st'. cbn. apply Forall_app. split; [done|]. by constructor.
Qed.

Lemma calibrate_used rn lines : forall st st',
  calibrate rn st lines = Ok st' ->
  Forall (fun s => Py.all_chars Py.is_word s = true) (used_nodes st) ->
  Forall (fun s => Py.all_chars Py.is_word s = true) (used_nodes st').
Proof.
  induction lines as [|i lines IH]; intros st st'; cbn [calibrate].
  - intros H. assert (st' = st) by congruence. by subst st'.
  - destruct (calibrate_line rn st i) as [st1|e|] eqn:H1; [|done|done]. ok_bind.
    intros H Hall. apply (IH st1 st' H). by apply (calibrate_line_used rn st i).
Qed.

Lemma str_in_spec x l : str_in x l = true -> x ∈ l.
Proof.
  unfold str_in. intros H. apply existsb_exists in H as (y & Hy & Heq).
  apply String.eqb_eq in Heq. subst y. by apply list_elem_of_In.
Qed.

(** X17: the second loop erases the prior of every constrained node that has
    children: when [_haplogroup_calibration] returns, no node below the
    root that has children bears a name of the shape of a prior. *)
Lemma inner_prior_erased lines t st :
  calibrate (name (load t !!! root)) (cal_start t) lines = Ok st ->
  exists h text,
    annotate lines t = Ok (h, text, root_age st)
    /\ forall x, in_tree h x = true -> x <> root -> Ete.is_leaf h x = false ->
         ~ prior_like (name (h !!! x)).
Proof.
  intros Hcal.
  destruct (annotate_spec lines t st Hcal)
    as (h & A & V & l & body & Hr & Hw0 & _ & Hw & _ & _ & _ & _ & Hrun).
  eexists h, _. split; [exact Hr|]. intros x Hx Hxr Hleaf Hprior.
  pose proof (calibrate_used _ _ _ _ Hcal (Forall_nil_2 _)) as Hused.
  destruct (annotate_loop_names _ _ _ _ Hw0 Hrun x Hx Hxr Hleaf) as [Hn|Hn].
  - rewrite Hn in Hprior. destruct Hprior as (k & r & Heq). discriminate Heq.
  - apply str_in_spec in Hn. rewrite Forall_forall in Hused.
    by apply (word_not_prior _ (Hused _ Hn)).
Qed.

(** C1 on the example of the specification: for the tree [((A,(B,C)),D);]
    and the constraint [B:100-200] the text written is
    [((A,(B_100_ 200_,C)),D);].  The leaf [B] is renamed [B(100, 200)], and
    the writer replaces the parentheses and the comma of the name by [_]:
    the text does not contain [B(100, 200)].  For a constrained node that
    is not a leaf, [H] in [((A,B)H,C);], the second loop finds the new name
    [B(100, 200)] absent from [used_nodes], which holds [H], and renames
    the node [NoName]: the text is [((A,B),C);]. *)
Theorem C1_prior_text_not_written :
  (_haplogroup_calibration no_file "B:100-200" tree_ABCD
   = Ok (tree_file_text 4 "((A,(B_100_ 200_,C)),D);", None)
   /\ Py.contains "B(100, 200)" (tree_file_text 4 "((A,(B_100_ 200_,C)),D);") = false)
  /\ (_haplogroup_calibration no_file "H:100-200" tree_H
      = Ok (tree_file_text 3 "((A,B),C);", None)).
Proof. vm_compute. done. Qed.

(** ** The four forms of a calibration line *)

Lemma all_chars_impl (p q : ascii -> bool) s :
  (forall c, p c = true -> q c = true) ->
  Py.all_chars p s = true -> Py.all_chars q s = true.
Proof.
  intros Hpq. induction s as [|c s IH]; [done|]. cbn.
  intros H. apply andb_true_iff in H as [Hc Hs].
  by rewrite (Hpq c Hc), IH.
Qed.

Lemma all_chars_app p a b :
  Py.all_chars p (a +:+ b) = Py.all_chars p a && Py.all_chars p b.
Proof.
  induction a as [|c a IH]; [done|].
  change (String c a +:+ b) with (String c (a +:+ b)). cbn.
  by rewrite IH, andb_assoc.
Qed.

(** [span] stops where the class stops. *)
Lemma span_app p a r :
  Py.all_chars p a = true ->
  match r with EmptyString => true | String c _ => negb (p c) end = true ->
  Py.span p (a +:+ r) = (a, r).
Proof.
  intros Ha Hr. induction a as [|c a IH].
  - change (EmptyString +:+ r) with r. destruct r as [|c r]; [done|].
    cbn. apply negb_true_iff in Hr. by rewrite Hr.
  - change (String c a +:+ r) with (String c (a +:+ r)). cbn in Ha |- *.
    apply andb_true_iff in Ha as [Hc Ha]. by rewrite Hc, IH.
Qed.

Lemma plus_app p k a r :
  Py.all_chars p a = true ->
  match r with EmptyString => true | String c _ => negb (p c) end = true ->
  Re.plus p k (a +:+ r) = negb (Py.is_empty a) && k r.
Proof. intros Ha Hr. unfold Re.plus. by rewrite span_app. Qed.

Lemma split_go_first sc sep' r : forall a cur,
  Py.all_chars (other_than sc) a = true ->
  String.prefix (String sc sep') (String sc r) = true ->
  Py.split_go (String sc sep') 0 cur (a +:+ String sc r)
  = (cur +:+ a) :: Py.split_go (String sc sep') (String.length sep') EmptyString r.
Proof.
  induction a as [|y a IH]; intros cur Ha Hpre.
  - change (EmptyString +:+ String sc r) with (String sc r).
    cbn [Py.split_go]. rewrite Hpre, append_empty.
    by replace (String.length (String sc sep') - 1) with (String.length sep')
      by (cbn [String.length]; lia).
  - cbn in Ha. apply andb_true_iff in Ha as [Hy Ha].
    change (String y a +:+ String sc r) with (String y (a +:+ String sc r)).
    cbn [Py.split_go].
    replace (String.prefix (String sc sep') (String y (a +:+ String sc r)))
      with false.
    + rewrite (IH (cur +:+ Py.str1 y) Ha Hpre). f_equal. by rewrite append_assoc.
    + rewrite prefix_cons. destruct (ascii_dec sc y) as [<-|]; [|done].
      unfold other_than in Hy. by rewrite Ascii.eqb_refl in Hy.
Qed.

Lemma split_go_none sc sep' : forall r cur,
  Py.all_chars (other_than sc) r = true ->
  Py.split_go (String sc sep') 0 cur r = [cur +:+ r].
Proof.
  induction r as [|y r IH]; intros cur Hr.
  - cbn. by rewrite append_empty.
  - cbn in Hr. apply andb_true_iff in Hr as [Hy Hr]. cbn [Py.split_go].
    replace (String.prefix (String sc sep') (String y r)) with false.
    + rewrite (IH _ Hr). f_equal. by rewrite append_assoc.
    + rewrite prefix_cons. destruct (ascii_dec sc y) as [<-|]; [|done].
      unfold other_than in Hy. by rewrite Ascii.eqb_refl in Hy.
Qed.

(** [a.split(sc)] and [a.split(sc + c)] where [sc] occurs once. *)
Lemma split_once sc a r :
  Py.all_chars (other_than sc) a = true ->
  Py.all_chars (other_than sc) r = true ->
  Py.split (String sc EmptyString) (a +:+ String sc r) = [a; r].
Proof.
  intros Ha Hr. unfold Py.split. rewrite split_go_first; [|done|].
  - cbn [String.length]. by rewrite split_go_none.
  - rewrite prefix_cons. destruct (ascii_dec sc sc); [apply prefix_empty|done].
Qed.

Lemma split_once2 sc c a r :
  Py.all_chars (other_than sc) a = true ->
  Py.all_chars (other_than sc) r = true ->
  Py.split (String sc (String c EmptyString)) (a +:+ String sc (String c r))
  = [a; r].
Proof.
  intros Ha Hr. unfold Py.split. rewrite split_go_first; [|done|].
  - cbn [String.length Py.split_go]. by rewrite split_go_none.
  - rewrite prefix_cons. destruct (ascii_dec sc sc); [|done].
    rewrite prefix_cons. destruct (ascii_dec c c); [apply prefix_empty|done].
Qed.

Lemma word_other c : Py.is_word c = true -> other_than ":" c = true.
Proof.
  intros Hc. unfold other_than. destruct (Ascii.eqb_spec c ":") as [->|]; [|done].
  by vm_compute in Hc.
Qed.

Lemma digit_other x c :
  Py.is_digit x = false -> Py.is_digit c = true -> other_than x c = true.
Proof.
  intros Hx Hc. unfold other_than. destruct (Ascii.eqb_spec c x) as [->|]; [|done].
  congruence.
Qed.

Lemma line_end_cases e : line_end e = true -> e = EmptyString \/ e = Py.str1 Py.nl.
Proof.
  unfold line_end. destruct e as [|c e]; [by left|]. cbn [Py.is_empty orb].
  intros H. apply String.eqb_eq in H. by right.
Qed.

Lemma is_name_inv s :
  is_name s = true -> Py.is_empty s = false /\ Py.all_chars Py.is_word s = true.
Proof.
  unfold is_name. intros H. apply andb_true_iff in H as [H1 H2].
  by apply negb_true_iff in H1.
Qed.

Lemma is_time_inv s :
  is_time s = true ->
  exists d s', s = String d s' /\ Py.is_digit d = true
               /\ Py.all_chars Py.is_digit s = true.
Proof.
  unfold is_time. intros H. apply andb_true_iff in H as [H1 H2].
  destruct s as [|d s']; [done|]. exists d, s'. split; [done|]. split; [|done].
  cbn in H2. by apply andb_true_iff in H2 as [? _].
Qed.

(** The part of a line after the colon: a time and the end of the line. *)
Lemma time_end_other x T e :
  is_time T = true -> line_end e = true ->
  Py.is_digit x = false -> other_than x Py.nl = true ->
  Py.all_chars (other_than x) (T +:+ e) = true.
Proof.
  intros HT He Hx Hnl. apply is_time_inv in HT as (d & T' & _ & _ & HT).
  rewrite all_chars_app. apply andb_true_iff. split.
  - apply (all_chars_impl Py.is_digit); [|done]. intros c. by apply digit_other.
  - destruct (line_end_cases e He) as [->| ->]; [done|]. cbn. by rewrite Hnl.
Qed.

Lemma re_name k name rest :
  is_name name = true ->
  Re.plus Py.is_word (Re.lit ":" k) (name +:+ String ":" rest) = k rest.
Proof.
  intros Hn. apply is_name_inv in Hn as [Hne Hw].
  rewrite plus_app by done. by rewrite Hne.
Qed.

Lemma re_time T e :
  is_time T = true -> line_end e = true ->
  Re.plus Py.is_digit Re.eol (T +:+ e) = true.
Proof.
  intros HT He. apply is_time_inv in HT as (d & T' & -> & _ & HT).
  destruct (line_end_cases e He) as [->| ->]; by rewrite plus_app.
Qed.

Lemma re_time_dash T T2 e :
  is_time T = true -> is_time T2 = true ->
  Re.plus Py.is_digit Re.eol (T +:+ String "-" (T2 +:+ e)) = false.
Proof.
  intros HT HT2. apply is_time_inv in HT as (d & T' & -> & _ & HT).
  apply is_time_inv in HT2 as (d2 & T2' & -> & _ & _).
  by rewrite plus_app.
Qed.

Lemma re_lit_time (x : ascii) k T r :
  is_time T = true -> Py.is_digit x = false -> Re.lit x k (T +:+ r) = false.
Proof.
  intros HT Hx. apply is_time_inv in HT as (d & T' & -> & Hd & _).
  change (String d T' +:+ r) with (String d (T' +:+ r)). cbn [Re.lit].
  destruct (Ascii.eqb_spec d x) as [->|]; [congruence|done].
Qed.

(** X16: what each of the four forms gives.  [e] is the end of the line: for a
    literal argument it is empty and the prior is the one the
    specification gives; for a line that [readlines] returns with its line
    feed, the line feed stays in the prior, before the closing
    parenthesis. *)
Theorem parse_calibration_forms name T T2 e :
  is_name name = true -> is_time T = true -> is_time T2 = true ->
  line_end e = true ->
  parse_calibration (name +:+ ":" +:+ T +:+ e)
  = Ok (mkConstraint name name ("U(" +:+ (T +:+ e) +:+ ")"))
  /\ parse_calibration (name +:+ ":<" +:+ T +:+ e)
     = Ok (mkConstraint name name ("U(" +:+ (T +:+ e) +:+ ")"))
  /\ parse_calibration (name +:+ ":>" +:+ T +:+ e)
     = Ok (mkConstraint name name ("L(" +:+ (T +:+ e) +:+ ")"))
  /\ parse_calibration (name +:+ ":" +:+ T +:+ "-" +:+ T2 +:+ e)
     = Ok (mkConstraint name name
             ("B(" +:+ (T +:+ ", " +:+ (T2 +:+ e)) +:+ ")")).
Proof.
  intros Hn HT HT2 He.
  destruct (is_name_inv name Hn) as [_ Hw].
  assert (Hwc : Py.all_chars (other_than ":") name = true).
  { apply (all_chars_impl Py.is_word); [apply word_other|done]. }
  assert (Hc : Py.all_chars (other_than ":") (T +:+ e) = true)
    by (by apply time_end_other).
  assert (Hc2 : Py.all_chars (other_than ":") (T2 +:+ e) = true)
    by (by apply time_end_other).
  assert (Hd2 : Py.all_chars (other_than "-") (T2 +:+ e) = true)
    by (by apply time_end_other).
  assert (Hd : Py.all_chars (other_than "-") T = true).
  { apply is_time_inv in HT as (d & T' & _ & _ & HT).
    apply (all_chars_impl Py.is_digit); [|done]. intros c. by apply digit_other. }
  assert (HcT : Py.all_chars (other_than ":") T = true).
  { apply is_time_inv in HT as (d & T' & _ & _ & HT).
    apply (all_chars_impl Py.is_digit); [|done]. intros c. by apply digit_other. }
  split; [|split; [|split]]; unfold parse_calibration.
  - change (name +:+ ":" +:+ T +:+ e) with (name +:+ String ":" (T +:+ e)).
    rewrite split_once by done. cbn [index lookup list_lookup]. ok_bind.
    unfold Re.exact. rewrite re_name, re_time by done. done.
  - change (name +:+ ":<" +:+ T +:+ e)
      with (name +:+ String ":" (String "<" (T +:+ e))).
    rewrite split_once by (cbn; by rewrite ?Hc).
    cbn [index lookup list_lookup]. ok_bind.
    unfold Re.exact, Re.upper. rewrite !re_name by done.
    replace (Re.plus Py.is_digit Re.eol (String "<" (T +:+ e))) with false
      by reflexivity.
    cbn [Re.lit]. rewrite re_time by done. cbn [Ascii.eqb Bool.eqb andb].
    by rewrite split_once2.
  - change (name +:+ ":>" +:+ T +:+ e)
      with (name +:+ String ":" (String ">" (T +:+ e))).
    rewrite split_once by (cbn; by rewrite ?Hc).
    cbn [index lookup list_lookup]. ok_bind.
    unfold Re.exact, Re.upper, Re.lower. rewrite !re_name by done.
    replace (Re.plus Py.is_digit Re.eol (String ">" (T +:+ e))) with false
      by reflexivity.
    cbn [Re.lit]. rewrite re_time by done. cbn [Ascii.eqb Bool.eqb andb].
    by rewrite split_once2.
  - change (name +:+ ":" +:+ T +:+ "-" +:+ T2 +:+ e)
      with (name +:+ String ":" (T +:+ String "-" (T2 +:+ e))).
    assert (Hc4 : Py.all_chars (other_than ":") (T +:+ String "-" (T2 +:+ e)) = true).
    { rewrite all_chars_app, HcT. cbn. by rewrite Hc2. }
    rewrite split_once by done. cbn [index lookup list_lookup]. ok_bind.
    unfold Re.exact, Re.upper, Re.lower, Re.interval. rewrite !re_name by done.
    rewrite re_time_dash, !re_lit_time by done.
    assert (HT' : Py.is_empty T = false /\ Py.all_chars Py.is_digit T = true).
    { apply is_time_inv in HT as (d & T' & -> & _ & HT). by split. }
    destruct HT' as [HTe HTd].
    rewrite plus_app by done. rewrite HTe. cbn [negb andb Re.lit].
    rewrite re_time by done. cbn [Ascii.eqb Bool.eqb andb]. cbn [unpack2]. ok_bind.
    cbv beta iota. rewrite split_once by done. cbn [index lookup list_lookup]. by repeat ok_bind.
Qed.

(** C4 on a line read from a file: [readlines] keeps the line feed of the
    line, the patterns accept it before their [$], and [split] leaves it in
    the time, so that the prior of the line [B:100-200] of [cal.txt] is
    [B(100, 200] followed by a line feed and [)]. *)
Theorem C4_file_line_keeps_line_feed :
  _get_calibration one_file "cal.txt"
  = ["B:100-200" +:+ Py.str1 Py.nl; "R:>50" +:+ Py.str1 Py.nl]
  /\ cal_time <$> parse_calibration ("B:100-200" +:+ Py.str1 Py.nl)
     = Ok ("B(100, 200" +:+ Py.str1 Py.nl +:+ ")")
  /\ cal_time <$> parse_calibration "B:100-200" = Ok "B(100, 200)".
Proof. vm_compute. done. Qed.

(** ** The sequence file *)

Lemma for_each_index (seqs : list (list ascii)) i :
  Forall (fun s => i < length s) seqs ->
  for_each (fun s => index s i) seqs = Ok (column_of seqs i).
Proof.
  induction 1 as [|s seqs Hs _ IH]; [done|]. cbn [for_each column_of map].
  destruct (lookup_lt_is_Some_2 s i Hs) as [c Hc].
  rewrite (index_lookup _ _ _ Hc). ok_bind. rewrite IH. ok_bind.
  do 2 f_equal. rewrite nth_lookup. by rewrite Hc.
Qed.

Lemma index_none {A} (l : list A) n : l !! n = None -> index l n = Raise IndexError.
Proof. unfold index. by intros ->. Qed.

Lemma for_each_index_short (seqs : list (list ascii)) i :
  Exists (fun s => length s <= i) seqs ->
  for_each (fun s => index s i) seqs = Raise IndexError.
Proof.
  induction seqs as [|s seqs IH]; intros H; [by apply Exists_nil in H|].
  cbn [for_each].
  destruct (s !! i) as [c|] eqn:Hc; [|by rewrite (index_none _ _ Hc)].
  rewrite (index_lookup _ _ _ Hc). ok_bind.
  apply Exists_cons in H as [H|H].
  - apply lookup_lt_Some in Hc. lia.
  - by rewrite IH.
Qed.

Lemma length_column_of seqs i : length (column_of seqs i) = length seqs.
Proof. unfold column_of. by rewrite length_map. Qed.

(** The loop keeps the columns that pass, in their order. *)
Lemma filter_columns_ok rate_below seqs positions :
  Forall (fun i => Forall (fun s => i < length s) seqs) positions ->
  filter_columns rate_below seqs positions
  = Ok (map (column_of seqs)
          (List.filter
             (fun i => rate_below (N_count (column_of seqs i)) (length seqs))
             positions)).
Proof.
  induction 1 as [|i positions Hi _ IH]; [done|].
  cbn [filter_columns List.filter]. rewrite (for_each_index seqs i Hi). ok_bind.
  rewrite IH. ok_bind. rewrite length_column_of.
  by destruct (rate_below _ _).
Qed.

(** The loop raises [IndexError] when a sequence has no character at one
    of the positions. *)
Lemma filter_columns_short rate_below seqs positions :
  Exists (fun i => Exists (fun s => length s <= i) seqs) positions ->
  filter_columns rate_below seqs positions = Raise IndexError.
Proof.
  induction positions as [|i positions IH]; intros H; [by apply Exists_nil in H|].
  cbn [filter_columns].
  destruct (for_each (fun s => index s i) seqs) as [col|e|] eqn:Hcol.
  - ok_bind. apply Exists_cons in H as [H|H].
    + rewrite (for_each_index_short seqs i H) in Hcol. done.
    + by rewrite IH.
  - assert (He : forall l, for_each (fun s : list ascii => index s i) l = Raise e
                           -> e = IndexError).
    { clear. induction l as [|s l IHl]; [done|]. cbn [for_each].
      destruct (s !! i) as [c|] eqn:Hc;
        [|rewrite (index_none _ _ Hc); cbn; congruence].
      rewrite (index_lookup _ _ _ Hc). ok_bind.
      destruct (for_each _ l) as [ys|e'|]; [by cbn| |by cbn].
      cbn. intros H. apply IHl. congruence. }
    by rewrite (He seqs Hcol).
  - exfalso. revert Hcol. clear. induction seqs as [|s l IHl]; [done|].
    cbn [for_each].
    destruct (s !! i) as [c|] eqn:Hc; [|by rewrite (index_none _ _ Hc)].
    rewrite (index_lookup _ _ _ Hc). ok_bind.
    destruct (for_each _ l) as [ys|e'|]; [by cbn|by cbn|]. by intros _; apply IHl.
Qed.

Lemma map_nth_seq {A B} (g : A -> B) d (l : list A) : forall pre,
  map (fun j => g (nth j (pre ++ l) d)) (seq (length pre) (length l)) = map g l.
Proof.
  induction l as [|x l IH]; intros pre; [done|]. cbn [length seq map]. f_equal.
  - by rewrite app_nth2, Nat.sub_diag by lia.
  - specialize (IH (pre ++ [x])). rewrite length_app, <- app_assoc in IH.
    cbn in IH. by rewrite Nat.add_1_r in IH.
Qed.

Lemma nth_column_of seqs i j :
  nth j (column_of seqs i) " "%char = nth i (nth j seqs []) " "%char.
Proof.
  unfold column_of.
  rewrite <- (map_nth (fun s : list ascii => nth i s " "%char) seqs [] j).
  f_equal. by destruct i.
Qed.

(** The rows of the transposed columns are the sequences cut down to the
    positions of the columns. *)
Lemma np_transpose_columns seqs positions :
  positions <> [] ->
  np_transpose (map (column_of seqs) positions) = map (select positions) seqs.
Proof.
  destruct positions as [|k ks]; [done|]. intros _. unfold np_transpose.
  cbn [map]. rewrite length_column_of.
  rewrite <- (map_nth_seq (select (k :: ks)) [] seqs []). cbn [app length].
  apply map_ext. intros j. unfold select. cbn [map].
  f_equal; [apply nth_column_of|].
  rewrite map_map. apply map_ext. intros i. apply nth_column_of.
Qed.

Lemma foldl_max x l : foldl Nat.max x l = Nat.max x (list_max l).
Proof.
  revert x. induction l as [|y l IH]; intros x; cbn [foldl list_max fold_right].
  - lia.
  - rewrite IH. change (fold_right Init.Nat.max 0 l) with (list_max l). lia.
Qed.

Lemma py_max_cons x l : py_max (x :: l) = Ok (list_max (x :: l)).
Proof. unfold py_max. by rewrite foldl_max. Qed.

Lemma zip_with_lines_map f (g : list ascii -> list ascii)
    (msa : list (string * list ascii)) :
  zip_with_lines f (map g (map snd msa)) (map fst msa)
  = map (fun r => f (g (snd r)) (fst r)) msa.
Proof.
  induction msa as [|[id s] msa IH]; [done|]. cbn. by rewrite <- IH.
Qed.

Lemma Forall_seq_lt (P : nat -> Prop) len :
  (forall i, i < len -> P i) -> Forall P (seq 0 len).
Proof.
  intros H. apply Forall_forall. intros i Hi.
  apply list_elem_of_In, in_seq in Hi. apply H. lia.
Qed.

Lemma seq_file_text_filtered ks (msa : list (string * list ascii)) :
  seq_file_text (map (fun r => (fst r, select ks (snd r))) msa) (length ks)
  = Py.str_of_nat (length (map fst msa)) +:+ " " +:+ Py.str_of_nat (length ks)
    +:+ Py.str1 Py.nl
    +:+ Py.join EmptyString
          (map (fun r => seq_line (list_max (map String.length (map fst msa)))
                           (select ks (snd r)) (fst r)) msa).
Proof.
  unfold seq_file_text. rewrite !map_map, !length_map. cbn [fst snd].
  reflexivity.
Qed.

(** X1: with a filter, [_clean_alignment] writes for each record its
    sequence cut down to the positions whose column passes the filter, in
    their order; the header holds the number of records and the number of
    these positions, which is the length of every sequence written. *)
Theorem clean_alignment_filtered rate_below msa :
  filterable rate_below msa = true ->
  _clean_alignment true rate_below msa
  = Ok (seq_file_text (filtered rate_below msa)
          (length (kept_positions rate_below msa)))
  /\ Forall (fun r => length (snd r) = length (kept_positions rate_below msa))
       (filtered rate_below msa).
Proof.
  intros H. split.
  2:{ unfold filtered. apply Forall_forall. intros r Hr.
      apply list_elem_of_fmap in Hr as (r0 & -> & _). cbn. unfold select.
      by rewrite length_map. }
  unfold filtered. rewrite seq_file_text_filtered.
  unfold filterable, kept_positions, _clean_alignment in *.
  destruct msa as [|[id0 s0] msa]; [done|].
  cbn [map fst snd] in H |- *.
  apply andb_true_iff in H as [Hlen Hkept].
  set (seqs := s0 :: map snd msa) in *.
  rewrite (index_lookup seqs 0 s0) by done. ok_bind.
  rewrite filter_columns_ok.
  2:{ apply Forall_seq_lt. intros i Hi. rewrite forallb_forall in Hlen.
      apply Forall_forall. intros s Hs. apply list_elem_of_In, Hlen in Hs.
      apply Nat.leb_le in Hs. lia. }
  ok_bind. fold (kept rate_below seqs (length s0)) in *.
  set (ks := kept rate_below seqs (length s0)) in *.
  assert (Hks : ks <> []).
  { intros Hnil. rewrite Hnil in Hkept. done. }
  rewrite (np_transpose_columns _ ks Hks). ok_bind.
  rewrite py_max_cons. ok_bind. subst seqs. cbn [map].
  rewrite (index_lookup _ 0 (select ks s0)) by done. ok_bind.
  cbn [zip_with_lines]. rewrite zip_with_lines_map. unfold select at 1.
  by rewrite length_map.
Qed.

Lemma clean_alignment_filtered_witness :
  _clean_alignment true below_fifth msa_example
  = Ok ("3 3" +:+ Py.str1 Py.nl
        +:+ "a     ACT" +:+ Py.str1 Py.nl
        +:+ "bb    ACT" +:+ Py.str1 Py.nl
        +:+ "ccc   ACT" +:+ Py.str1 Py.nl).
Proof.
  destruct (clean_alignment_filtered below_fifth msa_example) as [H _].
  - reflexivity.
  - etrans; [exact H|]. vm_compute. reflexivity.
Defined.

Lemma forallb_false_exists {A} (f : A -> bool) l :
  forallb f l = false -> exists x, In x l /\ f x = false.
Proof.
  induction l as [|x l IH]; [done|]. cbn. intros H.
  apply andb_false_iff in H as [H|H].
  - exists x. by split; [left|].
  - destruct (IH H) as (y & Hy & Hf). exists y. by split; [right|].
Qed.

(** X2: with a filter, [_clean_alignment] raises [IndexError], before
    anything is written, when the alignment has no record, when a
    sequence is shorter than the first one, or when no column passes the
    filter. *)
Theorem clean_alignment_index_error rate_below msa :
  filterable rate_below msa = false ->
  _clean_alignment true rate_below msa = Raise IndexError.
Proof.
  unfold filterable, kept_positions, _clean_alignment.
  destruct msa as [|[id0 s0] msa]; [done|].
  cbn [map fst snd]. set (seqs := s0 :: map snd msa).
  rewrite (index_lookup seqs 0 s0) by done. ok_bind.
  destruct (forallb _ seqs) eqn:Hlen; cbn [andb].
  - intros Hkept. apply negb_false_iff, Nat.eqb_eq in Hkept.
    rewrite filter_columns_ok.
    2:{ apply Forall_seq_lt. intros i Hi. rewrite forallb_forall in Hlen.
        apply Forall_forall. intros s Hs. apply list_elem_of_In, Hlen in Hs.
        apply Nat.leb_le in Hs. lia. }
    ok_bind. fold (kept rate_below seqs (length s0)).
    apply length_zero_iff_nil in Hkept. rewrite Hkept. cbn [map np_transpose].
    ok_bind. by rewrite py_max_cons.
  - intros _. rewrite filter_columns_short; [done|].
    apply forallb_false_exists in Hlen as (s & Hs & Hshort).
    apply Nat.leb_gt in Hshort. apply Exists_exists. exists (length s).
    split; [apply list_elem_of_In, in_seq; lia|].
    apply Exists_exists. exists s. split; [by apply list_elem_of_In|lia].
Qed.

Lemma clean_alignment_index_error_witness :
  _clean_alignment true below_fifth [] = Raise IndexError
  /\ _clean_alignment true below_fifth msa_short = Raise IndexError
  /\ _clean_alignment true below_fifth msa_missing = Raise IndexError.
Proof.
  split; [|split]; apply clean_alignment_index_error; reflexivity.
Defined.

(** X3: without a filter, which is also what the value 0 of [--filter]
    gives, [_clean_alignment] writes every sequence as it is, whatever
    its characters and its length, under a header that holds the number
    of records and the length of the first sequence; an alignment without
    records raises [ValueError]. *)
Theorem clean_alignment_unfiltered rate_below msa :
  _clean_alignment false rate_below msa
  = match msa with
    | [] => Raise ValueError
    | (_, first) :: _ => Ok (seq_file_text msa (length first))
    end.
Proof.
  unfold _clean_alignment, seq_file_text.
  destruct msa as [|[id0 s0] msa]; [reflexivity|]. ok_bind.
  cbn [map fst snd]. rewrite py_max_cons. ok_bind.
  rewrite (index_lookup _ 0 s0) by done. ok_bind.
  cbn [zip_with_lines map fst snd length].
  pose proof (zip_with_lines_map
    (seq_line (list_max (String.length id0 :: map String.length (map fst msa))))
    (fun s => s) msa) as Hz.
  rewrite map_id in Hz. by rewrite Hz, !length_map.
Qed.

(** ** The control file *)

Lemma get_model_known nm : str_in nm model_names = true <-> is_Some (_get_model nm).
Proof.
  unfold _get_model, str_in, model_names. cbn [existsb].
  repeat (destruct (String.eqb nm _); [by split|]). cbn.
  split; [done|]. by intros [? ?].
Qed.

Lemma length_spaces n : String.length (spaces n) = n.
Proof. induction n as [|n IH]; [done|]. cbn. by rewrite IH. Qed.

Lemma length_append a b :
  String.length (a +:+ b) = String.length a + String.length b.
Proof.
  induction a as [|c a IH]; [done|].
  change (String c a +:+ b) with (String c (a +:+ b)). cbn. by rewrite IH.
Qed.

(** Every line written has its key right-aligned in a field of
    [max_length] characters. *)
Lemma write_ctl_layout max_length d line :
  Forall (fun kv => String.length (fst kv) <= max_length) d ->
  line ∈ fst (write_ctl max_length d) ->
  exists field key value,
    line = field +:+ " = " +:+ value +:+ Py.str1 Py.nl
    /\ String.length field = max_length
    /\ field = spaces (max_length - String.length key) +:+ key
    /\ (key, Some value) ∈ d.
Proof.
  induction 1 as [|[key [value|]] d Hk _ IH]; cbn [write_ctl].
  - intros H. by apply elem_of_nil in H.
  - destruct (write_ctl max_length d) as [lines r]. cbn [fst] in *.
    intros H. apply elem_of_cons in H as [->|H].
    + exists (spaces (max_length - String.length key) +:+ key), key, value.
      cbn [fst] in Hk. split; [|split; [|split]].
      * unfold ctl_line. by rewrite append_assoc.
      * rewrite length_append, length_spaces. lia.
      * done.
      * by left.
    + destruct (IH H) as (f & k & v & ? & ? & ? & ?).
      exists f, k, v. by repeat (split; [done|]); right.
  - intros H. by apply elem_of_nil in H.
Qed.

Lemma ctl_parameters_keys p a auto :
  map fst (fst (ctl_parameters p a auto))
  = ["seed"; "seqfile"; "treefile"; "mcmcfile"; "outfile"; "ndata"; "seqtype";
     "usedata"; "clock"; "model"; "alpha"; "ncatG"; "cleandata"; "BDparas";
     "kappa_gamma"; "alpha_gamma"; "rgene_gamma"; "print"; "burnin";
     "sampfreq"; "nsample"]
    ++ (if truthy auto then ["RootAge"] else []).
Proof.
  unfold ctl_parameters. destruct (choose_mcmc (arg_mcmc a)) as [m lg].
  destruct auto as [s|]; [destruct (Py.is_empty s) eqn:Hs|]; cbn; by rewrite ?Hs.
Qed.

(** With a rate other than zero and a known model the control file is
    written to its end. *)
Lemma generate_mcmc_ctl_ok p a auto :
  arg_rate_zero a = false -> str_in (arg_model a) model_names = true ->
  snd (fst (_generate_mcmc_ctl p a auto)) = Ok tt.
Proof.
  intros Hrate Hmodel.
  apply (get_model_known (arg_model a)) in Hmodel as [v Hv].
  unfold _generate_mcmc_ctl, _calculate_mutation_rate, ctl_parameters.
  rewrite Hrate, Hv. destruct (choose_mcmc (arg_mcmc a)) as [m lg].
  destruct auto as [s|]; [destruct (Py.is_empty s) eqn:Hs|]; cbn;
    rewrite ?Hs; done.
Qed.

(** X4: [_generate_mcmc_ctl] raises [ZeroDivisionError] before it writes
    anything when the mutation rate is zero, whatever the model.  For
    another rate it writes the control file to its end, 21 lines and one
    more for [RootAge], when the model is one of the six names
    [_get_model] knows; for any other name the value of [model] is [None]
    and the call raises [TypeError] after the nine lines before [model].
    The warning on the number of steps is logged in each case. *)
Theorem generate_mcmc_ctl_model p a auto :
  snd (fst (_generate_mcmc_ctl p a auto))
  = (if arg_rate_zero a then Raise ZeroDivisionError
     else if str_in (arg_model a) model_names then Ok tt
     else Raise concat_none_error)
  /\ length (fst (fst (_generate_mcmc_ctl p a auto)))
     = (if arg_rate_zero a then 0
        else if str_in (arg_model a) model_names
        then 21 + (if truthy auto then 1 else 0) else 9)
  /\ snd (_generate_mcmc_ctl p a auto) = snd (choose_mcmc (arg_mcmc a)).
Proof.
  pose proof (get_model_known (arg_model a)) as Hm.
  unfold _generate_mcmc_ctl, _calculate_mutation_rate, ctl_parameters.
  destruct (choose_mcmc (arg_mcmc a)) as [m lg].
  destruct (arg_rate_zero a); [done|].
  destruct (str_in (arg_model a) model_names).
  - destruct Hm as [Hm _]. destruct (Hm eq_refl) as [v ->].
    destruct auto as [s|]; [destruct (Py.is_empty s) eqn:Hs|]; cbn;
      rewrite ?Hs; done.
  - destruct (_get_model (arg_model a)) as [v|] eqn:Hv.
    { destruct Hm as [_ Hm]. by discriminate Hm. }
    destruct auto as [s|]; [destruct (Py.is_empty s) eqn:Hs|]; cbn; done.
Qed.

(** The end of [run_mcmc], lines 420 to 423, when the alignment is
    cleaned, the rate is not zero and the model is known. *)
Lemma run_mcmc_end p a (text : string) (auto : option string) log1 seq_file :
  _clean_alignment (arg_filter a) (arg_rate_below a) (arg_seq a) = Ok seq_file ->
  arg_rate_zero a = false ->
  str_in (arg_model a) model_names = true ->
  exists lines log2,
    (seq_file ← _clean_alignment (arg_filter a) (arg_rate_below a) (arg_seq a);
     let '(lines, outcome, log2) := _generate_mcmc_ctl p a auto in
     _ ← outcome;
     Ok (mkPrepared text seq_file lines (fst (ctl_parameters p a auto))
           (log1 ++ log2)))
    = Ok (mkPrepared text seq_file lines (fst (ctl_parameters p a auto))
            (log1 ++ log2)).
Proof.
  intros Hclean Hrate Hmodel. rewrite Hclean. ok_bind.
  pose proof (generate_mcmc_ctl_ok p a auto Hrate Hmodel) as Hout.
  destruct (_generate_mcmc_ctl p a auto) as [[lines outcome] log2].
  cbn [fst snd] in Hout. subst outcome. by exists lines, log2.
Qed.

(** C9: with [--auto] and a calibration, when the first loop of
    [_haplogroup_calibration] ends without an error and the files of the
    alignment and of the parameters are written (the alignment is cleaned
    without an error, the mutation rate is not zero and the model is
    known), the run is prepared, and whatever the table of the automatic
    lookup holds, the parameter [RootAge] is the prior of the constraint
    that names the root, and no parameter [RootAge] is set when no
    constraint names the root. *)
Theorem C9_root_age isfile prior_calibration p a c st seq_file :
  arg_auto a = true -> arg_calibration a = Some c -> Py.is_empty c = false ->
  calibrate (name (load (arg_tree a) !!! root)) (cal_start (arg_tree a))
    (_get_calibration isfile c) = Ok st ->
  _clean_alignment (arg_filter a) (arg_rate_below a) (arg_seq a) = Ok seq_file ->
  arg_rate_zero a = false ->
  str_in (arg_model a) model_names = true ->
  exists r, run_mcmc isfile prior_calibration p a = Ok r
    /\ seq_text r = seq_file
    /\ ctl_get "RootAge" (parameters r)
       = option_map Some
           (root_prior (name (load (arg_tree a) !!! root))
              (_get_calibration isfile c)).
Proof.
  intros Hauto Hc Hne Hcal Hclean Hrate Hmodel.
  destruct (annotate_spec _ _ _ Hcal)
    as (h & A & V & l & body & Hr & _).
  pose proof (calibrate_root_age _ _ _ _ Hcal) as Hage. cbn [cal_start root_age] in Hage.
  unfold run_mcmc. rewrite Hauto, Hc, Hne. cbn [orb negb].
  destruct (_get_root_age prior_calibration (arg_tree a)) as [auto log1].
  unfold _haplogroup_calibration. rewrite Hr. ok_bind. cbv beta iota. ok_bind.
  cbv beta iota.
  destruct (run_mcmc_end p a
              (tree_file_text (length l) (Py.replace "NoName" "" body))
              (root_age st) log1 seq_file Hclean Hrate Hmodel)
    as (lines & log2 & ->).
  eexists. split; [reflexivity|]. cbn [parameters seq_text]. split; [done|].
  rewrite ctl_get_RootAge, Hage.
  destruct (root_prior _ _) as [s|] eqn:Hs; [|done].
  by rewrite (prior_not_empty s (root_prior_like _ _ _ Hs)).
Qed.

Lemma C9_root_age_witness :
  exists r,
    run_mcmc no_file table_example paths_example args_example = Ok r
    /\ ctl_get "RootAge" (parameters r) = Some (Some "B(100, 200)")
    /\ fst (_get_root_age table_example tree_named_unary) = Some "B(1, 2)".
Proof.
  assert (Hcal : exists st,
    calibrate (name (load tree_named_unary !!! root)) (cal_start tree_named_unary)
      (_get_calibration no_file "R:100-200") = Ok st)
    by (eexists; vm_compute; reflexivity).
  destruct Hcal as [st Hcal].
  assert (Hclean : exists s,
    _clean_alignment true below_fifth msa_example = Ok s)
    by (eexists; vm_compute; reflexivity).
  destruct Hclean as [s Hclean].
  destruct (C9_root_age no_file table_example paths_example args_example
              "R:100-200" st s) as (r & Hr & _ & Hage).
  - reflexivity.
  - reflexivity.
  - reflexivity.
  - exact Hcal.
  - exact Hclean.
  - reflexivity.
  - reflexivity.
  - exists r. split; [exact Hr|]. split; [|vm_compute; reflexivity].
    etrans; [exact Hage|]. vm_compute. reflexivity.
Defined.

(** X5: in every line of the control file the key is right-aligned in a
    field of eleven characters, the length of the longest key, so that
    the equals signs of all lines stand in one column. *)
Theorem generate_mcmc_ctl_layout p a auto line :
  line ∈ fst (fst (_generate_mcmc_ctl p a auto)) ->
  exists field key value,
    line = field +:+ " = " +:+ value +:+ Py.str1 Py.nl
    /\ String.length field = 11
    /\ field = spaces (11 - String.length key) +:+ key
    /\ (key, Some value) ∈ fst (ctl_parameters p a auto).
Proof.
  unfold _generate_mcmc_ctl.
  pose proof (ctl_parameters_keys p a auto) as Hkeys.
  destruct (ctl_parameters p a auto) as [d lg]. cbn [fst] in Hkeys |- *.
  destruct (_calculate_mutation_rate a) as [rgene|e|];
    [|intros H; by apply elem_of_nil in H..].
  assert (Hlen : map (fun kv : string * option string => String.length (fst kv)) d
                 = map String.length (map fst d)) by (by rewrite map_map).
  rewrite Hlen, Hkeys.
  assert (Hmax : py_max (map String.length
      (["seed"; "seqfile"; "treefile"; "mcmcfile"; "outfile"; "ndata";
        "seqtype"; "usedata"; "clock"; "model"; "alpha"; "ncatG"; "cleandata";
        "BDparas"; "kappa_gamma"; "alpha_gamma"; "rgene_gamma"; "print";
        "burnin"; "sampfreq"; "nsample"]
       ++ (if truthy auto then ["RootAge"] else []))) = Ok 11)
    by (by destruct (truthy auto)).
  rewrite Hmax. cbn [fst]. apply write_ctl_layout.
  apply Forall_forall. intros [k v] Hkv.
  assert (Hk : k ∈ map fst d).
  { apply list_elem_of_fmap. by exists (k, v). }
  rewrite Hkeys in Hk. cbn [fst].
  destruct (truthy auto); cbn in Hk;
    repeat (apply elem_of_cons in Hk as [->|Hk]; [cbn; lia|]);
    by apply elem_of_nil in Hk.
Qed.

Lemma generate_mcmc_ctl_layout_witness :
  exists field key value,
    ("    outfile = out.out.txt" +:+ Py.str1 Py.nl)
    = field +:+ " = " +:+ value +:+ Py.str1 Py.nl
    /\ String.length field = 11
    /\ field = spaces (11 - String.length key) +:+ key
    /\ (key, Some value) ∈ fst (ctl_parameters paths_example args_example None).
Proof.
  apply (generate_mcmc_ctl_layout paths_example args_example None).
  vm_compute. do 4 apply list_elem_of_further. apply list_elem_of_here.
Defined.

(** ** The table of node times: errors *)

Lemma find_head_some out_info l head :
  no_marker l = false \/ is_Some head ->
  is_Some (foldl (fun head i =>
                    if Py.startswith "Posterior mean" i
                    then Some (list_index i out_info) else head) head l).
Proof.
  revert head. induction l as [|x l IH]; intros head H.
  - destruct H as [H|H]; [done|]. done.
  - cbn [foldl]. apply IH. destruct (Py.startswith "Posterior mean" x) eqn:Hx.
    + by right.
    + destruct H as [H|H]; [|by right]. left.
      cbn [no_marker forallb] in H. by rewrite Hx in H.
Qed.

Lemma time_row_bad time_info num node_name :
  bad_record time_info num = true ->
  time_row time_info num node_name = Raise IndexError.
Proof.
  unfold bad_record, time_row. destruct (time_info !! num) as [line|] eqn:Hl.
  - intros H. apply Nat.ltb_lt in H. rewrite (index_lookup _ _ _ Hl). ok_bind.
    destruct (fields line !! 1) as [f1|] eqn:H1;
      [rewrite (index_lookup _ _ _ H1)|by rewrite (index_none _ _ H1)]. ok_bind.
    destruct (fields line !! 4) as [f4|] eqn:H4;
      [rewrite (index_lookup _ _ _ H4)|by rewrite (index_none _ _ H4)]. ok_bind.
    rewrite (index_none (fields line) 5); [done|].
    apply lookup_ge_None. lia.
  - intros _. by rewrite (index_none _ _ Hl).
Qed.

(** The loop ends with [Ok] or with [IndexError]. *)
Lemma summarize_nodes_outcome time_info : forall nodes num j,
  snd (summarize_nodes time_info nodes num j) = Ok tt
  \/ snd (summarize_nodes time_info nodes num j) = Raise IndexError.
Proof.
  induction nodes as [|node nodes IH]; intros num j; [by left|].
  cbn [summarize_nodes]. destruct (qualifies node); [|apply IH].
  set (nm := if Py.is_empty (label_of node) then _ else _).
  destruct nm as [node_name j'].
  destruct (bad_record time_info num) eqn:Hbad.
  - rewrite (time_row_bad _ _ _ Hbad). by right.
  - unfold bad_record in Hbad. destruct (time_info !! num) as [line|] eqn:Hl; [|done].
    apply Nat.ltb_ge in Hbad. rewrite (time_row_ok _ _ _ line Hl Hbad).
    specialize (IH (S num) j').
    destruct (summarize_nodes time_info nodes (S num) j') as [rows r]. exact IH.
Qed.

(** X6: when no line of the output starts with [Posterior mean],
    [_summarize_result] raises [NameError] before the table is opened;
    otherwise it writes the header first and ends without an error or
    with [IndexError]. *)
Theorem summarize_result_outcome t out_info :
  if no_marker out_info
  then _summarize_result t out_info = ([], Raise NameError)
  else exists rows,
         fst (_summarize_result t out_info) = header_row :: rows
         /\ (snd (_summarize_result t out_info) = Ok tt
             \/ snd (_summarize_result t out_info) = Raise IndexError).
Proof.
  unfold _summarize_result, find_head.
  destruct (no_marker out_info) eqn:Hno.
  - by rewrite (find_head_skip out_info out_info None Hno).
  - destruct (find_head_some out_info out_info None (or_introl Hno)) as [head ->].
    pose proof (summarize_nodes_outcome
                  (Py.slice_neg (head + 2) 3 out_info) (preorder t) 0 0) as Ho.
    cbv zeta. destruct (summarize_nodes _ _ 0 0) as [rows r]. by exists rows.
Qed.

Lemma summarize_nodes_partial time_info : forall nodes num c j,
  (forall k, k < j ->
     exists line, time_info !! (num + k) = Some line
                  /\ 6 <= length (fields line)) ->
  bad_record time_info (num + j) = true ->
  j < length (List.filter qualifies nodes) ->
  exists rows,
    summarize_nodes time_info nodes num c = (rows, Raise IndexError)
    /\ length rows = j.
Proof.
  induction nodes as [|node nodes IH]; intros num c j Hok Hbad Hj.
  - cbn in Hj. lia.
  - cbn [summarize_nodes List.filter] in *.
    destruct (qualifies node); [|by apply IH].
    set (nm := if Py.is_empty (label_of node) then _ else _).
    destruct nm as [node_name c'].
    destruct j as [|j].
    + rewrite Nat.add_0_r in Hbad. rewrite (time_row_bad _ _ _ Hbad).
      by exists [].
    + destruct (Hok 0) as (line & Hl & H6); [lia|]. rewrite Nat.add_0_r in Hl.
      rewrite (time_row_ok _ _ _ line Hl H6).
      destruct (IH (S num) c' j) as (rows & -> & Hlen).
      * intros k Hk. destruct (Hok (S k)) as (l & Hl' & H6'); [lia|].
        exists l. split; [|done]. by replace (S num + k) with (num + S k) by lia.
      * by replace (S num + j) with (num + S j) by lia.
      * cbn in Hj. lia.
      * eexists. split; [done|]. cbn. by rewrite Hlen.
Qed.

(** X7: when the block of records holds a record with six fields for the
    first [j] nodes only, [_summarize_result] raises [IndexError] at the
    next node, after it has written the header and [j] rows. *)
Theorem summarize_result_partial t pre m post j :
  Py.startswith "Posterior mean" m = true ->
  no_marker (pre ++ post) = true ->
  enough_records j (Py.slice_neg (length pre + 2) 3 (pre ++ m :: post)) = true ->
  bad_record (Py.slice_neg (length pre + 2) 3 (pre ++ m :: post)) j = true ->
  j < length (qualifying t) ->
  exists rows,
    _summarize_result t (pre ++ m :: post) = (header_row :: rows, Raise IndexError)
    /\ length rows = j.
Proof.
  intros Hm Hno Hen Hbad Hj. unfold _summarize_result.
  rewrite (find_head_unique pre m post Hm Hno).
  destruct (summarize_nodes_partial
              (Py.slice_neg (length pre + 2) 3 (pre ++ m :: post))
              (preorder t) 0 0 j) as (rows & Hrun & Hlen); try done.
  { intros k Hk. by apply (enough_records_spec _ _ k Hen). }
  exists rows. cbv zeta. by rewrite Hrun.
Qed.

Lemma summarize_result_partial_witness :
  exists rows,
    _summarize_result tree_ABCD (out_before ++ marker_line :: out_cut)
    = (header_row :: rows, Raise IndexError)
    /\ length rows = 1.
Proof.
  apply (summarize_result_partial tree_ABCD out_before marker_line out_cut 1);
    vm_compute; (reflexivity || lia).
Defined.

(** ** Trees that the pruning loop leaves as they are *)

Lemma prune_body_keep h n :
  ~ unnamed_unary h n -> prune_body n h = Ok h.
Proof.
  intros Hn. unfold prune_body.
  destruct (Ete.is_leaf h n) eqn:Hleaf; [done|].
  destruct (Nat.eqb_spec (length (children (h !!! n))) 1) as [Hlen|]; [|done].
  destruct (unnamed h n) eqn:Hu; [|done].
  exfalso. apply Hn. split; [done|]. by apply unnamed_spec.
Qed.

Lemma prune_loop_fixed h A :
  attached h A ->
  (forall x, x ∈ A -> x <> root -> ~ unnamed_unary h x) ->
  for_descendants prune_body h = Ok h.
Proof.
  intros Hw Hno. unfold for_descendants.
  destruct (for_traverse_start Ete.Preorder true
    (fun n '(h, u) => h' ← prune_body n h; Ok (h', u))
    (fun h' A' V (_ : unit) => h' = h /\ A' = A) h A tt)
    as (h' & A' & V' & [] & -> & _ & _ & -> & _); try done.
  intros h1 A1 V [] n Hw1 [-> ->] Hn HnV Hsk. cbn in Hsk.
  apply Nat.eqb_neq in Hsk.
  exists h, A, tt. rewrite (prune_body_keep h n (Hno n Hn Hsk)).
  split; [done|]. split; [by apply step_ok_id|done].
Qed.

(** X8: the pruning loop is idempotent: on the tree that
    [_read_tree_file] leaves, a second pass of the loop changes
    nothing. *)
Theorem read_tree_file_idempotent t :
  exists h text,
    _read_tree_file t = Ok (h, text)
    /\ for_descendants prune_body h = Ok h.
Proof.
  destruct (read_tree_file_spec t)
    as (h & A & V & l & body & Hr & Hw & Hsub & HP & _).
  exists h, (tree_file_text (length l) body). split; [done|].
  apply (prune_loop_fixed h A Hw). intros x Hx Hxr Hu.
  destruct (pruning_normalized _ _ _ _ _ (load_attached _) Hw Hsub HP)
    as (_ & _ & _ & _ & Hnone).
  apply (Hnone x); try done. by apply (in_tree_attached h A).
Qed.

Lemma load_children_count t x u :
  preorder t !! x = Some u ->
  length (children (load t !!! x)) = length (kids_of u).
Proof.
  intros Hu. destruct (load_block t) as [_ Hi].
  assert (Hx : x < length (preorder t)) by (by apply lookup_lt_Some in Hu).
  assert (Hn : length (preorder t) = tree_size t).
  { apply (f_equal length) in Hi. by rewrite !length_map, length_seq in Hi. }
  apply (f_equal (fun l => l !! x)) in Hi.
  rewrite !list_lookup_fmap, Hu in Hi.
  rewrite lookup_seq_lt in Hi by lia. cbn in Hi.
  unfold node_info, tree_info in Hi. congruence.
Qed.

Lemma reparse9_preorder t x u :
  preorder t !! x = Some u ->
  exists u', preorder (reparse9 t) !! x = Some u'
             /\ length (kids_of u') = length (kids_of u).
Proof.
  intros Hu. pose proof (reparse9_info t) as Hi.
  apply (f_equal (fun l => l !! x)) in Hi.
  rewrite !list_lookup_fmap, Hu in Hi. cbn in Hi.
  destruct (preorder (reparse9 t) !! x) as [u'|]; [|done].
  exists u'. split; [done|]. cbn in Hi. unfold tree_info in Hi. cbn in Hi.
  congruence.
Qed.

Lemma length_preorder t : length (preorder t) = tree_size t.
Proof.
  destruct (load_block t) as [_ Hi]. apply (f_equal length) in Hi.
  by rewrite !length_map, length_seq in Hi.
Qed.

(** X9: a tree in which no node other than the root has exactly one
    child passes through [_read_tree_file] as it is read back from the
    format 9 text: the loop removes nothing, and the header holds the
    number of leaves of the tree. *)
Theorem read_tree_file_unchanged t :
  no_unary_below t = true ->
  exists body,
    Newick.write Newick.F9 (load (reparse9 t)) root = Ok body
    /\ _read_tree_file t
       = Ok (load (reparse9 t), tree_file_text (length (leaf_names t)) body).
Proof.
  intros Hno.
  pose proof (load_attached (reparse9 t)) as Hw.
  assert (Hfix : for_descendants prune_body (load (reparse9 t))
                 = Ok (load (reparse9 t))).
  { apply (prune_loop_fixed _ _ Hw). intros x Hx Hxr [Hlen _].
    apply elem_of_set_seq in Hx.
    assert (Hsize : tree_size (reparse9 t) = tree_size t).
    { pose proof (reparse9_info t) as Hi. apply (f_equal length) in Hi.
      by rewrite !length_map, !length_preorder in Hi. }
    destruct (lookup_lt_is_Some_2 (preorder t) x) as [u Hu].
    { rewrite length_preorder. lia. }
    destruct (reparse9_preorder t x u Hu) as (u' & Hu' & Hk).
    rewrite (load_children_count _ x u' Hu'), Hk in Hlen.
    unfold no_unary_below in Hno. rewrite forallb_forall in Hno.
    assert (Hin : In u (tail (preorder t))).
    { destruct x as [|x]; [done|]. destruct (preorder t) as [|u0 l]; [done|].
      cbn in Hu |- *. by apply list_elem_of_In, (list_elem_of_lookup_2 _ x). }
    apply Hno in Hin. by rewrite Hlen in Hin. }
  destruct (iter_leaves_attached _ _ Hw) as (l & Hl & _).
  destruct (write_with_ok (Newick.name_text Newick.F9) _ _ Hw) as [body Hb].
  exists body. split; [exact Hb|]. unfold _read_tree_file.
  rewrite Hfix. ok_bind. rewrite Hl. ok_bind. unfold Newick.write. rewrite Hb.
  ok_bind. do 3 f_equal.
  rewrite (leaves_count _ (reparse9 t) l Hw) by done. apply reparse9_leaves.
Qed.

Lemma read_tree_file_unchanged_witness :
  exists body,
    Newick.write Newick.F9 (load (reparse9 tree_ABCD)) root = Ok body
    /\ _read_tree_file tree_ABCD
       = Ok (load (reparse9 tree_ABCD),
             tree_file_text (length (leaf_names tree_ABCD)) body).
Proof. apply read_tree_file_unchanged. reflexivity. Defined.

(** ** A node is constrained once *)

Lemma calibrate_line_prior_kept rn st i st' n :
  calibrate_line rn st i = Ok st' ->
  prior_like (name (cal_tree st !!! n)) ->
  prior_like (name (cal_tree st' !!! n)).
Proof.
  unfold calibrate_line.
  destruct (parse_calibration i) as [c|e|] eqn:Hp; [|done|done]. ok_bind.
  destruct (String.eqb (used_node c) rn).
  - intros H. assert (Hst : st' = mkCal (cal_tree st) (Some (cal_time c))
                     (used_nodes st ++ [used_node c])) by congruence.
    by subst st'.
  - destruct (Ete.search_nodes _ _ _) as [[|m l]|e|]; try done.
    intros H Hprior.
    assert (Hst : st' = mkCal (Ete.set_name (cal_tree st) m (cal_time c))
                    (root_age st) (used_nodes st ++ [used_node c])) by congruence.
    subst st'. cbn [cal_tree]. autorewrite with store.
    destruct (decide (n = m)); [|done]. by apply (parse_calibration_ok i c).
Qed.

Lemma calibrate_prior_kept rn lines n : forall st st',
  calibrate rn st lines = Ok st' ->
  prior_like (name (cal_tree st !!! n)) ->
  prior_like (name (cal_tree st' !!! n)).
Proof.
  induction lines as [|i lines IH]; intros st st'; cbn [calibrate].
  - intros H. assert (st' = st) by congruence. by subst st'.
  - destruct (calibrate_line rn st i) as [st1|e|] eqn:H1; [|done|done]. ok_bind.
    intros H Hprior. apply (IH st1 st' H).
    by apply (calibrate_line_prior_kept rn st i).
Qed.

(** X11: a node is constrained once.  When a line has given its prior to
    the only node of its name, a later line with the same name finds no
    node, because the lookup is made on the tree as renamed so far: the
    run ends with the lookup error. *)
Theorem constrained_once t i1 mid i2 post c1 c2 n st :
  parse_calibration i1 = Ok c1 -> parse_calibration i2 = Ok c2 ->
  cal_node c2 = cal_node c1 ->
  String.eqb (used_node c1) (name (load t !!! root)) = false ->
  Ete.search_nodes (load t) root (cal_node c1) = Ok [n] ->
  calibrate (name (load t !!! root)) (cal_start t) (i1 :: mid) = Ok st ->
  annotate (i1 :: mid ++ i2 :: post) t = Raise lookup_error.
Proof.
  intros Hp1 Hp2 Hsame Hroot Hsearch Hcal.
  pose proof (calibrate_inv (load t) (name (load t !!! root)) (i1 :: mid)
                (cal_start t) _ (load_attached t) (named_from_refl _)) as Hinv.
  rewrite Hcal in Hinv. destruct Hinv as [Hw Hn].
  assert (Hprior : prior_like (name (cal_tree st !!! n))).
  { cbn [calibrate] in Hcal.
    destruct (calibrate_line _ (cal_start t) i1) as [st1|e|] eqn:H1;
      [|done|done].
    revert Hcal. ok_bind. intros Hcal.
    apply (calibrate_prior_kept _ mid n st1 st Hcal).
    revert H1. unfold calibrate_line. rewrite Hp1. ok_bind. rewrite Hroot.
    cbn [cal_start cal_tree]. rewrite Hsearch. intros H1.
    assert (Hok : Ok st1 = Ok (mkCal (Ete.set_name (load t) n (cal_time c1))
                                 None [used_node c1]))
      by (rewrite <- H1; reflexivity).
    assert (Hst : st1 = mkCal (Ete.set_name (load t) n (cal_time c1))
                    None [used_node c1]) by congruence.
    subst st1. cbn [cal_tree]. autorewrite with store. rewrite decide_True by done.
    by apply (parse_calibration_ok i1 c1). }
  destruct (parse_calibration_ok i2 c2 Hp2) as [Hword _].
  unfold annotate. change (mkCal (load t) None []) with (cal_start t).
  change (i1 :: mid ++ i2 :: post) with ((i1 :: mid) ++ i2 :: post).
  rewrite calibrate_app, Hcal. ok_bind. cbn [calibrate].
  assert (Hline : calibrate_line (name (load t !!! root)) st i2
                  = Raise lookup_error).
  { assert (Hroot2 : String.eqb (used_node c2) (name (load t !!! root)) = false).
    { by rewrite (parse_calibration_used i2 c2 Hp2), Hsame,
        <- (parse_calibration_used i1 c1 Hp1). }
    unfold calibrate_line. rewrite Hp2. ok_bind. rewrite Hroot2.
    destruct (search_nodes_attached _ _ (cal_node c2) Hw) as (l & -> & Hl).
    destruct l as [|x l]; [done|]. exfalso.
    destruct (Hl x) as [[HxA Hname] _]; [by left|].
    destruct (Hn x) as [Heq|Hp].
    - destruct (search_nodes_attached _ _ (cal_node c1) (load_attached t))
        as (l0 & Hs0 & Hl0).
      assert (l0 = [n]) by congruence. subst l0.
      assert (Hx : x ∈ [n]).
      { apply Hl0. split; [done|]. by rewrite <- Heq, Hname. }
      apply list_elem_of_singleton in Hx. subst x.
      rewrite Hname in Hprior. by apply (word_not_prior (cal_node c2)).
    - rewrite Hname in Hp. by apply (word_not_prior (cal_node c2)). }
  by rewrite Hline.
Qed.

Lemma constrained_once_witness :
  annotate ["B:100"; "D:<300"; "B:<200"] tree_ABCD = Raise lookup_error.
Proof.
  assert (Hcal : exists st,
    calibrate (name (load tree_ABCD !!! root)) (cal_start tree_ABCD)
      ["B:100"; "D:<300"] = Ok st) by (eexists; vm_compute; reflexivity).
  destruct Hcal as [st Hcal].
  apply (constrained_once tree_ABCD "B:100" ["D:<300"] "B:<200" []
           (mkConstraint "B" "B" "U(100)") (mkConstraint "B" "B" "U(200)") 4 st);
    try (vm_compute; reflexivity).
  exact Hcal.
Defined.

(** ** A root without a name *)

Lemma parse_calibration_used_index i c :
  parse_calibration i = Ok c -> index (Py.split ":" i) 0 = Ok (used_node c).
Proof.
  unfold parse_calibration.
  destruct (index (Py.split ":" i) 0) as [used| |]; [|done|done]. ok_bind.
  assert (Hu : forall l (f : string * string -> result constraint) c0,
    (forall p c', f p = Ok c' -> used_node c' = used) ->
    unpack2 l ≫= f = Ok c0 -> used_node c0 = used).
  { intros l f c0 Hf. destruct l as [|a [|b [|? ?]]]; try done. apply Hf. }
  assert (Hx : forall (l : list string) n (f : string -> result constraint) c0,
    (forall p c', f p = Ok c' -> used_node c' = used) ->
    index l n ≫= f = Ok c0 -> used_node c0 = used).
  { intros l n f c0 Hf. unfold index. destruct (l !! n); [apply Hf|done]. }
  assert (Hok : forall node time (c' : constraint),
    Ok (mkConstraint used node time) = Ok c' -> used_node c' = used).
  { intros node time c' H. assert (c' = mkConstraint used node time) by congruence.
    by subst c'. }
  intros H. f_equal. symmetry. revert H.
  destruct (Re.exact i); [apply Hu; intros [? ?] c'; apply Hok|].
  destruct (Re.upper i); [apply Hu; intros [? ?] c'; apply Hok|].
  destruct (Re.lower i); [apply Hu; intros [? ?] c'; apply Hok|].
  destruct (Re.interval i); [|done].
  apply Hu. intros [node time] c'. apply Hx. intros t0 c''. apply Hx.
  intros t1 c3. apply Hok.
Qed.

Lemma parse_calibration_matches i c :
  parse_calibration i = Ok c ->
  exists k, Re.plus Py.is_word (Re.lit ":" k) i = true.
Proof.
  unfold parse_calibration.
  destruct (index (Py.split ":" i) 0) as [used| |]; [|done|done]. ok_bind.
  destruct (Re.exact i) eqn:H1; [by eexists|].
  destruct (Re.upper i) eqn:H2; [by eexists|].
  destruct (Re.lower i) eqn:H3; [by eexists|].
  destruct (Re.interval i) eqn:H4; [by eexists|done].
Qed.

(** The name a line gives is not empty. *)
Lemma parse_calibration_nonempty i c :
  parse_calibration i = Ok c -> Py.is_empty (used_node c) = false.
Proof.
  intros Hp. destruct (parse_calibration_matches i c Hp) as [k Hk].
  pose proof (parse_calibration_used_index i c Hp) as Hu.
  unfold Re.plus in Hk. destruct (span_spec Py.is_word i) as [Hi Hw].
  destruct (Py.span Py.is_word i) as [w r]. cbn [fst snd] in *.
  apply andb_true_iff in Hk as [Hne Hk]. apply negb_true_iff in Hne.
  apply lit_inv in Hk as (r' & -> & _). subst i.
  destruct (split_word EmptyString w r' Hw (prefix_colon r')) as [tl Hs].
  rewrite Hs in Hu. cbn in Hu. congruence.
Qed.

Lemma root_prior_unnamed lines : root_prior EmptyString lines = None.
Proof.
  induction lines as [|i lines IH]; [done|]. cbn [root_prior]. rewrite IH.
  destruct (parse_calibration i) as [c|e|] eqn:Hp; [|done|done].
  pose proof (parse_calibration_nonempty i c Hp) as Hne.
  by destruct (used_node c).
Qed.

(** X12: for a tree whose root has no name no constraint names the root:
    when the first loop of [_haplogroup_calibration] ends without an
    error and the files of the alignment and of the parameters are
    written (the alignment is cleaned without an error, the mutation rate
    is not zero and the model is known), the run is prepared without a
    parameter [RootAge], with or without [--auto]. *)
Theorem unnamed_root_no_age isfile prior_calibration p a c st seq_file :
  arg_calibration a = Some c -> Py.is_empty c = false ->
  name (load (arg_tree a) !!! root) = EmptyString ->
  calibrate (name (load (arg_tree a) !!! root)) (cal_start (arg_tree a))
    (_get_calibration isfile c) = Ok st ->
  _clean_alignment (arg_filter a) (arg_rate_below a) (arg_seq a) = Ok seq_file ->
  arg_rate_zero a = false ->
  str_in (arg_model a) model_names = true ->
  exists r, run_mcmc isfile prior_calibration p a = Ok r
    /\ ctl_get "RootAge" (parameters r) = None.
Proof.
  intros Hc Hne Hroot Hcal Hclean Hrate Hmodel.
  destruct (annotate_spec _ _ _ Hcal) as (h & A & V & l & body & Hr & _).
  pose proof (calibrate_root_age _ _ _ _ Hcal) as Hage.
  rewrite Hroot, root_prior_unnamed in Hage. cbn [cal_start root_age] in Hage.
  unfold run_mcmc. rewrite Hc. unfold truthy. rewrite Hne.
  rewrite orb_true_r. cbn [negb].
  destruct (if arg_auto a then _ else _) as [auto log1].
  unfold _haplogroup_calibration. rewrite Hr. ok_bind. cbv beta iota. ok_bind.
  cbv beta iota.
  destruct (run_mcmc_end p a
              (tree_file_text (length l) (Py.replace "NoName" "" body))
              (root_age st) log1 seq_file Hclean Hrate Hmodel)
    as (lines & log2 & ->).
  eexists. split; [reflexivity|]. cbn [parameters].
  by rewrite ctl_get_RootAge, Hage.
Qed.

Lemma unnamed_root_no_age_witness :
  exists r,
    run_mcmc no_file table_example paths_example
      (mkArgs msa_example tree_ABCD (Some "B:100-200") true "hky85"
         false "100.0" true below_fifth None) = Ok r
    /\ ctl_get "RootAge" (parameters r) = None.
Proof.
  assert (Hcal : exists st,
    calibrate (name (load tree_ABCD !!! root)) (cal_start tree_ABCD)
      (_get_calibration no_file "B:100-200") = Ok st)
    by (eexists; vm_compute; reflexivity).
  destruct Hcal as [st Hcal].
  assert (Hclean : exists s,
    _clean_alignment true below_fifth msa_example = Ok s)
    by (eexists; vm_compute; reflexivity).
  destruct Hclean as [s Hclean].
  apply (unnamed_root_no_age no_file table_example paths_example
           (mkArgs msa_example tree_ABCD (Some "B:100-200") true "hky85"
              false "100.0" true below_fifth None)
           "B:100-200" st s);
    [reflexivity|reflexivity|reflexivity|exact Hcal|exact Hclean
    |reflexivity|reflexivity].
Defined.

(** X13: without a calibration, [run_mcmc] stops with [sys.exit()] unless
    [--auto] is given.  With [--auto] its calibration step, lines 409 to
    416, never fails, whatever the tree; when after it the alignment is
    cleaned without an error, the mutation rate is not zero and the
    model is known, the run is prepared: the tree file is the one
    [_read_tree_file] writes, and [RootAge] is the prior built from the
    bounds the table holds for the name of the root, or is not set when
    the table does not hold that name. *)
Theorem run_mcmc_without_calibration isfile prior_calibration p a :
  truthy (arg_calibration a) = false ->
  if arg_auto a
  then forall seq_file,
         _clean_alignment (arg_filter a) (arg_rate_below a) (arg_seq a)
         = Ok seq_file ->
         arg_rate_zero a = false ->
         str_in (arg_model a) model_names = true ->
         exists h r,
           _read_tree_file (arg_tree a) = Ok (h, tree_text r)
           /\ run_mcmc isfile prior_calibration p a = Ok r
           /\ seq_text r = seq_file
           /\ ctl_get "RootAge" (parameters r)
              = match prior_calibration (name (load (arg_tree a) !!! root)) with
                | Some (lower, upper) =>
                    Some (Some ("B(" +:+ lower +:+ ", " +:+ upper +:+ ")"))
                | None => None
                end
  else run_mcmc isfile prior_calibration p a = Raise SystemExit.
Proof.
  intros Hcal. unfold run_mcmc. rewrite Hcal, orb_false_r.
  destruct (arg_auto a); [|done]. cbn [negb].
  intros seq_file Hclean Hrate Hmodel.
  destruct (read_tree_file_spec (arg_tree a))
    as (h & A & V & l & body & Hr & _).
  assert (Hread :
    match arg_calibration a with
    | Some c =>
        if negb (Py.is_empty c)
        then _haplogroup_calibration isfile c (arg_tree a)
        else '(_, text) ← _read_tree_file (arg_tree a);
             Ok (text, fst (_get_root_age prior_calibration (arg_tree a)))
    | None => '(_, text) ← _read_tree_file (arg_tree a);
              Ok (text, fst (_get_root_age prior_calibration (arg_tree a)))
    end = Ok (tree_file_text (length l) body,
              fst (_get_root_age prior_calibration (arg_tree a)))).
  { unfold truthy in Hcal. destruct (arg_calibration a) as [c|].
    - rewrite Hcal. by rewrite Hr.
    - by rewrite Hr. }
  destruct (_get_root_age prior_calibration (arg_tree a)) as [auto log1] eqn:Hage.
  cbn [fst] in Hread. rewrite Hread. ok_bind. cbv beta iota.
  destruct (run_mcmc_end p a (tree_file_text (length l) body) auto log1
              seq_file Hclean Hrate Hmodel) as (lines & log2 & ->).
  exists h. eexists. split; [|split; [reflexivity|split; [reflexivity|]]].
  - exact Hr.
  - cbn [parameters]. rewrite ctl_get_RootAge.
    unfold _get_root_age in Hage.
    destruct (prior_calibration _) as [[lower upper]|].
    + assert (auto = Some ("B(" +:+ lower +:+ ", " +:+ upper +:+ ")"))
        by congruence.
      by subst auto.
    + assert (auto = None) by congruence. by subst auto.
Qed.

Lemma run_mcmc_without_calibration_witness :
  exists h r,
    _read_tree_file tree_named_unary = Ok (h, tree_text r)
    /\ run_mcmc no_file table_example paths_example
         (mkArgs msa_example tree_named_unary None true "hky85"
            false "100.0" true below_fifth None) = Ok r
    /\ seq_text r
       = "3 3" +:+ Py.str1 Py.nl +:+ "a     ACT" +:+ Py.str1 Py.nl
         +:+ "bb    ACT" +:+ Py.str1 Py.nl +:+ "ccc   ACT" +:+ Py.str1 Py.nl
    /\ ctl_get "RootAge" (parameters r) = Some (Some "B(1, 2)").
Proof.
  exact (run_mcmc_without_calibration no_file table_example paths_example
           (mkArgs msa_example tree_named_unary None true "hky85"
              false "100.0" true below_fifth None) eq_refl _
           eq_refl eq_refl eq_refl).
Defined.

(** ** A run without a calibration *)

(** ** The lines of a calibration file *)

(** ** The number of children of a node *)

(** X10: the pruning loops keep the number of children of every node: a
    node that is removed hands its only child to its parent.  So a node
    with two children keeps two children, and the root keeps its number
    of children, in [_read_tree_file] and in
    [_haplogroup_calibration]. *)
Theorem degrees_kept t lines st :
  calibrate (name (load t !!! root)) (cal_start t) lines = Ok st ->
  (exists h text,
     _read_tree_file t = Ok (h, text)
     /\ forall x, length (children (h !!! x))
                  = length (children (load (reparse9 t) !!! x)))
  /\ (exists h text,
     annotate lines t = Ok (h, text, root_age st)
     /\ forall x, length (children (h !!! x))
                  = length (children (load t !!! x))).
Proof.
  intros Hcal. split.
  - destruct (read_tree_file_spec t) as (h & A & V & l & body & Hr & _ & _ & HP & _).
    eexists h, _. split; [exact Hr|]. apply (pr_len _ _ _ _ _ HP).
  - destruct (annotate_spec lines t st Hcal)
      as (h & A & V & l & body & Hr & _ & Hch & _ & _ & HP & _).
    eexists h, _. split; [exact Hr|]. intros x.
    by rewrite (pr_len _ _ _ _ _ HP), Hch.
Qed.

Lemma degrees_kept_witness :
  exists h text,
    _read_tree_file tree_named_unary = Ok (h, text)
    /\ forall x, length (children (h !!! x))
                 = length (children (load (reparse9 tree_named_unary) !!! x)).
Proof.
  assert (Hcal : exists st,
    calibrate (name (load tree_named_unary !!! root)) (cal_start tree_named_unary)
      ["R:100-200"] = Ok st) by (eexists; vm_compute; reflexivity).
  destruct Hcal as [st Hcal].
  exact (proj1 (degrees_kept tree_named_unary ["R:100-200"] st Hcal)).
Defined.

(** ** Lines that end with a carriage return and a line feed *)

Lemma inner_prior_erased_witness :
  exists st h text,
    calibrate (name (load tree_H !!! root)) (cal_start tree_H) ["H:100-200"]
      = Ok st
    /\ annotate ["H:100-200"] tree_H = Ok (h, text, root_age st)
    /\ forall x, in_tree h x = true -> x <> root -> Ete.is_leaf h x = false ->
         ~ prior_like (name (h !!! x)).
Proof.
  assert (Hcal : exists st,
    calibrate (name (load tree_H !!! root)) (cal_start tree_H) ["H:100-200"]
      = Ok st) by (eexists; vm_compute; reflexivity).
  destruct Hcal as [st Hcal].
  destruct (inner_prior_erased ["H:100-200"] tree_H st Hcal) as (h & text & H).
  by exists st, h, text.
Defined.

Lemma parse_calibration_forms_witness :
  parse_calibration "H:<300" = Ok (mkConstraint "H" "H" "U(300)")
  /\ parse_calibration ("B:100-200" +:+ Py.str1 Py.nl)
     = Ok (mkConstraint "B" "B" ("B(100, 200" +:+ Py.str1 Py.nl +:+ ")")).
Proof.
  destruct (parse_calibration_forms "H" "300" "300" EmptyString)
    as (_ & H1 & _); [reflexivity|reflexivity|reflexivity|reflexivity|].
  destruct (parse_calibration_forms "B" "100" "200" (Py.str1 Py.nl))
    as (_ & _ & _ & H2); [reflexivity|reflexivity|reflexivity|reflexivity|].
  split; [exact H1|exact H2].
Defined.

(** ** The nodes a turn removes *)

Lemma delete_unary h A n p :
  attached h A -> n ∈ A -> up (h !!! n) = Some p ->
  length (children (h !!! n)) = 1 ->
  exists h', Ete.delete h n true = Ok h'
    /\ if Nat.eqb (length (children (h !!! p))) 1 && negb (Nat.eqb p root)
       then attached h' (A ∖ {[n]} ∖ {[p]})
       else attached h' (A ∖ {[n]})
            /\ children (h' !!! p)
               = filter (fun y => y <> n) (children (h !!! p))
                 ++ children (h !!! n).
Proof.
  intros Hw Hn Hup Hlen.
  assert (Hroot : n <> root).
  { intros ->. rewrite (att_root_up h A Hw) in Hup. discriminate. }
  destruct (detach_spliced h A n Hw Hn Hroot) as (p' & h1 & Hup' & Hp & Hin & Hd & Hs).
  assert (p' = p) by congruence. subst p'.
  pose proof (spliced_attached _ _ _ _ _ Hw Hn Hroot Hup Hp Hin Hs) as Hw1.
  pose proof (spliced_step _ _ _ _ _ Hw Hn Hroot Hup Hp Hin Hlen Hs) as Hst1.
  assert (Hpn : p < n).
  { destruct (att_kids _ _ Hw p n Hp Hin) as (_ & _ & ?). lia. }
  assert (Hp1 : p ∈ A ∖ {[n]}) by (apply elem_of_remove; [done|lia]).
  assert (Hc : children (h1 !!! p)
    = filter (fun y => y <> n) (children (h !!! p)) ++ children (h !!! n)).
  { by rewrite (spl_children _ _ _ _ Hs), decide_True. }
  unfold Ete.delete. rewrite Hd. cbn.
  destruct (Nat.leb_spec (length (children (h1 !!! p))) 1) as [Hlt|Hge].
  2:{ exists h1. split; [done|].
      rewrite (so_len _ _ _ _ _ Hst1) in Hge.
      replace (Nat.eqb (length (children (h !!! p))) 1) with false
        by (symmetry; apply Nat.eqb_neq; lia).
      done. }
  rewrite (so_len _ _ _ _ _ Hst1) in Hlt.
  pose proof (unary_parent h A n p Hw Hp Hin ltac:(lia)) as Hkp.
  rewrite Hkp. cbn [length Nat.eqb andb].
  destruct (Nat.eqb_spec p root) as [->|Hproot]; cbn [negb].
  { unfold Ete.detach. rewrite (att_root_up _ _ Hw1). cbn.
    exists h1. split; [done|]. split; [done|]. by rewrite Hc, Hkp. }
  destruct (detach_spliced h1 _ p Hw1 Hp1 Hproot)
    as (g & h2 & Hup2 & Hg & Hin2 & Hd2 & Hs2).
  rewrite Hd2. cbn. exists h2. split; [done|].
  by apply (spliced_attached _ _ _ _ _ Hw1 Hp1 Hproot Hup2 Hg Hin2 Hs2).
Qed.

Lemma turn_delete h A n :
  attached h A -> n ∈ A -> n <> root -> unnamed_unary h n ->
  exists h', Ete.delete h n true = Ok h' /\ turn h n h'.
Proof.
  intros Hw Hn Hroot Hu. pose proof Hu as [Hlen _].
  destruct (att_parent _ _ Hw n Hn Hroot) as (p & Hp & Hup & Hin).
  assert (Hpn : p <> n).
  { destruct (att_kids _ _ Hw p n Hp Hin) as (_ & _ & ?). lia. }
  destruct (delete_unary h A n p Hw Hn Hup Hlen) as (h' & Hd & Hcase).
  exists h'. split; [done|].
  destruct (Nat.eqb_spec (length (children (h !!! p))) 1) as [Hp1|Hp1];
    [destruct (Nat.eqb_spec p root) as [Hpr|Hpr]|]; cbn [andb negb] in Hcase.
  - destruct Hcase as [Hw' Hc]. split.
    + intros x Hx Hx'. split; [done|]. left.
      apply (in_tree_attached h A) in Hx; [|done].
      apply (in_tree_attached_false h' _ x Hw') in Hx'.
      destruct (decide (x = n)) as [|Hxn]; [done|].
      exfalso. apply Hx'. by apply elem_of_remove.
    + intros _. split.
      * apply (in_tree_attached_false h' _ n Hw'). set_solver.
      * intros p' Hp'. assert (p' = p) by congruence. subst p'.
        rewrite Hp1. destruct (Nat.eqb_spec p root); [|done]. cbn [andb negb Nat.eqb].
        split; [|done]. apply (in_tree_attached h' _ p Hw').
        by apply elem_of_remove.
  - split.
    + intros x Hx Hx'. split; [done|].
      apply (in_tree_attached h A) in Hx; [|done].
      apply (in_tree_attached_false h' _ x Hcase) in Hx'.
      destruct (decide (x = n)) as [|Hxn]; [by left|].
      destruct (decide (x = p)) as [->|Hxp]; [by right|].
      exfalso. apply Hx'. by do 2 (apply elem_of_remove; [|done]).
    + intros _. split.
      * apply (in_tree_attached_false h' _ n Hcase). set_solver.
      * intros p' Hp'. assert (p' = p) by congruence. subst p'.
        rewrite Hp1. destruct (Nat.eqb_spec p root); [done|].
        cbn [andb negb Nat.eqb]. apply (in_tree_attached_false h' _ p Hcase).
        set_solver.
  - destruct Hcase as [Hw' Hc]. split.
    + intros x Hx Hx'. split; [done|]. left.
      apply (in_tree_attached h A) in Hx; [|done].
      apply (in_tree_attached_false h' _ x Hw') in Hx'.
      destruct (decide (x = n)) as [|Hxn]; [done|].
      exfalso. apply Hx'. by apply elem_of_remove.
    + intros _. split.
      * apply (in_tree_attached_false h' _ n Hw'). set_solver.
      * intros p' Hp'. assert (p' = p) by congruence. subst p'.
        destruct (Nat.eqb_spec (length (children (h !!! p))) 1); [done|].
        cbn [andb]. split; [|done]. apply (in_tree_attached h' _ p Hw').
        by apply elem_of_remove.
Qed.

Lemma turn_keep h A n h' :
  attached h A -> attached h' A -> ~ unnamed_unary h n -> turn h n h'.
Proof.
  intros Hw Hw' Hno. split; [|done].
  intros x Hx Hx'. exfalso.
  apply (in_tree_attached h A) in Hx; [|done].
  by apply (in_tree_attached_false h' A x Hw') in Hx'.
Qed.

Lemma turn_bodies used h A n :
  attached h A -> n ∈ A -> n <> root ->
  exists h1 h2,
    prune_body n h = Ok h1 /\ annotate_body used n h = Ok h2
    /\ turn h n h1 /\ turn h n h2.
Proof.
  intros Hw Hn Hroot. unfold prune_body, annotate_body, Ete.is_leaf.
  destruct (Nat.eqb_spec (length (children (h !!! n))) 1) as [Hlen|Hlen];
    [destruct (unnamed h n) eqn:Hnm|].
  - rewrite Hlen. cbn [Nat.eqb negb andb].
    assert (Hu : unnamed_unary h n) by (split; [done|by apply unnamed_spec]).
    destruct (turn_delete h A n Hw Hn Hroot Hu) as (h' & Hd & Ht).
    exists h', h'. by rewrite Hd.
  - assert (Hu : ~ unnamed_unary h n).
    { intros [_ Hu]. apply unnamed_spec in Hu. congruence. }
    rewrite Hlen. cbn [Nat.eqb negb andb].
    destruct (negb (str_in (name (h !!! n)) used)); eexists _, _;
      (split; [reflexivity|]); (split; [reflexivity|]);
      split; apply (turn_keep h A); try done; by apply set_name_attached.
  - assert (Hu : ~ unnamed_unary h n) by (by intros [Hu _]).
    rewrite andb_false_r. cbn [andb].
    destruct (negb (Nat.eqb (length (children (h !!! n))) 0));
      [destruct (negb (str_in (name (h !!! n)) used))|]; eexists _, _;
      (split; [reflexivity|]); (split; [reflexivity|]);
      split; apply (turn_keep h A); try done; by apply set_name_attached.
Qed.

(** ** Normalization, relative to the input tree *)

Lemma load_name t x u :
  preorder t !! x = Some u -> name (load t !!! x) = label_of u.
Proof.
  intros Hu. destruct (load_block t) as [_ Hi].
  assert (Hx : x < length (preorder t)) by (by apply lookup_lt_Some in Hu).
  rewrite length_preorder in Hx.
  apply (f_equal (fun l => l !! x)) in Hi.
  rewrite !list_lookup_fmap, Hu in Hi.
  rewrite lookup_seq_lt in Hi by lia. cbn in Hi.
  unfold node_info, tree_info in Hi. congruence.
Qed.

(** The format 9 round trip leaves no name on a node that has children. *)
Lemma reparse9_inner_unnamed t :
  Forall (fun u => kids_of u <> [] -> label_of u = EmptyString)
    (preorder (reparse9 t)).
Proof.
  induction t as [nm ks IH] using tree_ind2.
  assert (HF : Forall (fun u => kids_of u <> [] -> label_of u = EmptyString)
                 (concat (map preorder (map reparse9 ks)))).
  { induction IH as [|k' ks' Hk _ IHks]; [constructor|].
    cbn [map concat]. by apply Forall_app. }
  destruct ks as [|k ks].
  - cbn. constructor; [|constructor]. by intros H.
  - cbn [reparse9]. rewrite preorder_eq. constructor; [done|exact HF].
Qed.

Lemma tree_size_reparse9 t : tree_size (reparse9 t) = tree_size t.
Proof.
  pose proof (reparse9_info t) as Hi. apply (f_equal length) in Hi.
  by rewrite !length_map, !length_preorder in Hi.
Qed.

(** [_read_tree_file] removes the nodes of the input tree other than the
    root that have exactly one child, with or without a name, and no
    other node. *)
Lemma read_tree_file_removed t :
  exists h text,
    _read_tree_file t = Ok (h, text)
    /\ in_tree h root = true
    /\ (forall x, in_tree h x = true -> x < length (preorder t))
    /\ forall x u, preorder t !! x = Some u ->
         (in_tree h x = false <-> x <> root /\ length (kids_of u) = 1)
         /\ length (children (h !!! x)) = length (kids_of u).
Proof.
  destruct (read_tree_file_spec t)
    as (h & A & V & l & body & Hr & Hw & Hsub & HP & _).
  exists h, (tree_file_text (length l) body). split; [done|]. split.
  { apply (in_tree_attached h A); [done|]. apply (att_root h A Hw). }
  split.
  { intros x Hx. apply (in_tree_attached h A) in Hx; [|done].
    apply (pr_sub _ _ _ _ _ HP), elem_of_set_seq in Hx.
    rewrite length_preorder, <- tree_size_reparse9. lia. }
  intros x u Hu.
  assert (Hx : x ∈ (set_seq 0 (tree_size (reparse9 t)) : gset nat)).
  { apply elem_of_set_seq. apply lookup_lt_Some in Hu.
    rewrite length_preorder in Hu. rewrite tree_size_reparse9. lia. }
  destruct (reparse9_preorder t x u Hu) as (u' & Hu' & Hk).
  assert (Hlen0 : length (children (load (reparse9 t) !!! x)) = length (kids_of u)).
  { by rewrite (load_children_count _ x u' Hu'). }
  split; [|by rewrite (pr_len _ _ _ _ _ HP)].
  rewrite (in_tree_attached_false h A x Hw). split.
  - intros HxA. rewrite <- Hlen0. by apply (pr_removed _ _ _ _ _ HP).
  - intros [Hxr Hlen] HxA.
    apply (pr_done _ _ _ _ _ HP x); [by apply Hsub|done| |done].
    split; [by rewrite Hlen0|].
    rewrite (load_name _ x u' Hu').
    pose proof (reparse9_inner_unnamed t) as HF.
    rewrite Forall_forall in HF. apply (HF u').
    + by apply (list_elem_of_lookup_2 _ x).
    + intros Hnil. rewrite Hnil in Hk. cbn in Hk. lia.
Qed.

(** The first loop of [_haplogroup_calibration] gives no name to a node
    without one: a constraint is looked up under a name of at least one
    character. *)
Lemma calibrate_line_empty_kept rn st i st' A x :
  attached (cal_tree st) A -> calibrate_line rn st i = Ok st' ->
  name (cal_tree st !!! x) = EmptyString ->
  name (cal_tree st' !!! x) = EmptyString.
Proof.
  intros Hw. unfold calibrate_line.
  destruct (parse_calibration i) as [c|e|] eqn:Hp; [|done|done]. ok_bind.
  destruct (String.eqb (used_node c) rn).
  - intros H. assert (Hst : st' = mkCal (cal_tree st) (Some (cal_time c))
                     (used_nodes st ++ [used_node c])) by congruence.
    by subst st'.
  - destruct (search_nodes_attached _ _ (cal_node c) Hw) as (l & Hs & Hl).
    rewrite Hs. destruct l as [|m l]; [done|].
    intros H Hnm.
    assert (Hst : st' = mkCal (Ete.set_name (cal_tree st) m (cal_time c))
                    (root_age st) (used_nodes st ++ [used_node c])) by congruence.
    subst st'. cbn [cal_tree]. autorewrite with store.
    destruct (decide (x = m)) as [->|]; [|done]. exfalso.
    destruct (Hl m) as [[_ Hm] _]; [by left|].
    pose proof (parse_calibration_nonempty i c Hp) as Hne.
    rewrite (parse_calibration_used i c Hp), <- Hm, Hnm in Hne. discriminate.
Qed.

Lemma calibrate_empty_kept rn lines x : forall st st' A,
  attached (cal_tree st) A -> calibrate rn st lines = Ok st' ->
  name (cal_tree st !!! x) = EmptyString ->
  name (cal_tree st' !!! x) = EmptyString.
Proof.
  induction lines as [|i lines IH]; intros st st' A Hw; cbn [calibrate].
  - intros H. assert (st' = st) by congruence. by subst st'.
  - destruct (calibrate_line rn st i) as [st1|e|] eqn:H1; [|done|done]. ok_bind.
    intros H Hnm.
    destruct (calibrate_line_shape rn st i st1 A Hw H1) as [Hw1 _].
    apply (IH st1 st' A Hw1 H).
    by apply (calibrate_line_empty_kept rn st i st1 A).
Qed.

(** The second loop of [_haplogroup_calibration] normalizes the input
    tree. *)
Lemma annotate_normalized lines t st :
  calibrate (name (load t !!! root)) (cal_start t) lines = Ok st ->
  exists h text,
    annotate lines t = Ok (h, text, root_age st) /\ normalized (load t) h.
Proof.
  intros Hcal.
  destruct (annotate_spec lines t st Hcal)
    as (h & A & V & l & body & Hr & Hw0 & Hch & Hw & Hsub & HP & _).
  exists h, (tree_file_text (length l) (Py.replace "NoName" "" body)).
  split; [done|].
  destruct (pruning_normalized _ _ _ _ _ Hw0 Hw Hsub HP)
    as (H1 & H2 & H3 & H4 & H5).
  assert (Hin : forall x, in_tree (load t) x = in_tree (cal_tree st) x).
  { intros x. apply eq_true_iff_eq.
    by rewrite (in_tree_attached _ _ x (load_attached t)),
      (in_tree_attached _ _ x Hw0). }
  split; [done|]. split; [|split; [|split]].
  - intros x Hx. rewrite Hin. by apply H2.
  - intros x Hx Hxr [Hlen Hnm]. apply H3; [by rewrite <- Hin|done|].
    split; [by rewrite Hch|].
    by apply (calibrate_empty_kept (name (load t !!! root)) lines x (cal_start t) st
                _ (load_attached t)).
  - intros x Hx Hx'. rewrite <- Hch. apply H4; [by rewrite <- Hin|done].
  - done.
Qed.

(** C3, amended: both functions return, the root stays, and no node
    other than the root with one child and no name remains.
    [_read_tree_file] removes exactly the nodes of the input tree other
    than the root that have one child, named or not: the format 9 text
    from which it reads the tree back holds no name of an inner node.
    The annotation, when its first loop ends without an error, removes
    every node of the input tree other than the root that has one child
    and no name, and removes only nodes other than the root that have one
    child.  In a turn of either loop on a node [n] of a tree, other than
    its root, a node leaves the tree only when [n] has one child and no
    name: then [n] leaves it, and with [n] its parent when that parent
    has no other child and is not the root, whatever the name of the
    parent; a parent that stays gets the child of [n] as its last child.
    So a node with one child and a name is not removed in its own turn
    of the annotation, and is removed in the turn of its child when that
    child has one child and no name. *)
Theorem C3_normalization t lines st h A n used :
  calibrate (name (load t !!! root)) (cal_start t) lines = Ok st ->
  attached h A -> n ∈ A -> n <> root ->
  (exists h1 text,
     _read_tree_file t = Ok (h1, text)
     /\ in_tree h1 root = true
     /\ (forall x, in_tree h1 x = true -> x < length (preorder t))
     /\ forall x u, preorder t !! x = Some u ->
          (in_tree h1 x = false <-> x <> root /\ length (kids_of u) = 1)
          /\ length (children (h1 !!! x)) = length (kids_of u))
  /\ (exists h2 text,
        annotate lines t = Ok (h2, text, root_age st)
        /\ normalized (load t) h2)
  /\ (exists h1 h2,
        prune_body n h = Ok h1 /\ annotate_body used n h = Ok h2
        /\ turn h n h1 /\ turn h n h2).
Proof.
  intros Hcal Hw Hn Hroot. split; [|split].
  - apply read_tree_file_removed.
  - by apply annotate_normalized.
  - by apply (turn_bodies used h A).
Qed.

Lemma C3_normalization_witness :
  exists st,
    calibrate (name (load tree_named_unary !!! root)) (cal_start tree_named_unary)
      ["N:100-200"] = Ok st
    /\ (exists h1 text,
          _read_tree_file tree_named_unary = Ok (h1, text)
          /\ in_tree h1 root = true
          /\ (forall x, in_tree h1 x = true
                        -> x < length (preorder tree_named_unary))
          /\ forall x u, preorder tree_named_unary !! x = Some u ->
               (in_tree h1 x = false <-> x <> root /\ length (kids_of u) = 1)
               /\ length (children (h1 !!! x)) = length (kids_of u))
    /\ (exists h2 text,
          annotate ["N:100-200"] tree_named_unary = Ok (h2, text, root_age st)
          /\ normalized (load tree_named_unary) h2)
    /\ (exists h1 h2,
          prune_body 2 (load tree_named_unary) = Ok h1
          /\ annotate_body [] 2 (load tree_named_unary) = Ok h2
          /\ turn (load tree_named_unary) 2 h1
          /\ turn (load tree_named_unary) 2 h2).
Proof.
  assert (Hcal : exists st,
    calibrate (name (load tree_named_unary !!! root)) (cal_start tree_named_unary)
      ["N:100-200"] = Ok st) by (eexists; vm_compute; reflexivity).
  destruct Hcal as [st Hcal]. exists st. split; [exact Hcal|].
  apply (C3_normalization tree_named_unary ["N:100-200"] st
           (load tree_named_unary) (set_seq 0 (tree_size tree_named_unary)) 2 []).
  - exact Hcal.
  - apply load_attached.
  - apply elem_of_set_seq. vm_compute. lia.
  - discriminate.
Defined.

(** ** The names the second loop leaves *)

Lemma annotate_body_exact used h n h' :
  annotate_body used n h = Ok h' ->
  unnamed_unary h n
  \/ name (h' !!! n)
     = if Ete.is_leaf h n then name (h !!! n)
       else if str_in (name (h !!! n)) used then name (h !!! n) else "NoName".
Proof.
  unfold annotate_body. intros Hb.
  destruct (Ete.is_leaf h n) eqn:Hleaf; cbn [negb] in Hb.
  { right. assert (h' = h) by congruence. by subst h'. }
  destruct (Nat.eqb_spec (length (children (h !!! n))) 1) as [Hlen|Hlen];
    [destruct (unnamed h n) eqn:Hnm|]; cbn [andb] in Hb.
  - left. split; [done|]. by apply unnamed_spec.
  - destruct (str_in (name (h !!! n)) used) eqn:Hin; cbn [negb] in Hb; right.
    + assert (h' = h) by congruence. by subst h'.
    + assert (h' = Ete.set_name h n "NoName") by congruence. subst h'.
      autorewrite with store. by rewrite decide_True.
  - destruct (str_in (name (h !!! n)) used) eqn:Hin; cbn [negb] in Hb; right.
    + assert (h' = h) by congruence. by subst h'.
    + assert (h' = Ete.set_name h n "NoName") by congruence. subst h'.
      autorewrite with store. by rewrite decide_True.
Qed.

Lemma is_leaf_length h h' x :
  length (children (h' !!! x)) = length (children (h !!! x)) ->
  Ete.is_leaf h' x = Ete.is_leaf h x.
Proof. unfold Ete.is_leaf. by intros ->. Qed.

(** After the second loop a leaf bears the name it had before it, and a
    node below the root that has children bears that name when the name
    is in [used_nodes], and the name [NoName] otherwise. *)
Lemma annotate_loop_exact used h0 A0 h' :
  attached h0 A0 -> for_descendants (annotate_body used) h0 = Ok h' ->
  forall x, in_tree h' x = true -> x <> root ->
  name (h' !!! x)
  = if Ete.is_leaf h' x then name (h0 !!! x)
    else if str_in (name (h0 !!! x)) used then name (h0 !!! x) else "NoName".
Proof.
  intros Hw0 Hrun.
  destruct (for_traverse_start Ete.Preorder true
    (fun n '(h, u) => h' ← annotate_body used n h; Ok (h', u))
    (fun h A V (_ : unit) => pruning h0 A0 h A V
       /\ forall x, x ∈ V -> x ∈ A -> x <> root ->
          name (h !!! x)
          = if Ete.is_leaf h0 x then name (h0 !!! x)
            else if str_in (name (h0 !!! x)) used then name (h0 !!! x)
                 else "NoName")
    h0 A0 tt)
    as (h1 & A1 & V1 & [] & Hrun1 & Hw1 & Hsub & HP & Hnames).
  - intros h A V [] n Hw [HP Hnames] Hn HnV Hsk. cbn in Hsk.
    apply Nat.eqb_neq in Hsk.
    destruct (annotate_body_ok used h0 A0 h A V n Hw HP Hn HnV Hsk)
      as (h2 & A2 & Hb & Hst & HP2).
    exists h2, A2, tt. rewrite Hb. split; [done|]. split; [done|].
    split; [done|]. intros x Hx HxA Hxr.
    apply elem_of_union in Hx as [Hx|Hx].
    + assert (x <> n) by (by intros ->).
      rewrite (so_name _ _ _ _ _ Hst) by done.
      apply Hnames; try done. by apply (so_sub _ _ _ _ _ Hst).
    + apply elem_of_singleton in Hx. subst x.
      destruct (annotate_body_exact used h n h2 Hb) as [[Hlen Hnm]|Hok].
      * exfalso. apply (pr_done _ _ _ _ _ HP2 n); try done.
        -- apply elem_of_union_r. by apply elem_of_singleton.
        -- split; [by rewrite <- (pr_len _ _ _ _ _ HP)|].
           by rewrite <- (pr_unvisited _ _ _ _ _ HP n HnV).
      * rewrite Hok, (pr_unvisited _ _ _ _ _ HP n HnV).
        by rewrite (is_leaf_length h0 h n (pr_len _ _ _ _ _ HP n)).
  - intros h A V _ _ [HP Hnames]. split; [by apply pruning_root|].
    intros x Hx HxA Hxr. apply Hnames; [|done|done].
    apply elem_of_union in Hx as [Hx|Hx]; [done|].
    by apply elem_of_singleton in Hx.
  - done.
  - split; [apply pruning_start|]. intros x Hx. by apply not_elem_of_empty in Hx.
  - unfold for_descendants in Hrun. rewrite Hrun1 in Hrun.
    assert (h' = h1) by (cbn in Hrun; congruence). subst h'.
    intros x Hx Hxr. apply (in_tree_attached h1 A1 x Hw1) in Hx.
    rewrite (is_leaf_length h0 h1 x (pr_len _ _ _ _ _ HP x)).
    apply Hnames; try done. by apply Hsub.
Qed.

(** C10, as stated, fails for a node below the root that bears the name
    of the root: with the line [R:5] on the tree [((a,b)R,c)R;] the
    constraint goes to the root, no constraint is applied to the node
    [R] below it, and this node is not renamed, its name being in
    [used_nodes]: the text written holds its label. *)
Lemma C10_inner_label_kept :
  ~ (forall lines t st h text x,
       calibrate (name (load t !!! root)) (cal_start t) lines = Ok st ->
       annotate lines t = Ok (h, text, root_age st) ->
       in_tree h x = true -> x <> root -> Ete.is_leaf h x = false ->
       unconstrained t st x ->
       name (h !!! x) = "NoName")
  /\ exists h,
       annotate ["R:5"] tree_RR
       = Ok (h, tree_file_text 3 "((a,b)R,c);", Some "U(5)").
Proof.
  split; [|eexists; vm_compute; reflexivity].
  intros H.
  assert (Hcal : exists st,
    calibrate (name (load tree_RR !!! root)) (cal_start tree_RR) ["R:5"] = Ok st
    /\ cal_tree st = load tree_RR /\ root_age st = Some "U(5)").
  { eexists. split; [vm_compute; reflexivity|]. split; reflexivity. }
  destruct Hcal as (st & Hcal & Htree & Hage).
  assert (Hr : exists h text,
    annotate ["R:5"] tree_RR = Ok (h, text, Some "U(5)")
    /\ in_tree h 1 = true /\ Ete.is_leaf h 1 = false /\ name (h !!! 1) = "R").
  { eexists _, _. split; [vm_compute; reflexivity|].
    split; [|split]; vm_compute; reflexivity. }
  destruct Hr as (h & text & Hr & Hin & Hleaf & Hname).
  rewrite <- Hage in Hr.
  specialize (H ["R:5"] tree_RR st h text 1 Hcal Hr Hin ltac:(discriminate) Hleaf).
  rewrite Hname in H. discriminate H.
  split; [by rewrite Htree|].
  intros (k & r & Hk). vm_compute in Hk. discriminate Hk.
Qed.

(** C10, amended: name clearing is textual.  When the first loop ends
    without an error, [_haplogroup_calibration] returns.  A name after
    the first loop is the name of the input tree or a prior.  The tree
    the second loop leaves is the input tree normalized; in it a leaf
    bears the name it has after the first loop; a node below the root
    that has children bears that name too when the name is in
    [used_nodes], and is renamed [NoName] otherwise.
    The text written is the text of that tree in which [NoName] is
    deleted from every name the writer emits, of a leaf or of an inner
    node, wherever the name comes from. *)
Theorem C10_name_clearing lines t st :
  calibrate (name (load t !!! root)) (cal_start t) lines = Ok st ->
  exists h k body,
    annotate lines t = Ok (h, tree_file_text k body, root_age st)
    /\ normalized (load t) h
    /\ named_from (load t) (cal_tree st)
    /\ (forall x, in_tree h x = true -> x <> root ->
          name (h !!! x)
          = if Ete.is_leaf h x then name (cal_tree st !!! x)
            else if str_in (name (cal_tree st !!! x)) (used_nodes st)
                 then name (cal_tree st !!! x) else "NoName")
    /\ Newick.write_with
         (fun leaf nm => clear_names (Newick.name_text Newick.F8 leaf nm))
         h root = Ok body.
Proof.
  intros Hcal.
  destruct (annotate_spec lines t st Hcal)
    as (h & A & V & l & body & Hr & Hw0 & _ & Hw & _ & _ & _ & Hb & Hrun).
  pose proof (calibrate_inv (load t) (name (load t !!! root)) lines (cal_start t) _
                (load_attached t) (named_from_refl _)) as Hinv.
  rewrite Hcal in Hinv. destruct Hinv as [_ Hfrom].
  destruct (annotate_normalized lines t st Hcal) as (h' & text' & Hr' & Hnorm).
  assert (h' = h) by congruence. subst h'.
  exists h, (length l), (clear_names body). split; [exact Hr|].
  split; [exact Hnorm|]. split; [exact Hfrom|]. split.
  - by apply (annotate_loop_exact _ _ _ _ Hw0 Hrun).
  - by apply (write_clear h A).
Qed.

Lemma C10_name_clearing_witness :
  exists st,
    calibrate (name (load tree_NoName !!! root)) (cal_start tree_NoName)
      ["H:<300"] = Ok st
    /\ exists h k body,
      annotate ["H:<300"] tree_NoName = Ok (h, tree_file_text k body, root_age st)
      /\ normalized (load tree_NoName) h
      /\ named_from (load tree_NoName) (cal_tree st)
      /\ (forall x, in_tree h x = true -> x <> root ->
            name (h !!! x)
            = if Ete.is_leaf h x then name (cal_tree st !!! x)
              else if str_in (name (cal_tree st !!! x)) (used_nodes st)
                   then name (cal_tree st !!! x) else "NoName")
      /\ Newick.write_with
           (fun leaf nm => clear_names (Newick.name_text Newick.F8 leaf nm))
           h root = Ok body.
Proof.
  assert (Hcal : exists st,
    calibrate (name (load tree_NoName !!! root)) (cal_start tree_NoName)
      ["H:<300"] = Ok st) by (eexists; vm_compute; reflexivity).
  destruct Hcal as [st Hcal]. exists st. split; [exact Hcal|].
  exact (C10_name_clearing ["H:<300"] tree_NoName st Hcal).
Defined.
